(** * spatial-mcp: the spatialtools server

    A shallow embedding of [servers/mcp-spatialtools/src/mcp_spatialtools/server.py]
    (the tools [filter_quality], [split_by_region], [align_spatial_data] and
    [merge_tiles]) and of the validators of [shared/common], together with
    the parts of pathlib, numpy and pandas those tools call.

    Modelling conventions.
    - Python exceptions are values of [exn]; a call returns [result A].
    - The tools run in a world made of a file system and numpy's global
      random generator; they are functions [World -> result A * World].
    - A number of a table is a rational, an infinity or missing; an
      arithmetic operation on [float64] values returns the double nearest to
      the exact result ([round64]: 53 bits, ties to even, infinity on
      overflow). The sign of zero is not modelled, and numbers are compared
      by value.
    - The order in which numpy adds up the values of [Series.mean()] is left
      open ([np_sum] is a parameter); [groupby().mean()] is pandas' own
      compensated loop.
    - A csv file is represented by the table [pd.read_csv] returns for it;
      the textual layout of a file is not modelled.
    - A path is the list of its components; the components of the paths a
      caller passes hold no [/] and are not [.] or [..].
    - pandas follows the 2.x line: boolean-mask row selection, outer
      [concat], [drop_duplicates], and [groupby] reductions that skip missing
      values and raise [TypeError] on string values they cannot reduce. *)

From Stdlib Require Import Ascii QArith Qcanon Qround Qpower.
From stdpp Require Import base numbers strings pretty list gmap sorting.

Local Open Scope string_scope.
Local Open Scope list_scope.

(** ** Python exceptions and results *)

Inductive os_error :=
| FileNotFoundError
| FileExistsError
| NotADirectoryError
| IsADirectoryError.

Inductive exn :=
| KeyError (key : string)
| TypeError (msg : string)
| ValueError (msg : string)
| AttributeError (msg : string)
| ZeroDivisionError
| OverflowError (msg : string)
| ParserError
| OSError (kind : os_error)
| IOError (msg : string)
| IOErrorFrom (msg : string) (cause : exn).

Inductive result (A : Type) :=
| Ok (a : A)
| Err (e : exn).
Arguments Ok {A} a.
Arguments Err {A} e.

Global Instance os_error_eq_dec : EqDecision os_error.
Proof. solve_decision. Defined.

Global Instance exn_eq_dec : EqDecision exn.
Proof. solve_decision. Defined.

Global Instance result_eq_dec {A} `{EqDecision A} : EqDecision (result A).
Proof. solve_decision. Defined.

Definition rbind {A B} (m : result A) (k : A -> result B) : result B :=
  match m with
  | Ok a => k a
  | Err e => Err e
  end.

Notation "'let!' x ':=' m 'in' k" := (rbind m (fun x => k))
  (at level 10, x name, m at level 200, k at level 200).

Definition is_ok {A} (m : result A) : bool :=
  match m with Ok _ => true | Err _ => false end.

Fixpoint mapM {A B} (f : A -> result B) (l : list A) : result (list B) :=
  match l with
  | [] => Ok []
  | x :: l' => let! y := f x in let! ys := mapM f l' in Ok (y :: ys)
  end.

(** ** pathlib *)

(** A path is the list of its components below the root. *)
Definition Path := list string.

Definition path_name (p : Path) : string := List.last p "".
Definition path_parent (p : Path) : Path := removelast p.

(** [str.rfind('.')]: index of the last dot. *)
Fixpoint rfind_dot (s : string) : option nat :=
  match s with
  | EmptyString => None
  | String c s' =>
      match rfind_dot s' with
      | Some i => Some (S i)
      | None => if Ascii.eqb c "."%char then Some 0 else None
      end
  end.

(** [PurePath.suffix]: [i = name.rfind('.')]; [name[i:]] when
    [0 < i < len(name) - 1], the empty string otherwise. *)
Definition suffix_of_name (name : string) : string :=
  match rfind_dot name with
  | Some i =>
      if (0 <? i)%nat && (i <? String.length name - 1)%nat
      then String.substring i (String.length name - i) name
      else ""
  | None => ""
  end.

(** [PurePath.stem]: the name without its suffix. *)
Definition stem_of_name (name : string) : string :=
  match rfind_dot name with
  | Some i =>
      if (0 <? i)%nat && (i <? String.length name - 1)%nat
      then String.substring 0 i name
      else name
  | None => name
  end.

Definition suffix (p : Path) : string := suffix_of_name (path_name p).
Definition stem (p : Path) : string := stem_of_name (path_name p).

(** [s.split('/')]. *)
Fixpoint split_slash (s : string) : list string :=
  match s with
  | EmptyString => [""]
  | String c s' =>
      if Ascii.eqb c "/"%char then "" :: split_slash s'
      else match split_slash s' with
           | x :: xs => String c x :: xs
           | [] => [String c ""]
           end
  end.

(** The components of a path given as a string: empty components and [.]
    are dropped, [..] is kept. *)
Definition path_parts (s : string) : list string :=
  filter (fun c => c ≠ "" ∧ c ≠ ".") (split_slash s).

Definition is_absolute (s : string) : bool :=
  match s with
  | String c _ => Ascii.eqb c "/"%char
  | EmptyString => false
  end.

(** [p / s] for a string [s]: the components of [s] are appended; an
    absolute [s] replaces [p]. *)
Definition path_join (p : Path) (s : string) : Path :=
  if is_absolute s then path_parts s else p ++ path_parts s.

(** ** Floating-point numbers *)

(** A [float64] value: a rational, an infinity or not-a-number. *)
Inductive float :=
| Finite (q : Qc)
| Infinite (negative : bool)
| NotANumber.

Global Instance float_eq_dec : EqDecision float.
Proof. solve_decision. Defined.

Definition Qpow2 (e : Z) : Q := ((2 # 1) ^ e)%Q.

(** The largest [k] with [2^k <= x], for [x > 0]. *)
Definition floor_log2 (x : Q) : Z :=
  let k := (Z.log2 (Qnum x) - Z.log2 (Z.pos (Qden x)))%Z in
  if Qle_bool (Qpow2 k) x then k else (k - 1)%Z.

(** [x] rounded to the nearest integer, a tie to the even one. *)
Definition round_half_even (x : Q) : Z :=
  let f := Qfloor x in
  match (x - inject_Z f ?= 1 # 2)%Q with
  | Lt => f
  | Gt => (f + 1)%Z
  | Eq => if Z.even f then f else (f + 1)%Z
  end.

(** The double nearest to [x > 0]: 53 significant bits, exponents from
    -1074 (below [2^-1022] the spacing stays [2^-1074]) to 971, a tie to the
    even significand; nothing from [2^1024] on. *)
Definition round_pos (x : Q) : option Q :=
  let e := Z.max (floor_log2 x - 52) (-1074) in
  let m := round_half_even (x / Qpow2 e) in
  if (971 <? e)%Z || ((e =? 971)%Z && (m =? 2 ^ 53)%Z) then None
  else Some (inject_Z m * Qpow2 e)%Q.

(** Rounding to [float64]. *)
Definition round64 (x : Qc) : float :=
  match (Qcanon.this x ?= 0)%Q with
  | Eq => Finite 0
  | Gt => from_option (fun y => Finite (Q2Qc y)) (Infinite false) (round_pos (Qcanon.this x))
  | Lt => from_option (fun y => Finite (- Q2Qc y)) (Infinite true)
            (round_pos (- Qcanon.this x))
  end.

(** The conversion of a number to [float64]. *)
Definition to_float64 (x : float) : float :=
  match x with
  | Finite q => round64 q
  | _ => x
  end.

Definition is_nan (x : float) : bool :=
  match x with NotANumber => true | _ => false end.

Definition is_inf (x : float) : bool :=
  match x with Infinite _ => true | _ => false end.

Definition is_zero (x : float) : bool :=
  match x with Finite q => bool_decide (q = 0%Qc) | _ => false end.

Definition is_negative (q : Qc) : bool := bool_decide (q < 0)%Qc.

Definition fneg (x : float) : float :=
  match x with
  | Finite q => Finite (- q)
  | Infinite s => Infinite (negb s)
  | NotANumber => NotANumber
  end.

Definition Qc_abs (q : Qc) : Qc := if decide (0 ≤ q)%Qc then q else (- q)%Qc.

Definition fabs (x : float) : float :=
  match x with
  | Finite q => Finite (Qc_abs q)
  | Infinite _ => Infinite false
  | NotANumber => NotANumber
  end.

(** [x + y], [x - y], [x * y] and [x / y] on [float64]. *)
Definition fadd (x y : float) : float :=
  match x, y with
  | NotANumber, _ | _, NotANumber => NotANumber
  | Infinite s, Infinite s' => if Bool.eqb s s' then Infinite s else NotANumber
  | Infinite s, Finite _ | Finite _, Infinite s => Infinite s
  | Finite a, Finite b => round64 (a + b)
  end.

Definition fsub (x y : float) : float := fadd x (fneg y).

Definition fmul (x y : float) : float :=
  match x, y with
  | NotANumber, _ | _, NotANumber => NotANumber
  | Infinite s, Infinite s' => Infinite (xorb s s')
  | Infinite s, Finite q | Finite q, Infinite s =>
      if bool_decide (q = 0%Qc) then NotANumber else Infinite (xorb s (is_negative q))
  | Finite a, Finite b => round64 (a * b)
  end.

Definition fdiv (x y : float) : float :=
  match x, y with
  | NotANumber, _ | _, NotANumber => NotANumber
  | Infinite _, Infinite _ => NotANumber
  | Infinite s, Finite q => Infinite (xorb s (is_negative q))
  | Finite _, Infinite _ => Finite 0
  | Finite a, Finite b =>
      if bool_decide (b = 0%Qc)
      then (if bool_decide (a = 0%Qc) then NotANumber else Infinite (is_negative a))
      else round64 (a / b)
  end.

(** [x <= y]; a comparison with not-a-number is false. *)
Definition float_le (x y : float) : bool :=
  match x, y with
  | NotANumber, _ | _, NotANumber => false
  | Infinite true, _ | _, Infinite false => true
  | Infinite false, _ | _, Infinite true => false
  | Finite a, Finite b => bool_decide (a ≤ b)%Qc
  end.

Definition float_lt (x y : float) : bool := float_le x y && negb (float_le y x).

Definition float_max (a b : float) : float := if float_le a b then b else a.
Definition float_min (a b : float) : float := if float_le a b then a else b.

Definition float_max_list (l : list float) : option float :=
  match l with
  | [] => None
  | x :: l' => Some (foldr float_max x l')
  end.

Definition float_min_list (l : list float) : option float :=
  match l with
  | [] => None
  | x :: l' => Some (foldr float_min x l')
  end.

Definition Qc_of_nat (n : nat) : Qc := Qc_of_Z (Z.of_nat n).

(** ** pandas values and tables *)

(** A value of a table: a number, an infinity, a string or a missing value. *)
Inductive cell :=
| Num (q : Qc)
| Inf (negative : bool)
| Str (s : string)
| NaN.

Global Instance cell_eq_dec : EqDecision cell.
Proof. solve_decision. Defined.

Definition of_float (x : float) : cell :=
  match x with
  | Finite q => Num q
  | Infinite s => Inf s
  | NotANumber => NaN
  end.

(** The number a value holds, when it holds one. *)
Definition number (v : cell) : option float :=
  match v with
  | Num q => Some (Finite q)
  | Inf s => Some (Infinite s)
  | _ => None
  end.

(** A table as [read_csv] returns it: the header and the rows, each row
    aligned with the header. *)
Record DataFrame := mkDF {
  columns : list string;
  rows : list (list cell)
}.

Global Instance DataFrame_eq_dec : EqDecision DataFrame.
Proof. solve_decision. Defined.

Definition len (df : DataFrame) : nat := length (rows df).

Fixpoint col_index (c : string) (cols : list string) : option nat :=
  match cols with
  | [] => None
  | c' :: cols' =>
      if decide (c' = c) then Some 0%nat else S <$> col_index c cols'
  end.

(** The value of column [c] in row [r]; missing when the table has no such
    column. *)
Definition cell_at (cols : list string) (r : list cell) (c : string) : cell :=
  match col_index c cols with
  | Some i => default NaN (r !! i)
  | None => NaN
  end.

Definition has_column (df : DataFrame) (c : string) : bool :=
  bool_decide (c ∈ columns df).

(** [df.get(c)]: the column as a series, [None] for the caller's default. *)
Definition df_get (df : DataFrame) (c : string) : option (list cell) :=
  if has_column df c
  then Some (map (fun r => cell_at (columns df) r c) (rows df))
  else None.

(** [series <op> scalar] for an ordering comparison: missing values compare
    false, a string against a number raises. *)
Definition compare_series (op : float -> bool) (s : list cell) : result (list bool) :=
  mapM (fun v =>
          match v with
          | Num q => Ok (op (Finite q))
          | Inf neg => Ok (op (Infinite neg))
          | NaN => Ok false
          | Str _ => Err (TypeError "comparison between str and number")
          end) s.

(** [df[mask]] for a boolean series. *)
Definition getitem_mask (df : DataFrame) (mask : list bool) : DataFrame :=
  mkDF (columns df) (fst <$> filter (fun rm => snd rm = true) (zip (rows df) mask)).

(** [df[b]] for a Python bool [b]: a column lookup, which fails on a header
    of strings. *)
Definition getitem_bool (df : DataFrame) (b : bool) : result DataFrame :=
  Err (KeyError (if b then "True" else "False")).

(** [df[df.get(c, 0) <op> t]], where [scalar] is the value of [0 <op> t]. *)
Definition filter_by (df : DataFrame) (c : string) (op : float -> bool) (scalar : bool)
  : result DataFrame :=
  match df_get df c with
  | Some s => let! mask := compare_series op s in Ok (getitem_mask df mask)
  | None => getitem_bool df scalar
  end.

(** *** Reductions of a series *)

(** The numbers of a series, missing values left out. *)
Definition numbers (s : list cell) : list float := omap number s.

Definition strings_of (s : list cell) : list string :=
  omap (fun v => match v with Str x => Some x | _ => None end) s.

Definition has_str (s : list cell) : bool :=
  bool_decide (strings_of s ≠ []).

Definition has_nan (s : list cell) : bool :=
  bool_decide (NaN ∈ s).

(** The loop of [group_mean]: a compensated sum, the compensation reset
    when it is not a number. *)
Fixpoint kahan_sum (sumx compensation : float) (values : list float) : float :=
  match values with
  | [] => sumx
  | val :: rest =>
      let y := fsub val compensation in
      let t := fadd sumx y in
      let c := fsub (fsub t sumx) y in
      kahan_sum t (if is_nan c then Finite 0 else c) rest
  end.

(** [groupby().mean()] on one group: missing values are left out of both
    the sum and the count; a string cannot be averaged. *)
Definition group_mean (s : list cell) : result cell :=
  if has_str s then Err (TypeError "agg function failed [how->mean,dtype->object]")
  else match numbers s with
       | [] => Ok NaN
       | ns => Ok (of_float (fdiv (kahan_sum (Finite 0) (Finite 0) (map to_float64 ns))
                               (Finite (Qc_of_nat (length ns)))))
       end.

Definition string_max (a b : string) : string :=
  if String.leb a b then b else a.

(** [max] with [skipna]: numbers are compared as numbers, strings as strings;
    strings mixed with numbers or with missing values cannot be compared. *)
Definition series_max (s : list cell) : result cell :=
  match strings_of s with
  | [] => Ok (from_option of_float NaN (float_max_list (numbers s)))
  | x :: xs =>
      if bool_decide (numbers s = []) && negb (has_nan s)
      then Ok (Str (foldr string_max x xs))
      else Err (TypeError "'>=' not supported between instances of 'str' and 'float'")
  end.

Definition float_leP (x y : float) : Prop := float_le x y = true.

Global Instance float_leP_dec : RelDecision float_leP.
Proof. intros x y. unfold float_leP. apply _. Defined.

(** [median] with [skipna]: the middle one of the sorted values, or the
    mean of the two middle ones. *)
Definition series_median (s : list cell) : result cell :=
  if has_str s then Err (TypeError "could not convert string to float")
  else
    let ns := merge_sort float_leP (map to_float64 (numbers s)) in
    let n := length ns in
    if (n =? 0)%nat then Ok NaN
    else if Nat.odd n then Ok (from_option of_float NaN (ns !! (n / 2)%nat))
    else match ns !! (n / 2 - 1)%nat, ns !! (n / 2)%nat with
         | Some a, Some b => Ok (of_float (fdiv (fadd a b) (Finite (Qc_of_Z 2))))
         | _, _ => Ok NaN
         end.

(** [int(x)]: truncation towards zero; [int(nan)] and [int(inf)] raise. *)
Definition Qc_trunc (q : Qc) : Z :=
  let (n, d) := Qcanon.this q in Z.quot n (Z.pos d).

Definition py_int (v : cell) : result Z :=
  match v with
  | Num q => Ok (Qc_trunc q)
  | Inf _ => Err (OverflowError "cannot convert float infinity to integer")
  | NaN => Err (ValueError "cannot convert float NaN to integer")
  | Str _ => Err (ValueError "invalid literal for int()")
  end.

(** [a / b]: true division. *)
Definition py_div (a b : Qc) : result Qc :=
  if decide (b = 0%Qc) then Err ZeroDivisionError else Ok (a / b)%Qc.

(** [float(x)]. *)
Definition py_float (v : cell) : result cell :=
  match v with
  | Str _ => Err (ValueError "could not convert string to float")
  | _ => Ok v
  end.

(** *** Row selection, column assignment *)

(** [series == scalar]: a missing value equals nothing. *)
Definition eq_series (s : list cell) (v : cell) : list bool :=
  map (fun x => match x, v with
                | NaN, _ | _, NaN => false
                | _, _ => bool_decide (x = v)
                end) s.

(** [series.unique()]: the distinct values in order of first appearance
    (missing values count as one value). *)
Fixpoint unique (l : list cell) : list cell :=
  match l with
  | [] => []
  | x :: l' => x :: filter (fun y => y ≠ x) (unique l')
  end.

(** [df[c] = values]. *)
Definition setitem (df : DataFrame) (c : string) (vals : list cell) : result DataFrame :=
  if negb (length vals =? len df)%nat
  then Err (ValueError "Length of values does not match length of index")
  else match col_index c (columns df) with
       | Some i => Ok (mkDF (columns df) (zip_with (fun r v => <[i:=v]> r) (rows df) vals))
       | None => Ok (mkDF (columns df ++ [c]) (zip_with (fun r v => r ++ [v]) (rows df) vals))
       end.

(** *** [pd.cut] with an integer number of bins *)

(** The double [0.001]. *)
Definition float_milli : float := round64 (Q2Qc (1 # 1000)).

(** [np.linspace(start, stop, n + 1, endpoint=True)], for [n >= 1]: the
    step is computed once; the last point is [stop] itself. *)
Definition linspace (start stop : float) (n : nat) : list float :=
  let div := Finite (Qc_of_nat n) in
  let delta := fsub stop start in
  let step := fdiv delta div in
  let y := map (fun i : nat => Finite (Qc_of_nat i)) (seq 0 n) in
  let y := if is_zero step
           then map (fun yi => fmul (fdiv yi div) delta) y
           else map (fun yi => fmul yi step) y in
  map (fun yi => fadd yi start) y ++ [stop].

(** The bin edges: equal-width bins over the range of the data, the range
    widened by 0.1% on the left (on both sides when all values agree).
    Edges that coincide are refused. *)
Definition cut_bins (x : list cell) (nbins : nat) : result (list float) :=
  if has_str x then Err (TypeError "'<' not supported between instances of 'str' and 'float'")
  else match x with
       | [] => Err (ValueError "Cannot cut empty array")
       | _ =>
           let ns := map to_float64 (numbers x) in
           match float_min_list ns, float_max_list ns with
           | Some mn, Some mx =>
               if is_inf mn || is_inf mx
               then Err (ValueError "cannot specify integer `bins` when input data contains infinity")
               else
                 let bins :=
                   if bool_decide (mn = mx) then
                     let mn' := fsub mn (if is_zero mn then float_milli
                                         else fmul float_milli (fabs mn)) in
                     let mx' := fadd mx (if is_zero mx then float_milli
                                         else fmul float_milli (fabs mx)) in
                     linspace mn' mx' nbins
                   else
                     match linspace mn mx nbins with
                     | b0 :: bs => fsub b0 (fmul (fsub mx mn) float_milli) :: bs
                     | [] => []
                     end in
                 if bool_decide (NoDup bins) || (length bins =? 2)%nat then Ok bins
                 else Err (ValueError "Bin edges must be unique")
           | _, _ => Err (ValueError "Bin edges must be unique")
           end
       end.

(** [bins.searchsorted(v, side='left')]: the number of edges below [v]. *)
Definition searchsorted (bins : list float) (v : float) : nat :=
  length (filter (fun b => float_lt b v = true) bins).

Definition cut_label (bins : list float) (labels : list string) (v : cell) : cell :=
  match v with
  | Num q =>
      let ids := searchsorted bins (round64 q) in
      if (ids =? 0)%nat || (ids =? length bins)%nat then NaN
      else from_option Str NaN (labels !! (ids - 1)%nat)
  | _ => NaN
  end.

(** [pd.cut(x, bins=nbins, labels=labels)]. *)
Definition cut (x : list cell) (nbins : nat) (labels : list string) : result (list cell) :=
  let! bins := cut_bins x nbins in
  Ok (map (cut_label bins labels) x).

(** *** [pd.concat], [drop_duplicates], [groupby] *)

(** The header of an outer concatenation: the union of the headers in order
    of first appearance. *)
Definition union_columns (dfs : list DataFrame) : list string :=
  foldl (fun acc df => acc ++ filter (fun c => c ∉ acc) (columns df)) [] dfs.

Definition reindex (cols : list string) (df : DataFrame) : list (list cell) :=
  map (fun r => map (cell_at (columns df) r) cols) (rows df).

(** [pd.concat(dfs, ignore_index=True)]. *)
Definition concat (dfs : list DataFrame) : result DataFrame :=
  match dfs with
  | [] => Err (ValueError "No objects to concatenate")
  | _ =>
      let cols := union_columns dfs in
      Ok (mkDF cols (dfs ≫= reindex cols))
  end.

Fixpoint drop_seen (key : list cell -> cell) (seen : list cell) (rs : list (list cell))
  : list (list cell) :=
  match rs with
  | [] => []
  | r :: rs' =>
      if decide (key r ∈ seen) then drop_seen key seen rs'
      else r :: drop_seen key (key r :: seen) rs'
  end.

(** [df.drop_duplicates(subset=c, keep='first')]. *)
Definition drop_duplicates (df : DataFrame) (c : string) : DataFrame :=
  mkDF (columns df) (drop_seen (fun r => cell_at (columns df) r c) [] (rows df)).

(** The order in which group keys are sorted: numbers before strings. *)
Definition cell_le (a b : cell) : Prop :=
  match number a, number b with
  | Some x, Some y => float_le x y = true
  | Some _, None => True
  | None, Some _ => False
  | None, None =>
      match a, b with
      | Str x, Str y => String.leb x y = true
      | Str _, _ => True
      | _, Str _ => False
      | _, _ => True
      end
  end.

Global Instance cell_le_dec : RelDecision cell_le.
Proof.
  intros a b. unfold cell_le.
  destruct (number a), (number b); [apply _ | apply _ | apply _ |].
  destruct a, b; apply _.
Defined.

(** The keys of [df.groupby(c)]: distinct, sorted, missing keys dropped. *)
Definition group_keys (df : DataFrame) (c : string) : list cell :=
  merge_sort cell_le
    (unique (filter (fun k => k ≠ NaN) (map (fun r => cell_at (columns df) r c) (rows df)))).

(** The values of column [c] in the group of key [k]. *)
Definition group_values (df : DataFrame) (key : string) (k : cell) (c : string) : list cell :=
  map (fun r => cell_at (columns df) r c)
      (filter (fun r => cell_at (columns df) r key = k) (rows df)).

(** [df.groupby(key).agg().reset_index()]: one row per key, the key first,
    then every other column reduced over the group. *)
Definition groupby_agg (agg : list cell -> result cell) (df : DataFrame) (key : string)
  : result DataFrame :=
  let others := filter (fun c => c ≠ key) (columns df) in
  let! rs := mapM (fun k =>
                     let! vs := mapM (fun c => agg (group_values df key k c)) others in
                     Ok (k :: vs))
                  (group_keys df key) in
  Ok (mkDF (key :: others) rs).

(** ** The file system *)

Inductive file :=
| CsvFile (df : DataFrame)
| OtherFile.

Record FS := mkFS {
  fs_dirs : gset (list string);
  fs_files : gmap (list string) file
}.

Definition is_file (fs : FS) (p : Path) : bool :=
  bool_decide (is_Some (fs_files fs !! p)).

Definition is_dir (fs : FS) (p : Path) : bool :=
  bool_decide (p = [] ∨ p ∈ fs_dirs fs).

(** [Path.exists()]. *)
Definition path_exists (fs : FS) (p : Path) : bool := is_dir fs p || is_file fs p.

(** The non-empty prefixes of a path, shortest first. *)
Definition prefixes (p : Path) : list Path :=
  (fun n => take n p) <$> seq 1 (length p).

Definition under_a_file (fs : FS) (p : Path) : bool :=
  existsb (is_file fs) (prefixes (path_parent p)).

(** [Path.mkdir(parents=True, exist_ok=True)]. *)
Definition mkdir_parents (p : Path) (fs : FS) : result FS :=
  if under_a_file fs p then Err (OSError NotADirectoryError)
  else if is_file fs p then Err (OSError FileExistsError)
  else Ok (mkFS (fs_dirs fs ∪ list_to_set (prefixes p)) (fs_files fs)).

(** [Path.mkdir(exist_ok=True)]. *)
Definition mkdir (p : Path) (fs : FS) : result FS :=
  if under_a_file fs p then Err (OSError NotADirectoryError)
  else if is_dir fs p then Ok fs
  else if is_file fs p then Err (OSError FileExistsError)
  else if is_dir fs (path_parent p) then Ok (mkFS (fs_dirs fs ∪ {[ p ]}) (fs_files fs))
  else Err (OSError FileNotFoundError).

(** [pd.read_csv(p)]. *)
Definition read_csv (p : Path) (fs : FS) : result DataFrame :=
  match fs_files fs !! p with
  | Some (CsvFile df) => Ok df
  | Some OtherFile => Err ParserError
  | None => if is_dir fs p then Err (OSError IsADirectoryError)
            else Err (OSError FileNotFoundError)
  end.

(** [df.to_csv(p, index=False)]. *)
Definition to_csv (df : DataFrame) (p : Path) (fs : FS) : result FS :=
  if under_a_file fs p then Err (OSError NotADirectoryError)
  else if is_dir fs p then Err (OSError IsADirectoryError)
  else if is_dir fs (path_parent p) then Ok (mkFS (fs_dirs fs) (<[p := CsvFile df]> (fs_files fs)))
  else Err (OSError FileNotFoundError).

(** ** numpy's global random generator *)

(** The generator is an unknown sequence of raw draws and a cursor. *)
Record RandomState := mkRS {
  rs_draws : nat -> N;
  rs_pos : nat
}.

Definition rs_take (n : nat) (g : RandomState) : list N * RandomState :=
  (map (fun i => rs_draws g (rs_pos g + i)%nat) (seq 0 n), mkRS (rs_draws g) (rs_pos g + n)).

(** [np.random.randint(lo, hi)]. *)
Definition randint (lo hi : Z) (g : RandomState) : Z * RandomState :=
  let (xs, g') := rs_take 1 g in
  ((lo + Z.of_N (List.hd 0%N xs) mod (hi - lo))%Z, g').

(** [np.random.choice(a, size=n)]. *)
Definition choice (a : list string) (n : nat) (g : RandomState)
  : result (list cell) * RandomState :=
  match a with
  | [] => (Err (ValueError "'a' cannot be empty unless no samples are taken"), g)
  | a0 :: _ =>
      let (xs, g') := rs_take n g in
      (Ok (map (fun x => Str (nth (N.to_nat x mod length a) a a0)) xs), g')
  end.

(** [np.random.rand(n)]: [n] numbers in [0, 1). *)
Definition rand (n : nat) (g : RandomState) : list cell * RandomState :=
  let (xs, g') := rs_take n g in
  (map (fun x => Num (Q2Qc (Z.of_N (x mod 2 ^ 53) # 2 ^ 53))) xs, g').

(** ** The world a tool runs in *)

Record World := mkWorld {
  w_fs : FS;
  w_rng : RandomState
}.

(** A computation that may raise and that changes the world; what was done
    before an exception stays done. *)
Definition Py (A : Type) : Type := World -> result A * World.

Definition ret {A} (a : A) : Py A := fun w => (Ok a, w).

Definition raise {A} (e : exn) : Py A := fun w => (Err e, w).

Definition bind {A B} (m : Py A) (k : A -> Py B) : Py B :=
  fun w =>
    match m w with
    | (Ok a, w') => k a w'
    | (Err e, w') => (Err e, w')
    end.

Notation "'do!' x ':=' m 'in' k" := (bind m (fun x => k))
  (at level 10, x name, m at level 200, k at level 200).

Definition lift {A} (m : result A) : Py A := fun w => (m, w).

Definition fs_update (f : FS -> result FS) : Py unit :=
  fun w =>
    match f (w_fs w) with
    | Ok fs' => (Ok tt, mkWorld fs' (w_rng w))
    | Err e => (Err e, w)
    end.

Definition fs_read {A} (f : FS -> A) : Py A := fun w => (Ok (f (w_fs w)), w).

Definition fs_get {A} (f : FS -> result A) : Py A := fun w => (f (w_fs w), w).

Definition draw {A} (f : RandomState -> A * RandomState) : Py A :=
  fun w => let (a, g) := f (w_rng w) in (Ok a, mkWorld (w_fs w) g).

(** [try: m  except Exception as e: raise IOError(msg) from e]. *)
Definition try_except {A} (m : Py A) (msg : string) : Py A :=
  fun w =>
    match m w with
    | (Err e, w') => (Err (IOErrorFrom msg e), w')
    | r => r
    end.

(** ** Configuration *)

Record Config := mkConfig {
  DATA_DIR : Path;
  CACHE_DIR : Path;
  DRY_RUN : bool
}.

Definition _ensure_directories (cfg : Config) : Py unit :=
  do! _ := fs_update (mkdir_parents (DATA_DIR cfg)) in
  do! _ := fs_update (mkdir_parents (CACHE_DIR cfg)) in
  do! _ := fs_update (mkdir (DATA_DIR cfg ++ ["raw"])) in
  do! _ := fs_update (mkdir (DATA_DIR cfg ++ ["filtered"])) in
  fs_update (mkdir (DATA_DIR cfg ++ ["aligned"])).

(** ** Tool 1: filter_quality *)

Record QCMetrics := mkQCMetrics {
  mean_reads_per_barcode : cell;
  median_genes_per_barcode : cell;
  mean_mt_percent : cell;
  filtering_rate : Qc;
  qc_mode : option string
}.

Record FilterResult := mkFilterResult {
  fq_output_file : Path;
  barcodes_before : Z;
  barcodes_after : Z;
  genes_detected : Z;
  qc_metrics : QCMetrics
}.

Definition filter_dry_run (output_path : Path) : FilterResult :=
  mkFilterResult output_path 50000 42500 15000
    (mkQCMetrics (Num (Qc_of_Z 2500)) (Num (Qc_of_Z 850)) (Num (Q2Qc (52 # 10)))
       (Q2Qc (85 # 100)) (Some "dry_run")).

(** [f(df.get(c, 0))] for a reduction [f]: the default [0] has no such
    method. *)
Definition reduce_column (df : DataFrame) (c : string) (f : list cell -> result cell)
  : result cell :=
  match df_get df c with
  | Some s => f s
  | None => Err (AttributeError "'int' object has no attribute")
  end.

(** [x >= t] for an [int] [t], and [x <= t] for a [float] [t]. *)
Definition at_least (t : Z) (x : float) : bool := float_le (Finite (Qc_of_Z t)) x.
Definition at_most (t : float) (x : float) : bool := float_le x t.

(** The three threshold filters of [filter_quality], in order. *)
Definition apply_filters (data : DataFrame) (min_reads min_genes : Z) (max_mt_percent : float)
  : result DataFrame :=
  let! d1 := filter_by data "n_reads" (at_least min_reads) (bool_decide (min_reads ≤ 0)%Z) in
  let! d2 := filter_by d1 "n_genes" (at_least min_genes) (bool_decide (min_genes ≤ 0)%Z) in
  filter_by d2 "mt_percent" (at_most max_mt_percent) (float_le (Finite 0) max_mt_percent).

Section filter_quality.

(** The sum numpy returns for the values of a series. *)
Variable np_sum : list float -> float.

(** [Series.mean()] with [skipna]: a missing value counts as 0 in the sum
    and not at all in the count. *)
Definition series_mean (s : list cell) : result cell :=
  if has_str s then Err (TypeError "Could not convert string to numeric")
  else match numbers s with
       | [] => Ok NaN
       | ns => Ok (of_float (fdiv (np_sum (map (fun v => match number v with
                                                         | Some x => to_float64 x
                                                         | None => Finite 0
                                                         end) s))
                               (Finite (Qc_of_nat (length ns)))))
       end.

Definition filter_stats (output_path : Path) (barcodes_before : Z) (data_filtered : DataFrame)
  : result FilterResult :=
  let barcodes_after := Z.of_nat (len data_filtered) in
  let nonempty := (0 <? len data_filtered)%nat in
  let! genes := if nonempty
                then let! m := reduce_column data_filtered "n_genes" series_max in py_int m
                else Ok 0%Z in
  let! mean_reads := if nonempty
                     then let! m := reduce_column data_filtered "n_reads" series_mean in py_float m
                     else Ok (Num (Qc_of_Z 0)) in
  let! median_genes := if nonempty
                       then let! m := reduce_column data_filtered "n_genes" series_median in py_float m
                       else Ok (Num (Qc_of_Z 0)) in
  let! mean_mt := if nonempty
                  then let! m := reduce_column data_filtered "mt_percent" series_mean in py_float m
                  else Ok (Num (Qc_of_Z 0)) in
  let! rate := if (0 <? barcodes_before)%Z
               then py_div (Qc_of_Z barcodes_after) (Qc_of_Z barcodes_before)
               else Ok (Qc_of_Z 0) in
  Ok (mkFilterResult output_path barcodes_before barcodes_after genes
        (mkQCMetrics mean_reads median_genes mean_mt rate None)).

(** [pd.read_csv] behind the check of the suffix. *)
Definition read_input (input_path : Path) : Py DataFrame :=
  if String.eqb (suffix input_path) ".csv"
  then fs_get (read_csv input_path)
  else raise (ValueError "Unsupported file format").

(** The body of the [try] block of [filter_quality]. *)
Definition filter_quality_try (input_path output_path : Path)
    (min_reads min_genes : Z) (max_mt_percent : float) : Py FilterResult :=
  do! data := read_input input_path in
  let barcodes_before := Z.of_nat (len data) in
  do! data_filtered := lift (apply_filters data min_reads min_genes max_mt_percent) in
  do! _ := fs_update (to_csv data_filtered output_path) in
  lift (filter_stats output_path barcodes_before data_filtered).

Definition filter_quality (cfg : Config) (input_file output_dir : Path)
    (min_reads min_genes : Z) (max_mt_percent : float) : Py FilterResult :=
  do! _ := _ensure_directories cfg in
  let input_path := input_file in
  do! found := fs_read (fun fs => path_exists fs input_path) in
  if negb found then raise (IOError "Input file not found")
  else if bool_decide (min_reads < 0)%Z || bool_decide (min_genes < 0)%Z
          || float_lt max_mt_percent (Finite 0)
          || float_lt (Finite (Qc_of_Z 100)) max_mt_percent
  then raise (ValueError "Invalid QC parameters")
  else
    let output_path := output_dir ++ [String.append (stem input_path) "_filtered.csv"] in
    do! _ := fs_update (mkdir_parents (path_parent output_path)) in
    if DRY_RUN cfg then ret (filter_dry_run output_path)
    else
      try_except
        (filter_quality_try input_path output_path min_reads min_genes max_mt_percent)
        "Failed to filter quality".

End filter_quality.

(** ** Tool 2: split_by_region *)

Record RegionFile := mkRegionFile {
  region_name : string;
  region_file : Path;
  barcode_count : Z
}.

Record RegionStats := mkRegionStats {
  stats_mean : Z;
  stats_min : Z;
  stats_max : Z
}.

Record SplitResult := mkSplitResult {
  regions_out : list RegionFile;
  total_regions : Z;
  barcodes_per_region : RegionStats;
  split_mode : option string
}.

Definition Z_sum (l : list Z) : Z := foldr Z.add 0%Z l.

(** [int(np.mean(l))], [int(np.min(l))], [int(np.max(l))]; the mean of an
    empty list is not a number. *)
Definition region_summary (l : list Z) : result RegionStats :=
  match l with
  | [] => Err (ValueError "cannot convert float NaN to integer")
  | x :: l' =>
      Ok (mkRegionStats (Z.quot (Z_sum l) (Z.of_nat (length l)))
            (foldr Z.min x l') (foldr Z.max x l'))
  end.

(** [f"region_{i}" for i in range(n)]. *)
Definition grid_labels (n : nat) : list string :=
  map (fun i : nat => String.append "region_" (pretty i)) (seq 0 n).

(** [regions or ["region_1", "region_2", "region_3"]]. *)
Definition mock_regions (regions : option (list string)) : list string :=
  match regions with
  | Some (r :: rs) => r :: rs
  | _ => ["region_1"; "region_2"; "region_3"]
  end.

Section split_by_region.

(** [str(x)] for a number [x] read from a csv file. *)
Variable str_of_num : Qc -> string.

Definition str_of_cell (v : cell) : string :=
  match v with
  | Str s => s
  | Num q => str_of_num q
  | Inf neg => if neg then "-inf" else "inf"
  | NaN => "nan"
  end.

Fixpoint mock_region_files (output_path : Path) (names : list string) : Py (list RegionFile) :=
  match names with
  | [] => ret []
  | region :: names' =>
      do! n := draw (randint 5000 15000) in
      do! rest := mock_region_files output_path names' in
      ret (mkRegionFile region (path_join output_path (String.append region ".csv")) n :: rest)
  end.

(** The region column is added when the table has none: drawn at random
    from [regions] when given, otherwise by binning [x_coord] (random
    numbers when the table has no [x_coord]) into four bins. *)
Definition assign_regions (data : DataFrame) (regions : option (list string)) : Py DataFrame :=
  if has_column data "region" then ret data
  else
    match regions with
    | Some (r :: rs) =>
        do! picked := draw (choice (r :: rs) (len data)) in
        do! vals := lift picked in
        lift (setitem data "region" vals)
    | _ =>
        let num_regions := 4%nat in
        do! noise := draw (rand (len data)) in
        let x := default noise (df_get data "x_coord") in
        do! labels := lift (cut x num_regions (grid_labels num_regions)) in
        lift (setitem data "region" labels)
    end.

(** The loop writing one file per distinct region value. *)
Fixpoint write_regions (data : DataFrame) (region : list cell) (output_path : Path)
    (names : list cell) : Py (list RegionFile) :=
  match names with
  | [] => ret []
  | region_name :: names' =>
      let region_data := getitem_mask data (eq_series region region_name) in
      let region_file := path_join output_path (String.append (str_of_cell region_name) ".csv") in
      do! _ := fs_update (to_csv region_data region_file) in
      do! rest := write_regions data region output_path names' in
      ret (mkRegionFile (str_of_cell region_name) region_file (Z.of_nat (len region_data)) :: rest)
  end.

(** The body of the [try] block of [split_by_region]. *)
Definition split_by_region_try (input_path output_path : Path)
    (regions : option (list string)) : Py SplitResult :=
  do! data := read_input input_path in
  do! data := assign_regions data regions in
  do! region := lift (match df_get data "region" with
                      | Some s => Ok s
                      | None => Err (KeyError "region")
                      end) in
  do! region_files := write_regions data region output_path (unique region) in
  do! summary := lift (region_summary (map barcode_count region_files)) in
  ret (mkSplitResult region_files (Z.of_nat (length region_files)) summary None).

Definition split_by_region (cfg : Config) (input_file output_dir : Path)
    (regions : option (list string)) (coordinate_file : option Path) : Py SplitResult :=
  do! _ := _ensure_directories cfg in
  let input_path := input_file in
  do! found := fs_read (fun fs => path_exists fs input_path) in
  if negb found then raise (IOError "Input file not found")
  else
    let output_path := output_dir in
    do! _ := fs_update (mkdir_parents output_path) in
    if DRY_RUN cfg then
      do! files := mock_region_files output_path (mock_regions regions) in
      ret (mkSplitResult files (Z.of_nat (length (mock_regions regions)))
             (mkRegionStats 10000 5000 15000) (Some "dry_run"))
    else
      try_except (split_by_region_try input_path output_path regions)
        "Failed to split by region".

End split_by_region.

(** ** Tool 4: merge_tiles *)

Record OverlapRegions := mkOverlapRegions {
  overlapping_barcodes : Z;
  overlap_percent : Qc
}.

Record MergeResult := mkMergeResult {
  mt_output_file : Path;
  tiles_merged : Z;
  total_barcodes : Z;
  overlap_regions : OverlapRegions;
  merge_mode : option string
}.

(** The loop reading the tiles: a tile whose suffix is not [.csv] is passed
    over. *)
Fixpoint load_tiles (tile_files : list Path) (fs : FS) : result (list DataFrame) :=
  match tile_files with
  | [] => Ok []
  | tile_path :: rest =>
      if String.eqb (suffix tile_path) ".csv"
      then let! data := read_csv tile_path fs in
           let! all_data := load_tiles rest fs in
           Ok (data :: all_data)
      else load_tiles rest fs
  end.

(** The handling of barcodes seen in several tiles. *)
Definition resolve_overlaps (merged_data : DataFrame) (overlap_resolution : string)
  : result DataFrame :=
  if has_column merged_data "barcode" then
    if String.eqb overlap_resolution "first"
    then Ok (drop_duplicates merged_data "barcode")
    else if String.eqb overlap_resolution "average"
    then groupby_agg group_mean merged_data "barcode"
    else if String.eqb overlap_resolution "max"
    then groupby_agg series_max merged_data "barcode"
    else Ok merged_data
  else Ok merged_data.

(** Concatenation followed by overlap resolution. *)
Definition merge_tables (all_data : list DataFrame) (overlap_resolution : string)
  : result DataFrame :=
  let! merged_data := concat all_data in
  resolve_overlaps merged_data overlap_resolution.

(** The overlap statistics of the returned dictionary. *)
Definition overlap_stats (all_data : list DataFrame) (merged_data : DataFrame)
  : result OverlapRegions :=
  match all_data with
  | d0 :: d1 :: _ =>
      let overlapping := (Z.of_nat (len d0) + Z.of_nat (len d1) - Z.of_nat (len merged_data))%Z in
      let! percent := if (0 <? len merged_data)%nat
                      then let! q := py_div (Qc_of_Z overlapping) (Qc_of_nat (len merged_data)) in
                           Ok (q * Qc_of_Z 100)%Qc
                      else Ok (Qc_of_Z 0) in
      Ok (mkOverlapRegions overlapping percent)
  | _ => Ok (mkOverlapRegions 0 (Qc_of_Z 0))
  end.

Definition merge_dry_run (output_path : Path) (tile_files : list Path) : MergeResult :=
  mkMergeResult output_path (Z.of_nat (length tile_files)) 85000
    (mkOverlapRegions 5000 (Q2Qc (59 # 10))) (Some "dry_run").

(** The body of the [try] block of [merge_tiles]. *)
Definition merge_tiles_try (tile_files : list Path) (output_path : Path)
    (overlap_resolution : string) : Py MergeResult :=
  do! all_data := fs_get (load_tiles tile_files) in
  do! merged_data := lift (merge_tables all_data overlap_resolution) in
  do! _ := fs_update (to_csv merged_data output_path) in
  do! overlap := lift (overlap_stats all_data merged_data) in
  ret (mkMergeResult output_path (Z.of_nat (length tile_files))
         (Z.of_nat (len merged_data)) overlap None).

Definition merge_tiles (cfg : Config) (tile_files : list Path) (output_file : Path)
    (overlap_resolution : string) : Py MergeResult :=
  do! _ := _ensure_directories cfg in
  if bool_decide (tile_files = []) then raise (ValueError "No tile files provided")
  else if negb (bool_decide (overlap_resolution ∈ ["average"; "max"; "first"]))
  then raise (ValueError "Invalid overlap resolution method")
  else
    do! all_found := fs_read (fun fs => forallb (path_exists fs) tile_files) in
    if negb all_found then raise (IOError "Tile file not found")
    else
      let output_path := output_file in
      do! _ := fs_update (mkdir_parents (path_parent output_path)) in
      if DRY_RUN cfg then ret (merge_dry_run output_path tile_files)
      else
        try_except (merge_tiles_try tile_files output_path overlap_resolution)
          "Failed to merge tiles".

(** ** Tool 3: align_spatial_data *)

Record AlignmentStats := mkAlignmentStats {
  total_reads : Z;
  uniquely_mapped : Z;
  multi_mapped : Z;
  unmapped : Z;
  alignment_rate : Qc;
  unique_mapping_rate : Qc
}.

Record AlignResult := mkAlignResult {
  aligned_bam : Path;
  alignment_stats : AlignmentStats;
  log_file : Path;
  align_mode : option string
}.

(** The statistics the tool reports; the STAR log is not parsed. *)
Definition mock_alignment_stats : AlignmentStats :=
  mkAlignmentStats 50000000 42500000 3750000 3750000 (Q2Qc (925 # 1000)) (Q2Qc (85 # 100)).

(** An argument of the STAR command line: a literal, [str(p)] for a path
    [p], or [str(p) + "/"]. *)
Inductive arg :=
| Lit (s : string)
| PathArg (p : Path)
| PrefixArg (p : Path).

(** What [subprocess.run] does with a command: the process ends with a
    return code, the timeout expires, or the call itself raises. *)
Inductive process_outcome :=
| Completed (returncode : Z)
| TimedOut
| Failed (e : exn).

(** The exceptions of the [subprocess] module, and what [align_spatial_data]
    raises: an exception of the checks before the [try] block, or an
    [IOError] raised from an exception caught in it. *)
Inductive subprocess_exn :=
| TimeoutExpired
| CalledProcessError (returncode : Z) (cmd : list arg)
| Raised (e : exn).

Inductive align_exn :=
| Unhandled (e : exn)
| AlignIOError (msg : string) (cause : subprocess_exn).

Inductive align_outcome :=
| Returned (r : AlignResult)
| Raises (e : align_exn).

(** The checks of [align_spatial_data] and the creation of the output
    directory, up to the dry-run switch. *)
Definition align_checks (cfg : Config) (fastq_r1 fastq_r2 output_dir : Path) (threads : Z)
  : Py Path :=
  do! _ := _ensure_directories cfg in
  let r1_path := fastq_r1 in
  let r2_path := fastq_r2 in
  let output_path := output_dir in
  do! found_r1 := fs_read (fun fs => path_exists fs r1_path) in
  if negb found_r1 then raise (IOError "FASTQ R1 not found")
  else
    do! found_r2 := fs_read (fun fs => path_exists fs r2_path) in
    if negb found_r2 then raise (IOError "FASTQ R2 not found")
    else if bool_decide (threads < 1)%Z || bool_decide (64 < threads)%Z
    then raise (ValueError "Invalid thread count")
    else
      do! _ := fs_update (mkdir_parents output_path) in
      ret output_path.

Definition align_result (output_path : Path) (mode : option string) : AlignResult :=
  mkAlignResult (output_path ++ ["Aligned.sortedByCoord.out.bam"]) mock_alignment_stats
    (output_path ++ ["Log.final.out"]) mode.

Section align_spatial_data.

(** The program name from the environment, and the operating system
    running a command. *)
Variable STAR_PATH : string.
Variable subprocess_run : list arg -> World -> process_outcome * World.

Definition star_cmd (r1_path r2_path genome_path output_path : Path) (threads : Z) : list arg :=
  [Lit STAR_PATH;
   Lit "--runThreadN"; Lit (pretty threads);
   Lit "--genomeDir"; PathArg genome_path;
   Lit "--readFilesIn"; PathArg r2_path; PathArg r1_path;
   Lit "--readFilesCommand"; Lit (if String.eqb (suffix r1_path) ".gz" then "zcat" else "cat");
   Lit "--outFileNamePrefix"; PrefixArg output_path;
   Lit "--outSAMtype"; Lit "BAM"; Lit "SortedByCoordinate";
   Lit "--outSAMattributes"; Lit "NH"; Lit "HI"; Lit "AS"; Lit "nM"; Lit "NM"; Lit "MD";
   Lit "--limitBAMsortRAM"; Lit "32000000000"].

(** The body of the [try] block: the command is run unless the dry-run
    switch is on, a return code other than zero raises. *)
Definition align_try (cfg : Config) (r1_path r2_path genome_path output_path : Path)
    (threads : Z) (w : World) : (subprocess_exn + AlignResult) * World :=
  let cmd := star_cmd r1_path r2_path genome_path output_path threads in
  let ran :=
    if DRY_RUN cfg then (inr tt, w)
    else match subprocess_run cmd w with
         | (Completed returncode, w') =>
             if negb (returncode =? 0)%Z
             then (inl (CalledProcessError returncode cmd), w')
             else (inr tt, w')
         | (TimedOut, w') => (inl TimeoutExpired, w')
         | (Failed e, w') => (inl (Raised e), w')
         end in
  match ran with
  | (inl e, w') => (inl e, w')
  | (inr _, w') => (inr (align_result output_path None), w')
  end.

Definition align_spatial_data (cfg : Config) (fastq_r1 fastq_r2 reference_genome
    output_dir : Path) (threads : Z) (w : World) : align_outcome * World :=
  match align_checks cfg fastq_r1 fastq_r2 output_dir threads w with
  | (Err e, w1) => (Raises (Unhandled e), w1)
  | (Ok output_path, w1) =>
      if DRY_RUN cfg then (Returned (align_result output_path (Some "dry_run")), w1)
      else
        match align_try cfg fastq_r1 fastq_r2 reference_genome output_path threads w1 with
        | (inr r, w2) => (Returned r, w2)
        | (inl TimeoutExpired, w2) =>
            (Raises (AlignIOError "STAR alignment timeout" TimeoutExpired), w2)
        | (inl e, w2) => (Raises (AlignIOError "STAR alignment failed" e), w2)
        end
  end.

End align_spatial_data.

(** ** shared/common: configuration and validation *)

(** [BaseConfig.ensure_directories]. *)
Definition ensure_directories (data_dir cache_dir : Path) : Py unit :=
  do! _ := fs_update (mkdir_parents data_dir) in
  fs_update (mkdir_parents cache_dir).

(** The validators return their argument or raise [MCPValidationError]. *)
Inductive validated (A : Type) :=
| Valid (a : A)
| MCPValidationError (msg : string).
Arguments Valid {A} a.
Arguments MCPValidationError {A} msg.

(** [validate_thread_count]; [threads] is an [int]. *)
Definition validate_thread_count (threads max_threads : Z) : validated Z :=
  if bool_decide (threads < 1)%Z
  then MCPValidationError "Thread count must be at least 1"
  else if bool_decide (max_threads < threads)%Z
  then MCPValidationError "Thread count exceeds maximum"
  else Valid threads.

(** The character class [[a-zA-Z0-9_\-./]]. *)
Definition allowed_char (c : ascii) : bool :=
  let n := nat_of_ascii c in
  ((97 <=? n) && (n <=? 122))%nat || ((65 <=? n) && (n <=? 90))%nat
  || ((48 <=? n) && (n <=? 57))%nat
  || Ascii.eqb c "_" || Ascii.eqb c "-" || Ascii.eqb c "." || Ascii.eqb c "/".

Definition newline : string := String (ascii_of_nat 10) EmptyString.

(** What is left of a string after its longest prefix of allowed
    characters. *)
Fixpoint skip_allowed (s : string) : string :=
  match s with
  | String c s' => if allowed_char c then skip_allowed s' else s
  | EmptyString => EmptyString
  end.

(** [re.match(r"^[a-zA-Z0-9_\-./]+$", value)]: one or more allowed
    characters, then the end of the string; [$] also matches before a
    newline that ends the string. *)
Definition re_match_allowed (value : string) : bool :=
  match value with
  | String c s' =>
      allowed_char c &&
      (String.eqb (skip_allowed s') "" || String.eqb (skip_allowed s') newline)
  | EmptyString => false
  end.

(** [sanitize_tool_input]; [value] is a [str] of characters below 256. *)
Definition sanitize_tool_input (value param_name : string) (max_length : Z) : validated string :=
  if bool_decide (max_length < Z.of_nat (String.length value))%Z
  then MCPValidationError "Parameter exceeds maximum length"
  else if negb (re_match_allowed value)
  then MCPValidationError "Parameter contains invalid characters"
  else Valid value.

(** ** Properties the theorems are stated with *)

(** The significand and the exponent of a double. *)
Definition representable (m e : Z) : Prop :=
  (0 ≤ m ≤ 2 ^ 53)%Z ∧ (-1074 ≤ e ≤ 971)%Z ∧ ((2 ^ 52 ≤ m)%Z ∨ e = (-1074)%Z) ∧
  ¬ (e = 971%Z ∧ m = (2 ^ 53)%Z).

(** A directory that [mkdir] calls have put in place: the path and its
    parents are directories and no file is in the way. *)
Definition in_place (fs : FS) (p : Path) : Prop :=
  under_a_file fs p = false ∧ is_file fs p = false ∧
  (list_to_set (prefixes p) : gset Path) ⊆ fs_dirs fs.

(** The directories [_ensure_directories] is to create. *)
Definition server_directories (cfg : Config) : list Path :=
  [DATA_DIR cfg; CACHE_DIR cfg; DATA_DIR cfg ++ ["raw"]; DATA_DIR cfg ++ ["filtered"];
   DATA_DIR cfg ++ ["aligned"]].

(** The three quality columns are there and hold no text. *)
Definition quality_columns_numeric (data : DataFrame) : Prop :=
  Forall (fun c => c ∈ columns data ∧
                   has_str (map (fun r => cell_at (columns data) r c) (rows data)) = false)
    ["n_reads"; "n_genes"; "mt_percent"].

(** The stricter of two upper thresholds: the smaller one, and
    not-a-number, which nothing passes, when one of them is. *)
Definition stricter_max (c c' : float) : float :=
  if is_nan c then c else if is_nan c' then c' else float_min c c'.

(** A string that holds the separator of paths. *)
Fixpoint has_slash (s : string) : bool :=
  match s with
  | String c s' => Ascii.eqb c "/"%char || has_slash s'
  | EmptyString => false
  end.

(** A string made of characters of the class [[a-zA-Z0-9_\-./]] only. *)
Fixpoint all_allowed (s : string) : bool :=
  match s with
  | String c s' => allowed_char c && all_allowed s'
  | EmptyString => true
  end.

Definition fs_grows (fs fs' : FS) : Prop :=
  fs_files fs' = fs_files fs ∧ fs_dirs fs ⊆ fs_dirs fs'.

Definition only_mkdir {A} (m : Py A) : Prop :=
  ∀ w, fs_grows (w_fs w) (w_fs (snd (m w))).

Definition prelude_ok (cfg : Config) (w : World) (dir : Path) : Prop :=
  ∃ w1, _ensure_directories cfg w = (Ok tt, w1) ∧ is_ok (mkdir_parents dir (w_fs w1)) = true.

(** The thresholds [filter_quality] accepts; not-a-number passes both
    comparisons of [max_mt_percent]. *)
Definition valid_thresholds (min_reads min_genes : Z) (max_mt_percent : float) : Prop :=
  (0 ≤ min_reads)%Z ∧ (0 ≤ min_genes)%Z ∧
  float_lt max_mt_percent (Finite 0) = false ∧
  float_lt (Finite (Qc_of_Z 100)) max_mt_percent = false.

Definition filter_output_path (input_file output_dir : Path) : Path :=
  output_dir ++ [String.append (stem input_file) "_filtered.csv"].

Definition split_placeholder (output_dir : Path) (regions : option (list string))
    (r : SplitResult) : Prop :=
  map region_name (regions_out r) = mock_regions regions ∧
  map region_file (regions_out r)
    = map (fun n => path_join output_dir (String.append n ".csv")) (mock_regions regions) ∧
  Forall (fun f => (5000 ≤ barcode_count f < 15000)%Z) (regions_out r) ∧
  total_regions r = Z.of_nat (length (mock_regions regions)) ∧
  barcodes_per_region r = mkRegionStats 10000 5000 15000 ∧
  split_mode r = Some "dry_run".

(** A row passes a threshold when its value is a number satisfying it. *)
Definition passes (op : float → bool) (v : cell) : bool :=
  match number v with Some x => op x | None => false end.

(** The rows [filter_quality] keeps. *)
Definition keeps (cols : list string) (min_reads min_genes : Z) (max_mt_percent : float)
    (r : list cell) : Prop :=
  passes (at_least min_reads) (cell_at cols r "n_reads") = true ∧
  passes (at_least min_genes) (cell_at cols r "n_genes") = true ∧
  passes (at_most max_mt_percent) (cell_at cols r "mt_percent") = true.

Global Instance keeps_dec cols a b c r : Decision (keeps cols a b c r).
Proof. unfold keeps. apply _. Defined.

(** The exception is a division by zero, or was raised from one. *)
Fixpoint zero_division (e : exn) : bool :=
  match e with
  | ZeroDivisionError => true
  | IOErrorFrom _ cause => zero_division cause
  | _ => false
  end.

Definition not_zero_division {A} (r : result A) : Prop :=
  ∀ e, r = Err e → zero_division e = false.

(** The same for computations in the world. *)
Definition never_zero_division {A} (m : Py A) : Prop :=
  ∀ w, not_zero_division (fst (m w)).

(** [s.endswith(suf)]. *)
Definition ends_with (suf s : string) : Prop := ∃ pre, s = String.append pre suf.

Definition is_csv (p : Path) : Prop := suffix p = ".csv".

Global Instance is_csv_dec p : Decision (is_csv p).
Proof. unfold is_csv. apply _. Defined.

Definition with_tiles_merged (n : Z) (r : MergeResult) : MergeResult :=
  mkMergeResult (mt_output_file r) n (total_barcodes r) (overlap_regions r) (merge_mode r).

(** The result and the files left behind do not depend on the generator. *)
Definition deterministic {A} (m : Py A) : Prop :=
  ∀ w1 w2, w_fs w1 = w_fs w2 →
    fst (m w1) = fst (m w2) ∧ w_fs (snd (m w1)) = w_fs (snd (m w2)).

(** No region list was given. *)
Definition no_regions (regions : option (list string)) : Prop :=
  regions = None ∨ regions = Some [].

(** The cases in which [split_by_region] draws no label at random. *)
Definition generator_free (data : DataFrame) (regions : option (list string)) : Prop :=
  has_column data "region" = true ∨
  (no_regions regions ∧ has_column data "x_coord" = true).

(** Every row has one cell per column. *)
Definition well_formed (df : DataFrame) : Prop :=
  Forall (fun r => length r = length (columns df)) (rows df).



(** The row of a merged table that carries barcode [b]. *)
Definition lookup_row (df : DataFrame) (key : string) (b : cell) : option (list cell) :=
  head (filter (fun r => cell_at (columns df) r key = b) (rows df)).

(** The value the merged table holds for barcode [b] in column [c]. *)
Definition resolved (df : DataFrame) (b : cell) (c : string) : option cell :=
  if has_column df c
  then (fun r => cell_at (columns df) r c) <$> lookup_row df "barcode" b
  else None.

Definition resolved_in (r : result DataFrame) (b : cell) (c : string) : option cell :=
  match r with
  | Ok df => resolved df b c
  | Err _ => None
  end.

(** The values column [c] takes for barcode [b] across the tiles, in tile
    order. *)
Definition occurrences (dfs : list DataFrame) (key : string) (b : cell) (c : string)
  : list cell :=
  dfs ≫= (fun df => group_values df key b c).

(** The barcodes present in the tiles. *)
Definition key_values (dfs : list DataFrame) (key : string) : list cell :=
  dfs ≫= (fun df => map (fun r => cell_at (columns df) r key) (rows df)).

Definition ok_value {A} (r : result A) : option A :=
  match r with Ok a => Some a | Err _ => None end.

(** A reduction that does not look at the order of its values. *)
Definition order_free (agg : list cell → result cell) : Prop :=
  ∀ s s', s ≡ₚ s' → agg s = agg s'.

(** A reduction whose failure does not depend on the order of its values. *)
Definition failure_order_free (agg : list cell → result cell) : Prop :=
  ∀ s s', s ≡ₚ s' → is_ok (agg s) = is_ok (agg s').

(** The reduction a policy that groups applies to the values of a group. *)
Definition policy_agg (overlap_resolution : string) : list cell → result cell :=
  if String.eqb overlap_resolution "average" then group_mean else series_max.

(** *** Maxima do not depend on the order of the values *)

(** The larger of two values, and the maximum of a list, for an order [le]. *)
Definition max_of {A} (le : A → A → Prop) `{∀ x y, Decision (le x y)} (a b : A) : A :=
  if decide (le a b) then b else a.

Definition is_max {A} (le : A → A → Prop) (m : A) (l : list A) : Prop :=
  m ∈ l ∧ ∀ y, y ∈ l → le y m.

Definition string_le (s t : string) : Prop := String.leb s t = true.

Global Instance string_le_dec : RelDecision string_le.
Proof. intros s t. unfold string_le. apply _. Defined.

(** *** Means in floating point *)

(** A value that the conversion to [float64] leaves as it is. *)
Definition is_double (x : float) : Prop := to_float64 x = x.

(** The mean of the values that are present, in [float64] arithmetic: the
    values are added from left to right and the sum is divided by their
    number; missing when no value is present. *)
Definition mean_of_present (vals : list cell) : cell :=
  match map to_float64 (numbers vals) with
  | [] => NaN
  | ns => of_float (fdiv (foldl fadd (Finite 0) ns) (Finite (Qc_of_nat (length ns))))
  end.

(** ** Example data *)

(** Closed goals about the example data are settled by evaluation. *)
Ltac by_evaluation := apply (bool_decide_unpack _); vm_compute; exact I.

Definition qz (z : Z) : cell := Num (Qc_of_Z z).
Definition fz (z : Z) : float := Finite (Qc_of_Z z).

(** A sum that adds the values from left to right. *)
Definition sum_in_order (l : list float) : float := foldl fadd (Finite 0) l.

Definition example_config (dry_run : bool) : Config :=
  mkConfig ["workspace"; "data"] ["workspace"; "cache"] dry_run.

Definition example_fs (files : list (Path * file)) : FS :=
  mkFS ∅ (list_to_map files).

Definition example_world (files : list (Path * file)) (draws : nat -> N) : World :=
  mkWorld (example_fs files) (mkRS draws 0).

(** Five spots with quality columns and coordinates. *)
Definition qc_table : DataFrame :=
  mkDF ["barcode"; "n_reads"; "n_genes"; "mt_percent"; "x_coord"]
    [[Str "AAAC"; qz 2000; qz 300; qz 5; qz 0];
     [Str "AAAG"; qz 500; qz 300; qz 5; qz 10];
     [Str "AACT"; qz 2000; qz 100; qz 5; qz 20];
     [Str "AAGT"; qz 2000; qz 300; qz 50; qz 30];
     [Str "ACGT"; qz 3000; qz 400; qz 1; qz 40]].

Definition qc_world : World :=
  example_world [(["in"; "spots.csv"], CsvFile qc_table)] (fun _ => 0%N).

(** The quality columns without any spot. *)
Definition empty_table : DataFrame :=
  mkDF ["barcode"; "n_reads"; "n_genes"; "mt_percent"] [].

Definition empty_world : World :=
  example_world [(["in"; "spots.csv"], CsvFile empty_table)] (fun _ => 0%N).

(** Spots without coordinates, without region labels and without
    [n_genes] and [mt_percent]. *)
Definition bare_table : DataFrame :=
  mkDF ["barcode"; "n_reads"]
    [[Str "AAAC"; qz 2000]; [Str "AAAG"; qz 500]; [Str "AACT"; qz 2000]; [Str "AAGT"; qz 2000]].

Definition bare_world : World :=
  example_world [(["in"; "spots.csv"], CsvFile bare_table)] (fun _ => 0%N).

(** Spots with region labels, one of them missing. *)
Definition labelled_table : DataFrame :=
  mkDF ["barcode"; "region"]
    [[Str "AAAC"; Str "tumor"]; [Str "AAAG"; NaN]; [Str "AACT"; Str "tumor"]].

Definition split_example (table : DataFrame) (regions : option (list string))
    (coordinate_file : option Path) (draws : nat -> N) : result SplitResult * World :=
  split_by_region (fun _ => "") (example_config false) ["in"; "spots.csv"] ["out"]
    regions coordinate_file (example_world [(["in"; "spots.csv"], CsvFile table)] draws).

(** A tile of [n] spots [pre<lo>], [pre<lo+1>], ... with read counts from [v]. *)
Definition example_tile (pre : string) (lo n : nat) (v : Z) : DataFrame :=
  mkDF ["barcode"; "n_reads"]
    (map (fun i : nat => [Str (String.append pre (pretty i)); qz (v + Z.of_nat i)]) (seq lo n)).

(** Three tiles of 10, 10 and 5 spots; the first two share three barcodes. *)
Definition tile_1 : DataFrame := example_tile "b" 11 10 100.
Definition tile_2 : DataFrame := example_tile "b" 18 10 300.
Definition tile_3 : DataFrame := example_tile "c" 11 5 0.

Definition three_tiles : list Path :=
  [["in"; "tile_1.csv"]; ["in"; "tile_2.csv"]; ["in"; "tile_3.csv"]].

Definition three_tiles_world : World :=
  example_world [(["in"; "tile_1.csv"], CsvFile tile_1); (["in"; "tile_2.csv"], CsvFile tile_2);
                 (["in"; "tile_3.csv"], CsvFile tile_3)] (fun _ => 0%N).

(** Two tiles and a file that is not a csv file. *)
Definition mixed_tiles : list Path :=
  [["in"; "tile_1.csv"]; ["in"; "notes.txt"]; ["in"; "tile_2.csv"]].

Definition mixed_world : World :=
  example_world [(["in"; "tile_1.csv"], CsvFile tile_1); (["in"; "notes.txt"], OtherFile);
                 (["in"; "tile_2.csv"], CsvFile tile_2)] (fun _ => 0%N).

(** A tile of one spot with barcode [b] and read count [n]. *)
Definition one_spot (b : string) (n : Z) : DataFrame :=
  mkDF ["barcode"; "read_count"] [[Str b; qz n]].

(** The result of a call, when it returned. *)
Definition returned {A} (default : A) (run : result A * World) : A :=
  match fst run with
  | Ok r => r
  | Err _ => default
  end.

Definition filter_example (w : World) : result FilterResult * World :=
  filter_quality sum_in_order (example_config false) ["in"; "spots.csv"] ["out"] 1000 200
    (fz 20) w.

Definition qc_filter_result : FilterResult :=
  Eval vm_compute in returned (filter_dry_run []) (filter_example qc_world).

Definition empty_filter_result : FilterResult :=
  Eval vm_compute in returned (filter_dry_run []) (filter_example empty_world).

Definition qc_split_result : SplitResult :=
  Eval vm_compute in
    returned (mkSplitResult [] 0 (mkRegionStats 0 0 0) None)
      (split_example qc_table None None (fun _ => 0%N)).

(** Spots that all carry a region label. *)
Definition regions_table : DataFrame :=
  mkDF ["barcode"; "region"]
    [[Str "AAAC"; Str "tumor"]; [Str "AAAG"; Str "stroma"]; [Str "AACT"; Str "tumor"]].

Definition regions_split_result : SplitResult :=
  Eval vm_compute in
    returned (mkSplitResult [] 0 (mkRegionStats 0 0 0) None)
      (split_example regions_table None None (fun _ => 0%N)).

(** The first two of the three tiles, merged by averaging. *)
Definition two_tiles : list Path := [["in"; "tile_1.csv"]; ["in"; "tile_2.csv"]].

Definition merge_example (tile_files : list Path) (overlap_resolution : string)
  : result MergeResult * World :=
  merge_tiles (example_config false) tile_files ["out"; "merged.csv"] overlap_resolution
    three_tiles_world.

Definition two_tiles_result : MergeResult :=
  Eval vm_compute in returned (merge_dry_run [] []) (merge_example two_tiles "average").

(** The double nearest to a rational, as a value of a table. *)
Definition double (q : Q) : cell := of_float (round64 (Q2Qc q)).


(** A dry run of the segmentation of the example spots. *)
Definition split_dry_example (draws : nat -> N) : result SplitResult * World :=
  split_by_region (fun _ => "") (example_config true) ["in"; "spots.csv"] ["out"] None None
    (example_world [(["in"; "spots.csv"], CsvFile qc_table)] draws).

(** A tile of one spot with barcode [b] and a value [v] in the column
    [read_count]. *)
Definition one_value (b : string) (v : cell) : DataFrame :=
  mkDF ["barcode"; "read_count"] [[Str b; v]].

(** A tile of one spot with a text attribute next to its read count. *)
Definition one_labelled_spot (b label : string) (n : Z) : DataFrame :=
  mkDF ["barcode"; "region"; "read_count"] [[Str b; Str label; qz n]].

(** The largest double. *)
Definition max_double : Q := inject_Z ((2 ^ 53 - 1) * 2 ^ 971).

(** Three tiles that hold the doubles next to 0.1, 0.3 and 0.7 for one
    barcode. *)
Definition tenth_tiles : list DataFrame :=
  [one_value "X" (double (1 # 10)); one_value "X" (double (3 # 10));
   one_value "X" (double (7 # 10))].

(** Three spots with a mitochondrial percentage of 0.1. *)
Definition tenth_table : DataFrame :=
  mkDF ["barcode"; "n_reads"; "n_genes"; "mt_percent"]
    [[Str "AAAC"; qz 2000; qz 300; double (1 # 10)];
     [Str "AAAG"; qz 2000; qz 300; double (1 # 10)];
     [Str "AACT"; qz 2000; qz 300; double (1 # 10)]].

(** Two tiles without any spot. *)
Definition empty_tiles_world : World :=
  example_world [(["in"; "tile_1.csv"], CsvFile (example_tile "b" 0 0 0));
                 (["in"; "tile_2.csv"], CsvFile (example_tile "c" 0 0 0))] (fun _ => 0%N).

Definition empty_tiles_result : MergeResult :=
  Eval vm_compute in
    returned (merge_dry_run [] [])
      (merge_tiles (example_config false) two_tiles ["out"; "merged.csv"] "average"
         empty_tiles_world).

(** ** Rounding *)

Lemma Qpow2_pos e : (0 < Qpow2 e)%Q.
Proof. apply Qpower_0_lt. reflexivity. Qed.

Lemma Qpow2_add a b : (Qpow2 (a + b) == Qpow2 a * Qpow2 b)%Q.
Proof. apply Qpower_plus. discriminate. Qed.

Lemma Qpow2_lt a b : (a < b)%Z → (Qpow2 a < Qpow2 b)%Q.
Proof. intros H. apply Qpower_lt_compat_l; [exact H | reflexivity]. Qed.

Lemma Qpow2_le a b : (a ≤ b)%Z → (Qpow2 a <= Qpow2 b)%Q.
Proof. intros H. apply Qpower_le_compat_l; [exact H | discriminate]. Qed.

Lemma Qpow2_lt_inv a b : (Qpow2 a < Qpow2 b)%Q → (a < b)%Z.
Proof. intros H. apply (Qpower_lt_compat_l_inv (2 # 1)); [exact H | reflexivity]. Qed.

Lemma Qpow2_inject (a : Z) : (0 ≤ a)%Z → (inject_Z (2 ^ a) == Qpow2 a)%Q.
Proof. intros H. unfold Qpow2. by rewrite Zpower_Qpower. Qed.

(** [floor_log2 x] is the exponent of the power of two at or below [x]. *)
Lemma floor_log2_spec x :
  (0 < x)%Q → (Qpow2 (floor_log2 x) <= x)%Q ∧ (x < Qpow2 (floor_log2 x + 1))%Q.
Proof.
  intros Hx. destruct x as [n d]. unfold floor_log2. cbn [Qnum Qden].
  assert (Hn : (0 < n)%Z).
  { unfold Qlt in Hx. simpl in Hx. lia. }
  set (a := Z.log2 n). set (b := Z.log2 (Z.pos d)).
  destruct (Z.log2_spec n Hn) as [Ha1 Ha2]. fold a in Ha1, Ha2.
  destruct (Z.log2_spec (Z.pos d) eq_refl) as [Hb1 Hb2]. fold b in Hb1, Hb2.
  assert (Ha0 : (0 ≤ a)%Z) by apply Z.log2_nonneg.
  assert (Hb0 : (0 ≤ b)%Z) by apply Z.log2_nonneg.
  assert (Hq : (n # d == inject_Z n / inject_Z (Z.pos d))%Q) by apply Qmake_Qdiv.
  assert (Hd : (0 < inject_Z (Z.pos d))%Q) by reflexivity.
  assert (Hlo : (Qpow2 (a - b - 1) <= n # d)%Q).
  { rewrite Hq. apply Qle_shift_div_l; [exact Hd |].
    apply Qle_trans with (Qpow2 (a - b - 1) * Qpow2 (b + 1))%Q.
    - apply Qmult_le_l; [apply Qpow2_pos |].
      rewrite <- Qpow2_inject by lia. rewrite <- Zle_Qle.
      replace (b + 1)%Z with (Z.succ b) by lia. lia.
    - rewrite <- Qpow2_add. replace (a - b - 1 + (b + 1))%Z with a by lia.
      rewrite <- Qpow2_inject by lia. by rewrite <- Zle_Qle. }
  assert (Hhi : (n # d < Qpow2 (a - b + 1))%Q).
  { rewrite Hq. apply Qlt_shift_div_r; [exact Hd |].
    apply Qlt_le_trans with (Qpow2 (a - b + 1) * Qpow2 b)%Q.
    - rewrite <- Qpow2_add. replace (a - b + 1 + b)%Z with (Z.succ a) by lia.
      rewrite <- Qpow2_inject by lia. by rewrite <- Zlt_Qlt.
    - apply Qmult_le_l; [apply Qpow2_pos |].
      rewrite <- Qpow2_inject by lia. by rewrite <- Zle_Qle. }
  destruct (Qle_bool (Qpow2 (a - b)) (n # d)) eqn:E.
  - apply Qle_bool_iff in E. split; [exact E | exact Hhi].
  - split; [exact Hlo |]. replace (a - b - 1 + 1)%Z with (a - b)%Z by lia.
    apply Qnot_le_lt. intros H. apply Qle_bool_iff in H. congruence.
Qed.

Lemma floor_log2_unique x k :
  (Qpow2 k <= x)%Q → (x < Qpow2 (k + 1))%Q → floor_log2 x = k.
Proof.
  intros H1 H2.
  assert (Hx : (0 < x)%Q) by (eapply Qlt_le_trans; [apply (Qpow2_pos k) | exact H1]).
  destruct (floor_log2_spec x Hx) as [H3 H4].
  assert ((k < floor_log2 x + 1)%Z)
    by (apply Qpow2_lt_inv; eapply Qle_lt_trans; [exact H1 | exact H4]).
  assert ((floor_log2 x < k + 1)%Z)
    by (apply Qpow2_lt_inv; eapply Qle_lt_trans; [exact H3 | exact H2]).
  lia.
Qed.

Lemma floor_log2_comp x y : (0 < x)%Q → (x == y)%Q → floor_log2 x = floor_log2 y.
Proof.
  intros Hx E. destruct (floor_log2_spec x Hx) as [H1 H2]. symmetry.
  apply floor_log2_unique.
  - apply Qle_trans with x; [exact H1 | apply Qle_lteq; by right].
  - apply Qle_lt_trans with x; [apply Qle_lteq; right; by symmetry | exact H2].
Qed.

Lemma round_half_even_comp x y : (x == y)%Q → round_half_even x = round_half_even y.
Proof.
  intros E. unfold round_half_even. rewrite (Qfloor_comp _ _ E).
  assert (H : (x - inject_Z (Qfloor y) == y - inject_Z (Qfloor y))%Q)
    by (unfold Qminus; apply Qplus_comp; [exact E | reflexivity]).
  by rewrite (Qcompare_comp _ _ H _ _ (Qeq_refl _)).
Qed.

Lemma round_half_even_Z (m : Z) : round_half_even (inject_Z m) = m.
Proof.
  unfold round_half_even. rewrite Qfloor_Z.
  replace (inject_Z m - inject_Z m ?= 1 # 2)%Q with Lt; [done |].
  symmetry. apply Qlt_alt. ring_simplify (inject_Z m - inject_Z m)%Q. reflexivity.
Qed.

Lemma round_half_even_ge x (a : Z) : (inject_Z a <= x)%Q → (a ≤ round_half_even x)%Z.
Proof.
  intros H. apply Qfloor_resp_le in H. rewrite Qfloor_Z in H.
  unfold round_half_even. destruct (_ ?= _)%Q; [destruct (Z.even _) | |]; lia.
Qed.

Lemma round_half_even_le x (b : Z) : (x <= inject_Z b)%Q → (round_half_even x ≤ b)%Z.
Proof.
  intros H. pose proof (Qfloor_resp_le _ _ H) as Hf. rewrite Qfloor_Z in Hf.
  unfold round_half_even.
  destruct (decide (Qfloor x = b)) as [E | E].
  - replace (x - inject_Z (Qfloor x) ?= 1 # 2)%Q with Lt; [lia |].
    symmetry. apply Qlt_alt. rewrite E.
    apply Qle_lt_trans with (inject_Z b - inject_Z b)%Q.
    + apply Qplus_le_l. exact H.
    + ring_simplify (inject_Z b - inject_Z b)%Q. reflexivity.
  - destruct (_ ?= _)%Q; [destruct (Z.even _) | |]; lia.
Qed.

Lemma Qdiv_pow2 x a b : (x * Qpow2 a / Qpow2 b == x * Qpow2 (a - b))%Q.
Proof.
  replace a with (a - b + b)%Z at 1 by lia. rewrite Qpow2_add.
  field. apply Qnot_eq_sym, Qlt_not_eq, Qpow2_pos.
Qed.

Lemma round_pos_out x y :
  (0 < x)%Q → round_pos x = Some y →
  ∃ m e, representable m e ∧ y = (inject_Z m * Qpow2 e)%Q.
Proof.
  intros Hx. unfold round_pos.
  destruct (floor_log2_spec x Hx) as [H1 H2].
  set (k := floor_log2 x) in *. set (e := Z.max (k - 52) (-1074)).
  set (m := round_half_even (x / Qpow2 e)).
  destruct (_ || _) eqn:Hov; [discriminate |]. intros [= <-].
  apply orb_false_iff in Hov as [Hov1 Hov2]. apply Z.ltb_ge in Hov1.
  exists m, e. split; [| done].
  assert (Hm0 : (0 ≤ m)%Z).
  { apply round_half_even_ge. apply Qle_shift_div_l; [apply Qpow2_pos |].
    rewrite Qmult_0_l. by apply Qlt_le_weak. }
  assert (Hm1 : (m ≤ 2 ^ 53)%Z).
  { apply round_half_even_le. apply Qle_shift_div_r; [apply Qpow2_pos |].
    rewrite Qpow2_inject by lia. rewrite <- Qpow2_add.
    apply Qlt_le_weak. eapply Qlt_le_trans; [exact H2 |]. apply Qpow2_le. lia. }
  split_and!; [done | done | lia | lia | |].
  - destruct (decide (e = (-1074)%Z)) as [E | E]; [by right | left].
    apply round_half_even_ge. apply Qle_shift_div_l; [apply Qpow2_pos |].
    rewrite Qpow2_inject by lia. rewrite <- Qpow2_add.
    eapply Qle_trans; [| exact H1]. apply Qpow2_le. lia.
  - intros [E1 E2]. rewrite E1, E2 in Hov2. by vm_compute in Hov2.
Qed.

Lemma round_pos_exact z m e :
  representable m e → (0 < m)%Z → (z == inject_Z m * Qpow2 e)%Q →
  ∃ w, round_pos z = Some w ∧ (w == z)%Q.
Proof.
  intros ([Hm0 Hm1] & [He0 He1] & Hnorm & Hov) Hm Hz.
  destruct (Z.log2_spec m Hm) as [Hj1 Hj2]. set (j := Z.log2 m) in *.
  assert (Hj0 : (0 ≤ j)%Z) by apply Z.log2_nonneg.
  assert (Hj53 : (j ≤ 53)%Z).
  { destruct (decide (j ≤ 53)%Z); [done |]. exfalso.
    assert (2 ^ 54 ≤ 2 ^ j)%Z by (apply Z.pow_le_mono_r; lia). lia. }
  assert (Hk : floor_log2 z = (j + e)%Z).
  { apply floor_log2_unique.
    - apply Qle_trans with (inject_Z m * Qpow2 e)%Q; [| apply Qle_lteq; right; by symmetry].
      rewrite Qpow2_add. apply Qmult_le_compat_r; [| apply Qlt_le_weak, Qpow2_pos].
      rewrite <- Qpow2_inject by lia. by rewrite <- Zle_Qle.
    - apply Qle_lt_trans with (inject_Z m * Qpow2 e)%Q; [apply Qle_lteq; by right |].
      replace (j + e + 1)%Z with (Z.succ j + e)%Z by lia. rewrite Qpow2_add.
      apply Qmult_lt_compat_r; [apply Qpow2_pos |].
      rewrite <- Qpow2_inject by lia. by rewrite <- Zlt_Qlt. }
  unfold round_pos. rewrite Hk.
  destruct (decide (j = 53%Z)) as [E53 | N53].
  - (* the significand is 2^53: one exponent up *)
    assert (Em : m = (2 ^ 53)%Z) by (rewrite E53 in Hj1; lia).
    assert (He970 : (e ≤ 970)%Z) by (destruct (decide (e = 971%Z)); [by destruct Hov | lia]).
    replace (Z.max (j + e - 52) (-1074)) with (e + 1)%Z by lia.
    assert (R : round_half_even (z / Qpow2 (e + 1)) = (2 ^ 52)%Z).
    { rewrite <- (round_half_even_Z (2 ^ 52)). apply round_half_even_comp.
      apply Qeq_trans with (inject_Z m * Qpow2 e / Qpow2 (e + 1))%Q.
      - unfold Qdiv. apply Qmult_comp; [exact Hz | reflexivity].
      - rewrite Qdiv_pow2. replace (e - (e + 1))%Z with (-1)%Z by lia. rewrite Em.
        reflexivity. }
    rewrite R.
    replace ((971 <? e + 1)%Z || ((e + 1 =? 971)%Z && (2 ^ 52 =? 2 ^ 53)%Z)) with false.
    2:{ symmetry. apply orb_false_iff. split; [apply Z.ltb_ge; lia |].
        apply andb_false_iff. by right. }
    eexists. split; [done |].
    apply Qeq_trans with (inject_Z m * Qpow2 e)%Q; [| by symmetry].
    assert (E2 : (inject_Z (2 ^ 53) == inject_Z (2 ^ 52) * Qpow2 1)%Q) by (by vm_compute).
    rewrite Qpow2_add, Em, E2. ring.
  - (* the significand stays *)
    replace (Z.max (j + e - 52) (-1074)) with e by (destruct Hnorm as [H | H]; [| lia];
      assert (52 ≤ j)%Z by (destruct (decide (52 ≤ j)%Z); [done | exfalso;
        assert (2 ^ (j + 1) ≤ 2 ^ 52)%Z by (apply Z.pow_le_mono_r; lia);
        replace (j + 1)%Z with (Z.succ j) in * by lia; lia]); lia).
    assert (R : round_half_even (z / Qpow2 e) = m).
    { transitivity (round_half_even (inject_Z m)); [| apply round_half_even_Z].
      apply round_half_even_comp.
      apply Qeq_trans with (inject_Z m * Qpow2 e / Qpow2 e)%Q.
      - unfold Qdiv. apply Qmult_comp; [exact Hz | reflexivity].
      - apply Qdiv_mult_l. apply Qnot_eq_sym, Qlt_not_eq, Qpow2_pos. }
    rewrite R.
    replace ((971 <? e)%Z || ((e =? 971)%Z && (m =? 2 ^ 53)%Z)) with false.
    2:{ symmetry. apply orb_false_iff. split; [apply Z.ltb_ge; lia |].
        apply andb_false_iff. destruct (decide (e = 971%Z)) as [E | E].
        - right. apply Z.eqb_neq. intros E'. by apply Hov.
        - left. by apply Z.eqb_neq. }
    eexists. split; [done | by symmetry].
Qed.

(** A rounded value is a double: rounding it again changes nothing. *)
Lemma round64_idempotent q q' : round64 q = Finite q' → round64 q' = Finite q'.
Proof.
  assert (Hpos : ∀ x y, (0 < x)%Q → round_pos x = Some y →
                        round64 (Q2Qc y) = Finite (Q2Qc y) ∧
                        round64 (- Q2Qc y) = Finite (- Q2Qc y)).
  { intros x y Hx Hy. destruct (round_pos_out x y Hx Hy) as (m & e & Hrep & ->).
    destruct (decide (m = 0%Z)) as [-> | Hm].
    - assert (E : Q2Qc (inject_Z 0 * Qpow2 e) = 0%Qc)
        by (apply Q2Qc_eq_iff, Qmult_0_l).
      rewrite E. by vm_compute.
    - assert (Hm' : (0 < m)%Z) by (destruct Hrep as ([? ?] & _); lia).
      set (y := (inject_Z m * Qpow2 e)%Q).
      assert (Hy0 : (0 < y)%Q).
      { apply Qmult_lt_0_compat; [| apply Qpow2_pos]. by rewrite <- (Zlt_Qlt 0). }
      assert (Hred : (Qred y == y)%Q) by apply Qred_correct.
      split.
      + unfold round64. cbn [Q2Qc Qcanon.this].
        replace (Qred y ?= 0)%Q with Gt
          by (symmetry; apply Qgt_alt; eapply Qlt_le_trans;
              [exact Hy0 | apply Qle_lteq; right; by symmetry]).
        destruct (round_pos_exact (Qred y) m e Hrep Hm' Hred) as (w & -> & Hw).
        cbn [from_option]. f_equal. apply Q2Qc_eq_iff.
        apply Qeq_trans with (Qred y); [exact Hw | exact Hred].
      + unfold round64. cbn [Q2Qc Qcanon.this Qcopp].
        assert (Hneg : (Qred (- Qred y) == - y)%Q) by (by rewrite Qred_correct, Hred).
        replace (Qred (- Qred y) ?= 0)%Q with Lt.
        2:{ symmetry. apply Qlt_alt. eapply Qle_lt_trans; [apply Qle_lteq; right; exact Hneg |].
            apply Qopp_lt_compat in Hy0. exact Hy0. }
        assert (Hback : (- Qred (- Qred y) == inject_Z m * Qpow2 e)%Q).
        { rewrite Hneg. fold y. ring. }
        destruct (round_pos_exact _ m e Hrep Hm' Hback) as (w & -> & Hw).
        cbn [from_option]. do 2 f_equal. apply Q2Qc_eq_iff.
        apply Qeq_trans with (- Qred (- Qred y))%Q; [exact Hw | exact Hback]. }
  unfold round64. destruct (Qcanon.this q ?= 0)%Q eqn:Hc.
  - intros [= <-]. by vm_compute.
  - apply Qlt_alt in Hc.
    destruct (round_pos (- Qcanon.this q)) as [y |] eqn:Hy; simpl; [| discriminate].
    intros [= <-]. apply (Hpos (- Qcanon.this q)%Q y); [| exact Hy].
    apply Qopp_lt_compat in Hc. exact Hc.
  - apply Qgt_alt in Hc.
    destruct (round_pos (Qcanon.this q)) as [y |] eqn:Hy; simpl; [| discriminate].
    intros [= <-]. by apply (Hpos (Qcanon.this q) y).
Qed.

(** ** Dry runs *)

Lemma fs_grows_refl fs : fs_grows fs fs.
Proof. split; [done | set_solver]. Qed.

Lemma fs_grows_trans a b c : fs_grows a b → fs_grows b c → fs_grows a c.
Proof. intros [? ?] [? ?]. split; [congruence | set_solver]. Qed.

Lemma bind_ok {A B} (m : Py A) (k : A → Py B) w b w' :
  bind m k w = (Ok b, w') → ∃ a w1, m w = (Ok a, w1) ∧ k a w1 = (Ok b, w').
Proof.
  unfold bind. destruct (m w) as [[a | e] w1]; [eauto | discriminate].
Qed.

Lemma only_mkdir_bind {A B} (m : Py A) (k : A → Py B) :
  only_mkdir m → (∀ a, only_mkdir (k a)) → only_mkdir (bind m k).
Proof.
  intros Hm Hk w. unfold bind. specialize (Hm w).
  destruct (m w) as [[a | e] w1]; simpl in *; [| done].
  eapply fs_grows_trans; [exact Hm | apply Hk].
Qed.

Lemma only_mkdir_ret {A} (a : A) : only_mkdir (ret a).
Proof. intros w. apply fs_grows_refl. Qed.

Lemma only_mkdir_raise {A} e : only_mkdir (@raise A e).
Proof. intros w. apply fs_grows_refl. Qed.

Lemma only_mkdir_lift {A} (r : result A) : only_mkdir (lift r).
Proof. intros w. apply fs_grows_refl. Qed.

Lemma only_mkdir_fs_read {A} (f : FS → A) : only_mkdir (fs_read f).
Proof. intros w. apply fs_grows_refl. Qed.

Lemma only_mkdir_draw {A} (f : RandomState → A * RandomState) : only_mkdir (draw f).
Proof. intros w. unfold draw. destruct (f (w_rng w)). apply fs_grows_refl. Qed.

Lemma only_mkdir_mkdir_parents p : only_mkdir (fs_update (mkdir_parents p)).
Proof.
  intros w. unfold fs_update, mkdir_parents.
  destruct (under_a_file _ _); [apply fs_grows_refl |].
  destruct (is_file _ _); [apply fs_grows_refl |].
  split; simpl; [done | set_solver].
Qed.

Lemma only_mkdir_mkdir p : only_mkdir (fs_update (mkdir p)).
Proof.
  intros w. unfold fs_update, mkdir.
  destruct (under_a_file _ _); [apply fs_grows_refl |].
  destruct (is_dir _ p); [apply fs_grows_refl |].
  destruct (is_file _ _); [apply fs_grows_refl |].
  destruct (is_dir _ _); [| apply fs_grows_refl].
  split; simpl; [done | set_solver].
Qed.

Lemma only_mkdir_ensure_directories cfg : only_mkdir (_ensure_directories cfg).
Proof.
  unfold _ensure_directories.
  repeat (apply only_mkdir_bind; [| intros _]);
    auto using only_mkdir_mkdir_parents, only_mkdir_mkdir.
Qed.

Lemma only_mkdir_mock_region_files output_path names :
  only_mkdir (mock_region_files output_path names).
Proof.
  induction names as [| n names IH]; simpl; [apply only_mkdir_ret |].
  apply only_mkdir_bind; [apply only_mkdir_draw | intros z].
  apply only_mkdir_bind; [exact IH | intros rest]. apply only_mkdir_ret.
Qed.

Lemma filter_dry_run_frame np_sum cfg input_file output_dir min_reads min_genes max_mt :
  DRY_RUN cfg = true →
  only_mkdir (filter_quality np_sum cfg input_file output_dir min_reads min_genes max_mt).
Proof.
  intros Hdry. unfold filter_quality. rewrite Hdry.
  apply only_mkdir_bind; [apply only_mkdir_ensure_directories | intros _].
  apply only_mkdir_bind; [apply only_mkdir_fs_read | intros found].
  destruct (negb found); [apply only_mkdir_raise |].
  case_match; [apply only_mkdir_raise |].
  apply only_mkdir_bind; [apply only_mkdir_mkdir_parents | intros _].
  apply only_mkdir_ret.
Qed.

Lemma split_dry_run_frame str cfg input_file output_dir regions coordinate_file :
  DRY_RUN cfg = true →
  only_mkdir (split_by_region str cfg input_file output_dir regions coordinate_file).
Proof.
  intros Hdry. unfold split_by_region. rewrite Hdry.
  apply only_mkdir_bind; [apply only_mkdir_ensure_directories | intros _].
  apply only_mkdir_bind; [apply only_mkdir_fs_read | intros found].
  destruct (negb found); [apply only_mkdir_raise |].
  apply only_mkdir_bind; [apply only_mkdir_mkdir_parents | intros _].
  apply only_mkdir_bind; [apply only_mkdir_mock_region_files | intros files].
  apply only_mkdir_ret.
Qed.

Lemma merge_dry_run_frame cfg tile_files output_file overlap_resolution :
  DRY_RUN cfg = true →
  only_mkdir (merge_tiles cfg tile_files output_file overlap_resolution).
Proof.
  intros Hdry. unfold merge_tiles. rewrite Hdry.
  apply only_mkdir_bind; [apply only_mkdir_ensure_directories | intros _].
  case_match; [apply only_mkdir_raise |].
  case_match; [apply only_mkdir_raise |].
  apply only_mkdir_bind; [apply only_mkdir_fs_read | intros found].
  destruct (negb found); [apply only_mkdir_raise |].
  apply only_mkdir_bind; [apply only_mkdir_mkdir_parents | intros _].
  apply only_mkdir_ret.
Qed.

Lemma path_exists_grows fs fs' p :
  fs_grows fs fs' → path_exists fs p = true → path_exists fs' p = true.
Proof.
  intros [Hf Hd]. unfold path_exists, is_dir, is_file. rewrite Hf.
  rewrite !orb_true_iff, !bool_decide_eq_true.
  intros [[-> | Hin] | Hfile]; [by left; left | left; right; by apply Hd | by right].
Qed.

Lemma thresholds_check min_reads min_genes max_mt :
  valid_thresholds min_reads min_genes max_mt →
  bool_decide (min_reads < 0)%Z || bool_decide (min_genes < 0)%Z
  || float_lt max_mt (Finite 0) || float_lt (Finite (Qc_of_Z 100)) max_mt = false.
Proof.
  intros (H1 & H2 & H3 & H4).
  rewrite !orb_false_iff, !bool_decide_eq_false. repeat split; try lia; done.
Qed.

Lemma thresholds_check_inv min_reads min_genes max_mt :
  bool_decide (min_reads < 0)%Z || bool_decide (min_genes < 0)%Z
  || float_lt max_mt (Finite 0) || float_lt (Finite (Qc_of_Z 100)) max_mt = false →
  valid_thresholds min_reads min_genes max_mt.
Proof.
  rewrite !orb_false_iff, !bool_decide_eq_false. intros [[[H1 H2] H3] H4].
  repeat split; try lia; done.
Qed.

Lemma fs_update_ok f w w' :
  fs_update f w = (Ok tt, w') ↔ ∃ fs', f (w_fs w) = Ok fs' ∧ w' = mkWorld fs' (w_rng w).
Proof.
  unfold fs_update. destruct (f (w_fs w)) as [fs' | e]; split.
  - intros [= <-]. eauto.
  - intros (fs'' & Hfs & ->). by injection Hfs as ->.
  - discriminate.
  - intros (fs'' & Hfs & _). discriminate.
Qed.

Lemma filter_quality_dry_run np_sum cfg w input_file output_dir min_reads min_genes max_mt :
  DRY_RUN cfg = true →
  let run := filter_quality np_sum cfg input_file output_dir min_reads min_genes max_mt w in
  fs_grows (w_fs w) (w_fs (snd run)) ∧
  (∀ r, fst run = Ok r → r = filter_dry_run (filter_output_path input_file output_dir)) ∧
  (prelude_ok cfg w (path_parent (filter_output_path input_file output_dir)) →
   path_exists (w_fs w) input_file = true →
   valid_thresholds min_reads min_genes max_mt →
   fst run = Ok (filter_dry_run (filter_output_path input_file output_dir))).
Proof.
  intros Hdry run. split; [apply filter_dry_run_frame, Hdry |].
  subst run. unfold filter_quality, filter_output_path. rewrite Hdry. split.
  - intros r. unfold bind at 1. destruct (_ensure_directories cfg w) as [[[] | e] w1]; [| done].
    unfold bind at 1, fs_read at 1. simpl.
    destruct (negb _); [done |]. destruct (_ || _); [done |].
    unfold bind, fs_update. destruct (mkdir_parents _ _); simpl; [| done].
    by intros [= <-].
  - intros (w1 & Hens & Hmk) Hex Hval.
    unfold bind at 1. rewrite Hens.
    unfold bind at 1, fs_read at 1. simpl.
    assert (path_exists (w_fs w1) input_file = true) as ->.
    { eapply path_exists_grows; [| exact Hex].
      pose proof (only_mkdir_ensure_directories cfg w) as H. by rewrite Hens in H. }
    simpl. rewrite (thresholds_check _ _ _ Hval).
    unfold bind, fs_update. destruct (mkdir_parents _ _); [done | discriminate].
Qed.

Lemma mock_region_files_ok output_path names w :
  ∃ files w', mock_region_files output_path names w = (Ok files, w') ∧
    map region_name files = names ∧
    map region_file files
    = map (fun n => path_join output_path (String.append n ".csv")) names ∧
    Forall (fun f => (5000 ≤ barcode_count f < 15000)%Z) files.
Proof.
  revert w. induction names as [| n names IH]; intros w; simpl.
  - exists [], w. by repeat split.
  - unfold bind at 1, draw, randint. simpl.
    set (w1 := mkWorld _ _).
    destruct (IH w1) as (files & w' & Hrun & Hn & Hf & Hc).
    unfold bind, ret. rewrite Hrun. eexists _, _. split; [reflexivity |]. simpl.
    rewrite Hn, Hf. repeat split. constructor; [| done]. simpl.
    pose proof (Z.mod_pos_bound (Z.of_N (rs_draws (w_rng w) (rs_pos (w_rng w) + 0)%nat))
                  (15000 - 5000)%Z). lia.
Qed.

Lemma split_by_region_dry_run str cfg w input_file output_dir regions coordinate_file :
  DRY_RUN cfg = true →
  let run := split_by_region str cfg input_file output_dir regions coordinate_file w in
  fs_grows (w_fs w) (w_fs (snd run)) ∧
  (∀ r, fst run = Ok r → split_placeholder output_dir regions r) ∧
  (prelude_ok cfg w output_dir →
   path_exists (w_fs w) input_file = true →
   ∃ r, fst run = Ok r).
Proof.
  intros Hdry run. split; [apply split_dry_run_frame, Hdry |].
  subst run. unfold split_by_region. rewrite Hdry. split.
  - intros r. unfold bind at 1. destruct (_ensure_directories cfg w) as [[[] | e] w1]; [| done].
    unfold bind at 1, fs_read at 1. simpl.
    destruct (negb _); [done |].
    unfold bind at 1, fs_update. destruct (mkdir_parents _ _); simpl; [| done].
    set (w2 := mkWorld _ _).
    destruct (mock_region_files_ok output_dir (mock_regions regions) w2)
      as (files & w' & Hrun & Hn & Hf & Hc).
    unfold bind, ret. rewrite Hrun. simpl. intros [= <-]. by repeat split.
  - intros (w1 & Hens & Hmk) Hex.
    unfold bind at 1. rewrite Hens.
    unfold bind at 1, fs_read at 1. simpl.
    assert (path_exists (w_fs w1) input_file = true) as ->.
    { eapply path_exists_grows; [| exact Hex].
      pose proof (only_mkdir_ensure_directories cfg w) as H. by rewrite Hens in H. }
    simpl. unfold bind at 1, fs_update.
    destruct (mkdir_parents _ _); [| discriminate]. simpl.
    set (w2 := mkWorld _ _).
    destruct (mock_region_files_ok output_dir (mock_regions regions) w2)
      as (files & w' & Hrun & _).
    unfold bind, ret. rewrite Hrun. simpl. eauto.
Qed.

Lemma merge_tiles_dry_run cfg w tile_files output_file overlap_resolution :
  DRY_RUN cfg = true →
  let run := merge_tiles cfg tile_files output_file overlap_resolution w in
  fs_grows (w_fs w) (w_fs (snd run)) ∧
  (∀ r, fst run = Ok r → r = merge_dry_run output_file tile_files) ∧
  (prelude_ok cfg w (path_parent output_file) →
   tile_files ≠ [] →
   overlap_resolution ∈ ["average"; "max"; "first"] →
   Forall (fun p => path_exists (w_fs w) p = true) tile_files →
   fst run = Ok (merge_dry_run output_file tile_files)).
Proof.
  intros Hdry run. split; [apply merge_dry_run_frame, Hdry |].
  subst run. unfold merge_tiles. rewrite Hdry. split.
  - intros r. unfold bind at 1. destruct (_ensure_directories cfg w) as [[[] | e] w1]; [| done].
    destruct (bool_decide (tile_files = [])); [done |].
    destruct (negb (bool_decide _)); [done |].
    unfold bind at 1, fs_read at 1. simpl.
    destruct (negb _); [done |].
    unfold bind, fs_update. destruct (mkdir_parents _ _); simpl; [| done].
    by intros [= <-].
  - intros (w1 & Hens & Hmk) Hne Hpol Hex.
    unfold bind at 1. rewrite Hens.
    rewrite (bool_decide_eq_false_2 _ Hne), (bool_decide_eq_true_2 _ Hpol). simpl.
    unfold bind at 1, fs_read at 1. simpl.
    assert (forallb (path_exists (w_fs w1)) tile_files = true) as ->.
    { apply forallb_forall. intros p Hp. rewrite Forall_forall in Hex.
      eapply path_exists_grows; [| apply Hex, list_elem_of_In, Hp].
      pose proof (only_mkdir_ensure_directories cfg w) as H. by rewrite Hens in H. }
    simpl. unfold bind, fs_update. destruct (mkdir_parents _ _); [done | discriminate].
Qed.

(** Claim C4, as amended. With the dry-run switch on, [filter_quality],
    [split_by_region] and [merge_tiles] write no file: the files after the
    call are the files before it, and directories are only added (the data
    and cache directories and the output directory are made before the
    switch is looked at). A call that returns returns the placeholder
    statistics, and it returns whenever the directories can be made, the
    input exists and the parameters pass the checks. *)
Theorem dry_run_writes_no_file cfg w :
  DRY_RUN cfg = true →
  (∀ np_sum input_file output_dir min_reads min_genes max_mt_percent,
     let run := filter_quality np_sum cfg input_file output_dir min_reads min_genes
                  max_mt_percent w in
     fs_grows (w_fs w) (w_fs (snd run)) ∧
     (∀ r, fst run = Ok r → r = filter_dry_run (filter_output_path input_file output_dir)) ∧
     (prelude_ok cfg w (path_parent (filter_output_path input_file output_dir)) →
      path_exists (w_fs w) input_file = true →
      valid_thresholds min_reads min_genes max_mt_percent →
      fst run = Ok (filter_dry_run (filter_output_path input_file output_dir)))) ∧
  (∀ str input_file output_dir regions coordinate_file,
     let run := split_by_region str cfg input_file output_dir regions coordinate_file w in
     fs_grows (w_fs w) (w_fs (snd run)) ∧
     (∀ r, fst run = Ok r → split_placeholder output_dir regions r) ∧
     (prelude_ok cfg w output_dir →
      path_exists (w_fs w) input_file = true →
      ∃ r, fst run = Ok r)) ∧
  (∀ tile_files output_file overlap_resolution,
     let run := merge_tiles cfg tile_files output_file overlap_resolution w in
     fs_grows (w_fs w) (w_fs (snd run)) ∧
     (∀ r, fst run = Ok r → r = merge_dry_run output_file tile_files) ∧
     (prelude_ok cfg w (path_parent output_file) →
      tile_files ≠ [] →
      overlap_resolution ∈ ["average"; "max"; "first"] →
      Forall (fun p => path_exists (w_fs w) p = true) tile_files →
      fst run = Ok (merge_dry_run output_file tile_files))).
Proof.
  intros Hdry. split_and!.
  - intros. by apply filter_quality_dry_run.
  - intros. by apply split_by_region_dry_run.
  - intros. by apply merge_tiles_dry_run.
Qed.

(** A dry run of the filter on the example spots returns the placeholder
    and leaves the files alone. *)
Lemma dry_run_writes_no_file_witness :
  DRY_RUN (example_config true) = true ∧
  let run := filter_quality sum_in_order (example_config true) ["in"; "spots.csv"] ["out"]
               1000 200 (fz 20) qc_world in
  fst run = Ok (filter_dry_run ["out"; "spots_filtered.csv"]) ∧
  fs_files (w_fs (snd run)) = fs_files (w_fs qc_world).
Proof.
  split; [reflexivity |].
  destruct (dry_run_writes_no_file (example_config true) qc_world eq_refl) as (Hfilter & _ & _).
  destruct (Hfilter sum_in_order ["in"; "spots.csv"] ["out"] 1000%Z 200%Z (fz 20))
    as ([Hfiles _] & _ & Hreturns).
  split; [| exact Hfiles].
  apply Hreturns.
  - eexists. split; vm_compute; reflexivity.
  - vm_compute. reflexivity.
  - unfold valid_thresholds. split_and!; by_evaluation.
Defined.

(** Claim C4 fails as stated: the dry run of a filter makes directories
    that were not there before, so the file system after the call is not
    the one before it. *)
Lemma dry_run_creates_directories :
  DRY_RUN (example_config true) = true ∧
  w_fs (snd (filter_quality sum_in_order (example_config true) ["in"; "spots.csv"] ["out"]
               1000 200 (fz 20) qc_world)) ≠ w_fs qc_world.
Proof.
  split; [reflexivity |]. intros H.
  assert (["workspace"; "data"] ∈ fs_dirs (w_fs qc_world)) as Hin.
  { rewrite <- H. by_evaluation. }
  revert Hin. by_evaluation.
Qed.

(** ** Filtering *)

Lemma mapM_ok {A B} (f : A → result B) l ys :
  mapM f l = Ok ys ↔ Forall2 (fun x y => f x = Ok y) l ys.
Proof.
  revert ys. induction l as [| x l IH]; intros ys; simpl.
  - split; [intros [= <-]; constructor | by inversion 1].
  - destruct (f x) as [y |] eqn:Ex; simpl.
    + destruct (mapM f l) as [ys' |] eqn:El; simpl.
      * split.
        -- intros [= <-]. constructor; [done | by apply IH].
        -- inversion 1 as [| ? y' ? ys'' Hy Hys]; subst.
           apply IH in Hys. congruence.
      * split; [discriminate |].
        inversion 1 as [| ? y' ? ys'' Hy Hys]; subst. by apply IH in Hys.
    + split; [discriminate |]. inversion 1; congruence.
Qed.

Lemma mapM_err {A B} (f : A → result B) l e :
  mapM f l = Err e → ∃ x, x ∈ l ∧ f x = Err e.
Proof.
  induction l as [| x l IH]; simpl; [discriminate |].
  destruct (f x) as [y |] eqn:Ex; simpl.
  - destruct (mapM f l) as [ys' |] eqn:El; simpl; [discriminate |].
    intros [= <-]. destruct IH as (x' & ? & ?); [done |]. exists x'. split; [by right | done].
  - intros [= <-]. exists x. split; [by left | done].
Qed.

Lemma mapM_total {A B} (f : A → result B) (g : A → B) l :
  Forall (fun x => f x = Ok (g x)) l → mapM f l = Ok (map g l).
Proof.
  induction 1 as [| x l Hx _ IH]; simpl; [done |]. by rewrite Hx, IH.
Qed.

Lemma compare_series_ok op s mask :
  compare_series op s = Ok mask → mask = map (passes op) s.
Proof.
  unfold compare_series. rewrite mapM_ok.
  induction 1 as [| v m s ms Hv _ IH]; simpl; [done |].
  rewrite IH. f_equal. destruct v; unfold passes; simpl in *; congruence.
Qed.

Lemma compare_series_err op s e :
  compare_series op s = Err e → ∃ msg, e = TypeError msg.
Proof.
  intros H. apply mapM_err in H as (v & _ & Hv).
  destruct v; try discriminate. injection Hv as <-. eauto.
Qed.


Lemma filter_all {A} (P : A → Prop) `{∀ x, Decision (P x)} (l : list A) :
  Forall P l → filter P l = l.
Proof.
  induction 1 as [| x l Hx _ IH]; [done |].
  rewrite filter_cons. by rewrite decide_True, IH.
Qed.

Lemma getitem_mask_map df (f : list cell → bool) :
  getitem_mask df (map f (rows df))
  = mkDF (columns df) (filter (fun r => f r = true) (rows df)).
Proof.
  unfold getitem_mask. f_equal.
  induction (rows df) as [| r rs IH]; simpl; [done |].
  rewrite !filter_cons. simpl.
  destruct (decide (f r = true)); simpl; [f_equal |]; exact IH.
Qed.

Lemma filter_by_ok df c op b df' :
  filter_by df c op b = Ok df' →
  c ∈ columns df ∧
  df' = mkDF (columns df)
          (filter (fun r => passes op (cell_at (columns df) r c) = true) (rows df)).
Proof.
  unfold filter_by, df_get, has_column. case_bool_decide as Hc; [| discriminate].
  destruct (compare_series _ _) as [mask |] eqn:E; simpl; [| discriminate].
  intros [= <-]. split; [done |].
  apply compare_series_ok in E. subst mask. rewrite map_map.
  apply (getitem_mask_map df (fun r => passes op (cell_at (columns df) r c))).
Qed.

Lemma filter_by_err df c op b e :
  filter_by df c op b = Err e →
  ((c ∉ columns df) ∧ e = KeyError (if b then "True" else "False")) ∨ (∃ msg, e = TypeError msg).
Proof.
  unfold filter_by, df_get, has_column. case_bool_decide as Hc.
  - destruct (compare_series _ _) as [mask |] eqn:E; simpl; [discriminate |].
    intros [= <-]. right. by eapply compare_series_err.
  - intros [= <-]. by left.
Qed.


Lemma apply_filters_ok data a b c out :
  apply_filters data a b c = Ok out →
  (∀ q, q ∈ ["n_reads"; "n_genes"; "mt_percent"] → q ∈ columns data) ∧
  out = mkDF (columns data) (filter (keeps (columns data) a b c) (rows data)).
Proof.
  unfold apply_filters.
  destruct (filter_by data "n_reads" _ _) as [d1 |] eqn:E1; simpl; [| discriminate].
  destruct (filter_by d1 "n_genes" _ _) as [d2 |] eqn:E2; simpl; [| discriminate].
  intros E3.
  apply filter_by_ok in E1 as [H1 ->]. apply filter_by_ok in E2 as [H2 ->].
  apply filter_by_ok in E3 as [H3 ->]. simpl in *. split.
  - intros q Hq. rewrite !elem_of_cons in Hq.
    destruct Hq as [-> | [-> | [-> | Hq]]]; [done .. | by apply elem_of_nil in Hq].
  - f_equal. rewrite !list_filter_filter. apply list_filter_iff.
    intros r. unfold keeps. tauto.
Qed.



Lemma apply_filters_missing data a b c q :
  q ∈ ["n_reads"; "n_genes"; "mt_percent"] → q ∉ columns data →
  ∃ e, apply_filters data a b c = Err e ∧
       ((∃ t : bool, e = KeyError (if t then "True" else "False")) ∨
        (∃ msg, e = TypeError msg)).
Proof.
  intros Hq Hmiss.
  destruct (apply_filters data a b c) as [out | e] eqn:E.
  - apply apply_filters_ok in E as [Hcols _]. by destruct Hmiss; apply Hcols.
  - exists e. split; [done |]. revert E. unfold apply_filters.
    destruct (filter_by data "n_reads" _ _) as [d1 |] eqn:E1; simpl.
    + destruct (filter_by d1 "n_genes" _ _) as [d2 |] eqn:E2; simpl.
      * intros E3. apply filter_by_err in E3 as [[_ ->] | ?]; eauto.
      * intros [= <-]. apply filter_by_err in E2 as [[_ ->] | ?]; eauto.
    + intros [= <-]. apply filter_by_err in E1 as [[_ ->] | ?]; eauto.
Qed.

Lemma Qc_ratio_unit_interval (a b : Z) :
  (0 ≤ a ≤ b)%Z → (0 < b)%Z → (0 ≤ Qc_of_Z a / Qc_of_Z b)%Qc ∧ (Qc_of_Z a / Qc_of_Z b ≤ 1)%Qc.
Proof.
  intros [Ha Hab] Hb.
  apply Z2Qc_inj_le in Ha, Hab. apply Z2Qc_inj_lt in Hb.
  rewrite Z2Qc_inj_0 in Ha, Hb.
  pose proof (Qcinv_pos _ Hb) as Hinv. unfold Qcdiv. split.
  - apply Qcmult_nonneg_nonneg; [done | by apply Qclt_le_weak].
  - rewrite <- (Qcmult_inv_r (Qc_of_Z b)).
    + apply Qcmult_le_compat_r; [done | by apply Qclt_le_weak].
    + intros E. rewrite E in Hb. by apply Qclt_not_le in Hb.
Qed.

Lemma py_div_ok a b q : py_div a b = Ok q → b ≠ 0%Qc ∧ q = (a / b)%Qc.
Proof. unfold py_div. case_decide; [discriminate |]. by intros [= <-]. Qed.

Lemma read_input_ok input_path w data w' :
  read_input input_path w = (Ok data, w') →
  w' = w ∧ suffix input_path = ".csv" ∧ fs_files (w_fs w) !! input_path = Some (CsvFile data).
Proof.
  unfold read_input. destruct (String.eqb _ _) eqn:E; [| discriminate].
  apply String.eqb_eq in E. unfold fs_get, read_csv. simpl.
  destruct (fs_files (w_fs w) !! input_path) as [[df |] |]; simpl; try discriminate.
  - by intros [= <- <-].
  - destruct (is_dir _ _); discriminate.
Qed.

Lemma read_input_run input_path w data :
  suffix input_path = ".csv" →
  fs_files (w_fs w) !! input_path = Some (CsvFile data) →
  read_input input_path w = (Ok data, w).
Proof.
  intros Hs Hf. unfold read_input. rewrite Hs. simpl.
  unfold fs_get, read_csv. simpl. by rewrite Hf.
Qed.

Lemma to_csv_ok df p fs fs' :
  to_csv df p fs = Ok fs' →
  fs' = mkFS (fs_dirs fs) (<[p := CsvFile df]> (fs_files fs)).
Proof.
  unfold to_csv. repeat (case_match; try discriminate). by intros [= <-].
Qed.

Lemma filter_quality_try_ok np_sum input_path output_path a b c w r w' :
  filter_quality_try np_sum input_path output_path a b c w = (Ok r, w') →
  ∃ data out,
    suffix input_path = ".csv" ∧
    fs_files (w_fs w) !! input_path = Some (CsvFile data) ∧
    apply_filters data a b c = Ok out ∧
    w' = mkWorld (mkFS (fs_dirs (w_fs w)) (<[output_path := CsvFile out]> (fs_files (w_fs w))))
           (w_rng w) ∧
    filter_stats np_sum output_path (Z.of_nat (len data)) out = Ok r.
Proof.
  unfold filter_quality_try. intros H.
  apply bind_ok in H as (data & w1 & Hread & H).
  apply read_input_ok in Hread as (-> & Hsuf & Hfile).
  apply bind_ok in H as (out & w2 & Hflt & H).
  unfold lift in Hflt. injection Hflt as Hflt <-.
  apply bind_ok in H as ([] & w3 & Hw & H).
  apply fs_update_ok in Hw as (fs' & Hcsv & ->). apply to_csv_ok in Hcsv as ->.
  unfold lift in H. injection H as H <-.
  exists data, out. done.
Qed.

Lemma try_except_ok {A} (m : Py A) msg w a w' :
  try_except m msg w = (Ok a, w') ↔ m w = (Ok a, w').
Proof.
  unfold try_except. destruct (m w) as [[a' | e] w1]; split; congruence.
Qed.

Lemma try_except_err {A} (m : Py A) msg w e w' :
  try_except m msg w = (Err e, w') ↔ ∃ e', m w = (Err e', w') ∧ e = IOErrorFrom msg e'.
Proof.
  unfold try_except. destruct (m w) as [[a' | e0] w1]; split.
  - discriminate.
  - intros (? & [=] & _).
  - intros [= <- <-]. eauto.
  - intros (? & [= -> ->] & ->). done.
Qed.

(** What [filter_quality] does when it is not a dry run. *)
Lemma filter_quality_real np_sum cfg input_file output_dir a b c w :
  DRY_RUN cfg = false →
  filter_quality np_sum cfg input_file output_dir a b c w =
    match _ensure_directories cfg w with
    | (Err e, w1) => (Err e, w1)
    | (Ok _, w1) =>
        if negb (path_exists (w_fs w1) input_file)
        then (Err (IOError "Input file not found"), w1)
        else if bool_decide (a < 0)%Z || bool_decide (b < 0)%Z
                || float_lt c (Finite 0) || float_lt (Finite (Qc_of_Z 100)) c
        then (Err (ValueError "Invalid QC parameters"), w1)
        else match mkdir_parents (path_parent (filter_output_path input_file output_dir)) (w_fs w1) with
             | Err e => (Err e, w1)
             | Ok fs2 =>
                 try_except
                   (filter_quality_try np_sum input_file
                      (filter_output_path input_file output_dir) a b c)
                   "Failed to filter quality" (mkWorld fs2 (w_rng w1))
             end
    end.
Proof.
  intros Hdry. unfold filter_quality, filter_output_path. rewrite Hdry.
  unfold bind at 1. destruct (_ensure_directories cfg w) as [[[] | e] w1]; [| done].
  unfold bind at 1, fs_read at 1. simpl.
  destruct (negb _); [done |]. destruct (_ || _); [done |].
  unfold bind, fs_update. by destruct (mkdir_parents _ _).
Qed.

Lemma ensure_directories_grows cfg w r w1 :
  _ensure_directories cfg w = (r, w1) → fs_grows (w_fs w) (w_fs w1).
Proof.
  intros H. pose proof (only_mkdir_ensure_directories cfg w) as G. by rewrite H in G.
Qed.

Lemma mkdir_parents_grows p fs fs' :
  mkdir_parents p fs = Ok fs' → fs_grows fs fs'.
Proof.
  unfold mkdir_parents. repeat (case_match; try discriminate).
  intros [= <-]. split; simpl; [done | set_solver].
Qed.

(** A successful run: the table read, the table written and the statistics. *)
Lemma filter_quality_ok np_sum cfg input_file output_dir a b c w r w' :
  DRY_RUN cfg = false →
  filter_quality np_sum cfg input_file output_dir a b c w = (Ok r, w') →
  ∃ data out,
    valid_thresholds a b c ∧
    suffix input_file = ".csv" ∧
    fs_files (w_fs w) !! input_file = Some (CsvFile data) ∧
    apply_filters data a b c = Ok out ∧
    fs_files (w_fs w')
    = <[filter_output_path input_file output_dir := CsvFile out]> (fs_files (w_fs w)) ∧
    fs_dirs (w_fs w) ⊆ fs_dirs (w_fs w') ∧
    filter_stats np_sum (filter_output_path input_file output_dir) (Z.of_nat (len data)) out
    = Ok r.
Proof.
  intros Hdry. rewrite filter_quality_real by done.
  destruct (_ensure_directories cfg w) as [[[] | e] w1] eqn:Hens; [| discriminate].
  apply ensure_directories_grows in Hens as [Hf1 Hd1].
  destruct (negb _); [discriminate |].
  destruct (_ || _) eqn:Hval; [discriminate |]. apply thresholds_check_inv in Hval.
  destruct (mkdir_parents _ _) as [fs2 |] eqn:Hmk; [| discriminate].
  apply mkdir_parents_grows in Hmk as [Hf2 Hd2].
  rewrite try_except_ok. intros H.
  apply filter_quality_try_ok in H as (data & out & Hs & Hfile & Hflt & -> & Hst).
  simpl in *. exists data, out. rewrite Hf2, Hf1 in Hfile. rewrite Hf2, Hf1.
  split_and!; try done. etrans; done.
Qed.

Lemma filter_stats_rate np_sum output_path before out r :
  filter_stats np_sum output_path before out = Ok r →
  filtering_rate (qc_metrics r)
  = if (0 <? before)%Z then (Qc_of_Z (Z.of_nat (len out)) / Qc_of_Z before)%Qc else Qc_of_Z 0.
Proof.
  unfold filter_stats.
  destruct (if (0 <? len out)%nat then _ else Ok 0%Z) as [g |]; simpl; [| discriminate].
  destruct (if (0 <? len out)%nat then _ else Ok (Num (Qc_of_Z 0))) as [m1 |]; simpl; [| discriminate].
  destruct (if (0 <? len out)%nat then _ else Ok (Num (Qc_of_Z 0))) as [m2 |]; simpl; [| discriminate].
  destruct (if (0 <? len out)%nat then _ else Ok (Num (Qc_of_Z 0))) as [m3 |]; simpl; [| discriminate].
  destruct (0 <? before)%Z eqn:Hb; simpl.
  - destruct (py_div _ _) as [q |] eqn:Hq; simpl; [| discriminate].
    apply py_div_ok in Hq as [_ ->]. by intros [= <-].
  - by intros [= <-].
Qed.

Lemma nzd_ok {A} (a : A) : not_zero_division (Ok a).
Proof. intros e. discriminate. Qed.

Lemma nzd_bind {A B} (m : result A) (k : A → result B) :
  not_zero_division m → (∀ a, not_zero_division (k a)) → not_zero_division (rbind m k).
Proof.
  intros Hm Hk e. destruct m as [a | e']; simpl; [apply Hk |].
  intros [= <-]. by apply Hm.
Qed.

Lemma nzd_reduce_column df c f :
  (∀ s, not_zero_division (f s)) → not_zero_division (reduce_column df c f).
Proof.
  intros Hf. unfold reduce_column. destruct (df_get df c); [apply Hf |].
  by intros e [= <-].
Qed.

Lemma nzd_series_mean np_sum s : not_zero_division (series_mean np_sum s).
Proof.
  unfold series_mean. intros e. destruct (has_str s); [by intros [= <-] |].
  by destruct (numbers s).
Qed.

Lemma nzd_group_mean s : not_zero_division (group_mean s).
Proof.
  unfold group_mean. intros e. destruct (has_str s); [by intros [= <-] |].
  by destruct (numbers s).
Qed.

Lemma nzd_series_max s : not_zero_division (series_max s).
Proof.
  unfold series_max. intros e. destruct (strings_of s); [done |].
  destruct (_ && _); [done | by intros [= <-]].
Qed.

Lemma nzd_series_median s : not_zero_division (series_median s).
Proof.
  unfold series_median. intros e. destruct (has_str s); [by intros [= <-] |].
  repeat case_match; done.
Qed.

Lemma nzd_py_int v : not_zero_division (py_int v).
Proof. intros e. destruct v; simpl; [done | | |]; by intros [= <-]. Qed.

Lemma nzd_py_float v : not_zero_division (py_float v).
Proof. intros e. destruct v; simpl; [done | done | | done]; by intros [= <-]. Qed.

Lemma nzd_filter_stats np_sum output_path before out :
  not_zero_division (filter_stats np_sum output_path before out).
Proof.
  unfold filter_stats.
  apply nzd_bind; [| intros g].
  { destruct (0 <? len out)%nat; [| apply nzd_ok].
    apply nzd_bind; [apply nzd_reduce_column, nzd_series_max | apply nzd_py_int]. }
  apply nzd_bind; [| intros m1].
  { destruct (0 <? len out)%nat; [| apply nzd_ok].
    apply nzd_bind; [apply nzd_reduce_column, nzd_series_mean | apply nzd_py_float]. }
  apply nzd_bind; [| intros m2].
  { destruct (0 <? len out)%nat; [| apply nzd_ok].
    apply nzd_bind; [apply nzd_reduce_column, nzd_series_median | apply nzd_py_float]. }
  apply nzd_bind; [| intros m3].
  { destruct (0 <? len out)%nat; [| apply nzd_ok].
    apply nzd_bind; [apply nzd_reduce_column, nzd_series_mean | apply nzd_py_float]. }
  apply nzd_bind; [| intros q; apply nzd_ok].
  destruct (0 <? before)%Z eqn:Hb; [| apply nzd_ok].
  intros e. unfold py_div. case_decide as Hz; [| done].
  apply Z.ltb_lt in Hb. apply Z2Qc_inj_lt in Hb. rewrite Z2Qc_inj_0, Hz in Hb.
  by apply Qclt_not_le in Hb.
Qed.

Lemma nzd_apply_filters data a b c : not_zero_division (apply_filters data a b c).
Proof.
  assert (∀ df col op s, not_zero_division (filter_by df col op s)) as Hf.
  { intros df col op s e He. apply filter_by_err in He as [[_ ->] | [msg ->]]; done. }
  unfold apply_filters. apply nzd_bind; [apply Hf | intros d1].
  apply nzd_bind; [apply Hf | intros d2]. apply Hf.
Qed.

Lemma nzd_to_csv df p fs : not_zero_division (to_csv df p fs).
Proof.
  unfold to_csv. intros e.
  destruct (under_a_file fs p); [by intros [= <-] |].
  destruct (is_dir fs p); [by intros [= <-] |].
  destruct (is_dir fs _); [done | by intros [= <-]].
Qed.

Lemma nzd_read_csv p fs : not_zero_division (read_csv p fs).
Proof.
  unfold read_csv. intros e.
  destruct (fs_files fs !! p) as [[df |] |]; [done | by intros [= <-] |].
  destruct (is_dir fs p); by intros [= <-].
Qed.

Lemma nvzd_bind {A B} (m : Py A) (k : A → Py B) :
  never_zero_division m → (∀ a, never_zero_division (k a)) → never_zero_division (bind m k).
Proof.
  intros Hm Hk w e. unfold bind. specialize (Hm w).
  destruct (m w) as [[a | e'] w1]; simpl in *; [apply Hk |].
  intros [= <-]. by apply Hm.
Qed.

Lemma nvzd_lift {A} (r : result A) : not_zero_division r → never_zero_division (lift r).
Proof. intros H w. exact H. Qed.

Lemma nvzd_fs_update f :
  (∀ fs, not_zero_division (f fs)) → never_zero_division (fs_update f).
Proof.
  intros H w e. unfold fs_update. specialize (H (w_fs w)).
  destruct (f (w_fs w)); simpl; [done |]. intros [= <-]. by apply H.
Qed.

Lemma nvzd_fs_get {A} (f : FS → result A) :
  (∀ fs, not_zero_division (f fs)) → never_zero_division (fs_get f).
Proof. intros H w. apply H. Qed.

Lemma nvzd_read_input p : never_zero_division (read_input p).
Proof.
  unfold read_input. destruct (String.eqb _ _).
  - apply nvzd_fs_get, nzd_read_csv.
  - by intros w e [= <-].
Qed.

Lemma nvzd_filter_quality_try np_sum input_path output_path a b c :
  never_zero_division (filter_quality_try np_sum input_path output_path a b c).
Proof.
  unfold filter_quality_try.
  apply nvzd_bind; [apply nvzd_read_input | intros data].
  apply nvzd_bind; [apply nvzd_lift, nzd_apply_filters | intros out].
  apply nvzd_bind; [apply nvzd_fs_update, nzd_to_csv | intros _].
  apply nvzd_lift, nzd_filter_stats.
Qed.

Lemma nvzd_try_except {A} (m : Py A) msg :
  never_zero_division m → never_zero_division (try_except m msg).
Proof.
  intros H w e. unfold try_except. specialize (H w).
  destruct (m w) as [[a | e'] w1]; simpl in *; [done |]. intros [= <-]. simpl. by apply H.
Qed.

Lemma nzd_mkdir_parents p fs : not_zero_division (mkdir_parents p fs).
Proof.
  unfold mkdir_parents. intros e.
  destruct (under_a_file fs p); [by intros [= <-] |].
  destruct (is_file fs p); [by intros [= <-] | done].
Qed.

Lemma nzd_mkdir p fs : not_zero_division (mkdir p fs).
Proof.
  unfold mkdir. intros e.
  destruct (under_a_file fs p); [by intros [= <-] |].
  destruct (is_dir fs p); [done |].
  destruct (is_file fs p); [by intros [= <-] |].
  destruct (is_dir fs _); [done | by intros [= <-]].
Qed.

Lemma nvzd_ensure_directories cfg : never_zero_division (_ensure_directories cfg).
Proof.
  unfold _ensure_directories.
  repeat (apply nvzd_bind; [| intros _]);
    apply nvzd_fs_update; auto using nzd_mkdir_parents, nzd_mkdir.
Qed.

Lemma nvzd_filter_quality np_sum cfg input_file output_dir a b c :
  never_zero_division (filter_quality np_sum cfg input_file output_dir a b c).
Proof.
  unfold filter_quality.
  apply nvzd_bind; [apply nvzd_ensure_directories | intros _].
  apply nvzd_bind; [by intros w e | intros found].
  destruct (negb found); [by intros w e [= <-] |].
  destruct (_ || _); [by intros w e [= <-] |].
  apply nvzd_bind; [apply nvzd_fs_update, nzd_mkdir_parents | intros _].
  destruct (DRY_RUN cfg); [by intros w e |].
  apply nvzd_try_except, nvzd_filter_quality_try.
Qed.

(** Claim C9, as amended. When [filter_quality] returns, in a dry run or
    not, the retention rate it reports ([filtering_rate]) lies between 0 and
    1; outside a dry run it is 0 when the table read has no rows; no call
    fails with a division by zero, the division being made only when the
    table has rows. *)
Theorem filter_retention_rate np_sum cfg input_file output_dir min_reads min_genes
    max_mt_percent w :
  let run := filter_quality np_sum cfg input_file output_dir min_reads min_genes
               max_mt_percent w in
  (∀ r, fst run = Ok r →
     (0 ≤ filtering_rate (qc_metrics r))%Qc ∧ (filtering_rate (qc_metrics r) ≤ 1)%Qc ∧
     (DRY_RUN cfg = false →
      ∀ data, fs_files (w_fs w) !! input_file = Some (CsvFile data) →
              len data = 0%nat → filtering_rate (qc_metrics r) = 0%Qc)) ∧
  (∀ e, fst run = Err e → zero_division e = false).
Proof.
  intros run. split; [| apply nvzd_filter_quality].
  intros r Hr. destruct (DRY_RUN cfg) eqn:Hdry.
  - destruct (filter_quality_dry_run np_sum cfg w input_file output_dir min_reads min_genes
                max_mt_percent Hdry) as (_ & Hres & _).
    rewrite (Hres r Hr). simpl. split_and!; [done | done | discriminate].
  - subst run. destruct (filter_quality _ _ _ _ _ _ _ w) as [res w'] eqn:Hrun.
    simpl in Hr. subst res.
    apply filter_quality_ok in Hrun as (data & out & _ & _ & Hfile & Hflt & _ & _ & Hst); [| done].
    apply filter_stats_rate in Hst. rewrite Hst.
    apply apply_filters_ok in Hflt as [_ ->]. unfold len. simpl.
    pose proof (length_filter (keeps (columns data) min_reads min_genes max_mt_percent)
                  (rows data)) as Hlen.
    destruct (0 <? _)%Z eqn:Hpos.
    + apply Z.ltb_lt in Hpos. unfold len in Hpos.
      destruct (Qc_ratio_unit_interval
                  (Z.of_nat (length (filter (keeps (columns data) min_reads min_genes
                                               max_mt_percent) (rows data))))
                  (Z.of_nat (length (rows data)))) as [H0 H1]; [lia | lia |].
      split_and!; [done | done |].
      intros _ data' Hfile' Hempty. rewrite Hfile in Hfile'. injection Hfile' as <-.
      unfold len in Hempty. lia.
    + rewrite Z2Qc_inj_0. split_and!; done.
Qed.

(** Filtering a table without rows reports a retention rate of 0. *)
Lemma filter_retention_rate_witness :
  fst (filter_example empty_world) = Ok empty_filter_result ∧
  DRY_RUN (example_config false) = false ∧
  fs_files (w_fs empty_world) !! ["in"; "spots.csv"] = Some (CsvFile empty_table) ∧
  len empty_table = 0%nat ∧
  (0 ≤ filtering_rate (qc_metrics empty_filter_result))%Qc ∧
  (filtering_rate (qc_metrics empty_filter_result) ≤ 1)%Qc ∧
  filtering_rate (qc_metrics empty_filter_result) = 0%Qc.
Proof.
  assert (fst (filter_example empty_world) = Ok empty_filter_result) as Hrun
    by (vm_compute; reflexivity).
  assert (fs_files (w_fs empty_world) !! ["in"; "spots.csv"] = Some (CsvFile empty_table))
    as Hfile by (vm_compute; reflexivity).
  destruct (filter_retention_rate sum_in_order (example_config false) ["in"; "spots.csv"]
              ["out"] 1000%Z 200%Z (fz 20) empty_world) as [Hrate _].
  destruct (Hrate empty_filter_result Hrun) as (H0 & H1 & Hzero).
  split_and!; [exact Hrun | reflexivity | exact Hfile | reflexivity | exact H0 | exact H1 |].
  exact (Hzero eq_refl empty_table Hfile eq_refl).
Defined.

(** Claim C9 fails as stated: in a dry run the table is not read, and the
    retention rate reported for a table without rows is the placeholder
    0.85, not 0. *)
Lemma dry_run_rate_on_empty_table :
  DRY_RUN (example_config true) = true ∧
  fs_files (w_fs empty_world) !! ["in"; "spots.csv"] = Some (CsvFile empty_table) ∧
  len empty_table = 0%nat ∧
  ∃ r, fst (filter_quality sum_in_order (example_config true) ["in"; "spots.csv"] ["out"]
              1000 200 (fz 20) empty_world) = Ok r ∧
       Qcanon.this (filtering_rate (qc_metrics r)) = (17 # 20)%Q ∧
       filtering_rate (qc_metrics r) ≠ 0%Qc.
Proof.
  split_and!; [reflexivity | by vm_compute | reflexivity |].
  eexists. split_and!; [by vm_compute | by vm_compute | by_evaluation].
Qed.

Lemma filter_stats_output np_sum output_path before out r :
  filter_stats np_sum output_path before out = Ok r → fq_output_file r = output_path.
Proof.
  unfold filter_stats.
  destruct (if (0 <? len out)%nat then _ else Ok 0%Z) as [g |]; simpl; [| discriminate].
  destruct (if (0 <? len out)%nat then _ else Ok (Num (Qc_of_Z 0))) as [m1 |]; simpl; [| discriminate].
  destruct (if (0 <? len out)%nat then _ else Ok (Num (Qc_of_Z 0))) as [m2 |]; simpl; [| discriminate].
  destruct (if (0 <? len out)%nat then _ else Ok (Num (Qc_of_Z 0))) as [m3 |]; simpl; [| discriminate].
  destruct (if (0 <? before)%Z then _ else _) as [q |]; simpl; [| discriminate].
  by intros [= <-].
Qed.

Lemma filter_quality_try_fails np_sum input_path output_path a b c w data e :
  fs_files (w_fs w) !! input_path = Some (CsvFile data) →
  apply_filters data a b c = Err e →
  ∃ e', filter_quality_try np_sum input_path output_path a b c w = (Err e', w) ∧
        (suffix input_path = ".csv" → e' = e).
Proof.
  intros Hfile Hflt. unfold filter_quality_try, read_input.
  destruct (String.eqb _ _) eqn:Hs.
  - unfold bind at 1, fs_get, read_csv. rewrite Hfile.
    unfold bind, lift. rewrite Hflt. eauto.
  - apply String.eqb_neq in Hs. unfold bind, raise. eexists. split; [done |]. done.
Qed.

(** Claim C3, as amended. Outside a dry run, when the table read lacks
    [n_reads], [n_genes] or [mt_percent], [filter_quality] fails and writes
    no file: the missing column is not skipped. When the call gets as far
    as the filters, it fails with the [IOError] raised from the exception of
    the filters: the [KeyError] of a lookup of [True] or [False] (the
    comparison of the default 0 with the threshold), which does not name the
    column, or a [TypeError] for a column of strings met before it. *)
Theorem filter_missing_column_fails np_sum cfg input_file output_dir min_reads min_genes
    max_mt_percent w data q :
  DRY_RUN cfg = false →
  fs_files (w_fs w) !! input_file = Some (CsvFile data) →
  q ∈ ["n_reads"; "n_genes"; "mt_percent"] →
  q ∉ columns data →
  let run := filter_quality np_sum cfg input_file output_dir min_reads min_genes
               max_mt_percent w in
  (∃ e, fst run = Err e) ∧
  fs_files (w_fs (snd run)) = fs_files (w_fs w) ∧
  (prelude_ok cfg w (path_parent (filter_output_path input_file output_dir)) →
   path_exists (w_fs w) input_file = true →
   valid_thresholds min_reads min_genes max_mt_percent →
   suffix input_file = ".csv" →
   ∃ e, fst run = Err (IOErrorFrom "Failed to filter quality" e) ∧
        apply_filters data min_reads min_genes max_mt_percent = Err e ∧
        ((∃ t : bool, e = KeyError (if t then "True" else "False")) ∨
         (∃ msg, e = TypeError msg))).
Proof.
  intros Hdry Hfile Hq Hmiss run.
  destruct (apply_filters_missing data min_reads min_genes max_mt_percent q Hq Hmiss)
    as (e & Hflt & Hkind).
  subst run. rewrite filter_quality_real by done.
  destruct (_ensure_directories cfg w) as [[[] | e0] w1] eqn:Hens.
  2:{ pose proof (ensure_directories_grows _ _ _ _ Hens) as [Hf1 _]. simpl.
      split_and!; [eauto | done |]. intros (w1' & Hens' & _).
      congruence. }
  pose proof (ensure_directories_grows _ _ _ _ Hens) as [Hf1 Hd1].
  destruct (negb _) eqn:Hex; simpl.
  { split_and!; [eauto | done |]. intros _ Hex' _ _.
    apply negb_true_iff in Hex. 
    rewrite (path_exists_grows (w_fs w) (w_fs w1) input_file) in Hex; [done | done | done]. }
  destruct (_ || _) eqn:Hval; simpl.
  { split_and!; [eauto | done |]. intros _ _ Hval' _.
    by rewrite (thresholds_check _ _ _ Hval') in Hval. }
  destruct (mkdir_parents _ _) as [fs2 |] eqn:Hmk; simpl.
  2:{ split_and!; [eauto | done |]. intros (w1' & Hens' & Hmk') _ _ _.
      rewrite Hens in Hens'. injection Hens' as <-. by rewrite Hmk in Hmk'. }
  pose proof (mkdir_parents_grows _ _ _ Hmk) as [Hf2 Hd2].
  destruct (filter_quality_try_fails np_sum input_file
              (filter_output_path input_file output_dir)
              min_reads min_genes max_mt_percent (mkWorld fs2 (w_rng w1)) data e)
    as (e' & Hrun & He'); [simpl; by rewrite Hf2, Hf1 | done |].
  unfold try_except. rewrite Hrun. simpl. split_and!; [eauto | by rewrite Hf2, Hf1 |].
  intros _ _ _ Hs. rewrite (He' Hs). eauto.
Qed.

(** Filtering the spots that have no [n_genes] column fails. *)
Lemma filter_missing_column_fails_witness :
  DRY_RUN (example_config false) = false ∧
  fs_files (w_fs bare_world) !! ["in"; "spots.csv"] = Some (CsvFile bare_table) ∧
  "n_genes" ∈ ["n_reads"; "n_genes"; "mt_percent"] ∧
  ("n_genes" ∉ columns bare_table) ∧
  (∃ e, fst (filter_example bare_world) = Err e) ∧
  fs_files (w_fs (snd (filter_example bare_world))) = fs_files (w_fs bare_world).
Proof.
  assert (fs_files (w_fs bare_world) !! ["in"; "spots.csv"] = Some (CsvFile bare_table))
    as Hfile by (vm_compute; reflexivity).
  assert ("n_genes" ∈ ["n_reads"; "n_genes"; "mt_percent"]) as Hq by by_evaluation.
  assert ("n_genes" ∉ columns bare_table) as Hmiss by by_evaluation.
  destruct (filter_missing_column_fails sum_in_order (example_config false)
              ["in"; "spots.csv"] ["out"] 1000%Z 200%Z (fz 20) bare_world bare_table "n_genes"
              eq_refl Hfile Hq Hmiss) as (Hfails & Hfiles & _).
  split_and!; [reflexivity | exact Hfile | exact Hq | exact Hmiss | exact Hfails | exact Hfiles].
Defined.

(** Claim C3 fails as stated: in a dry run the table is not read, and a
    filter over a table that lacks [n_genes] and [mt_percent] returns the
    placeholder statistics instead of failing. *)
Lemma dry_run_ignores_missing_column :
  DRY_RUN (example_config true) = true ∧
  fs_files (w_fs bare_world) !! ["in"; "spots.csv"] = Some (CsvFile bare_table) ∧
  ("n_genes" ∉ columns bare_table) ∧
  fst (filter_quality sum_in_order (example_config true) ["in"; "spots.csv"] ["out"]
         1000 200 (fz 20) bare_world)
  = Ok (filter_dry_run ["out"; "spots_filtered.csv"]).
Proof. split_and!; [reflexivity | by vm_compute | by_evaluation | by vm_compute]. Qed.



(** ** Merging: the tiles that are read *)

Lemma substring_full (s : string) : String.substring 0 (String.length s) s = s.
Proof. induction s as [| c s IH]; simpl; [done | by rewrite IH]. Qed.

Lemma substring_split (s : string) (i : nat) :
  (i ≤ String.length s)%nat →
  s = String.append (String.substring 0 i s) (String.substring i (String.length s - i) s).
Proof.
  revert i. induction s as [| c s IH]; intros i Hi; simpl in *.
  - destruct i; [done | lia].
  - destruct i as [| i]; simpl.
    + by rewrite substring_full.
    + change (String c s = String c (String.append (String.substring 0 i s)
                (String.substring i (String.length s - i) s))).
      f_equal. apply IH. lia.
Qed.

Lemma append_empty_r (s : string) : String.append s "" = s.
Proof.
  induction s as [| c s IH]; [done |].
  change (String c (String.append s "") = String c s). by rewrite IH.
Qed.

Lemma rfind_dot_lt s i : rfind_dot s = Some i → (i < String.length s)%nat.
Proof.
  revert i. induction s as [| c s IH]; intros i; simpl; [done |].
  destruct (rfind_dot s) as [j |].
  - intros [= <-]. specialize (IH j eq_refl). lia.
  - destruct (Ascii.eqb _ _); [| done]. intros [= <-]. lia.
Qed.

Lemma suffix_ends_with name suf :
  suffix_of_name name = suf → ends_with suf name.
Proof.
  unfold suffix_of_name. destruct (rfind_dot name) as [i |] eqn:Hi.
  - apply rfind_dot_lt in Hi. destruct (_ && _).
    + intros <-. eexists. apply substring_split. lia.
    + intros <-. exists name. by rewrite append_empty_r.
  - intros <-. exists name. by rewrite append_empty_r.
Qed.

Lemma load_tiles_csv tile_files fs :
  load_tiles tile_files fs = load_tiles (filter is_csv tile_files) fs.
Proof.
  induction tile_files as [| p ps IH]; simpl; [done |].
  rewrite filter_cons. unfold is_csv at 1. destruct (decide (suffix p = ".csv")) as [E | E].
  - simpl. rewrite E. simpl. by rewrite IH.
  - apply String.eqb_neq in E. by rewrite E.
Qed.

Lemma merge_tiles_real cfg tile_files output_file overlap_resolution w :
  DRY_RUN cfg = false →
  merge_tiles cfg tile_files output_file overlap_resolution w =
    match _ensure_directories cfg w with
    | (Err e, w1) => (Err e, w1)
    | (Ok _, w1) =>
        if bool_decide (tile_files = []) then (Err (ValueError "No tile files provided"), w1)
        else if negb (bool_decide (overlap_resolution ∈ ["average"; "max"; "first"]))
        then (Err (ValueError "Invalid overlap resolution method"), w1)
        else if negb (forallb (path_exists (w_fs w1)) tile_files)
        then (Err (IOError "Tile file not found"), w1)
        else match mkdir_parents (path_parent output_file) (w_fs w1) with
             | Err e => (Err e, w1)
             | Ok fs2 =>
                 try_except (merge_tiles_try tile_files output_file overlap_resolution)
                   "Failed to merge tiles" (mkWorld fs2 (w_rng w1))
             end
    end.
Proof.
  intros Hdry. unfold merge_tiles. rewrite Hdry.
  unfold bind at 1. destruct (_ensure_directories cfg w) as [[[] | e] w1]; [| done].
  destruct (bool_decide (tile_files = [])); [done |].
  destruct (negb (bool_decide _)); [done |].
  unfold bind at 1, fs_read at 1. simpl.
  destruct (negb _); [done |].
  unfold bind, fs_update. by destruct (mkdir_parents _ _).
Qed.

Lemma merge_tiles_try_csv tile_files output_file overlap_resolution w :
  merge_tiles_try tile_files output_file overlap_resolution w
  = let run' := merge_tiles_try (filter is_csv tile_files) output_file overlap_resolution w in
    (match fst run' with
     | Ok r' => Ok (with_tiles_merged (Z.of_nat (length tile_files)) r')
     | Err e => Err e
     end, snd run').
Proof.
  unfold merge_tiles_try, bind, fs_get, lift, ret, fs_update. simpl.
  rewrite <- !load_tiles_csv.
  destruct (load_tiles tile_files (w_fs w)) as [all_data |]; [| done].
  destruct (merge_tables all_data overlap_resolution) as [merged |]; [| done].
  destruct (to_csv merged output_file (w_fs w)) as [fs3 |]; [| done].
  by destruct (overlap_stats all_data merged).
Qed.

Lemma merge_tiles_dry_or_real_count cfg tile_files output_file overlap_resolution w r :
  fst (merge_tiles cfg tile_files output_file overlap_resolution w) = Ok r →
  tiles_merged r = Z.of_nat (length tile_files).
Proof.
  destruct (DRY_RUN cfg) eqn:Hdry.
  - intros Hr. destruct (merge_tiles_dry_run cfg w tile_files output_file overlap_resolution Hdry)
      as (_ & Hres & _). by rewrite (Hres r Hr).
  - rewrite merge_tiles_real by done.
    destruct (_ensure_directories cfg w) as [[[] | e] w1]; [| done].
    destruct (bool_decide (tile_files = [])); [done |].
    destruct (negb (bool_decide _)); [done |].
    destruct (negb _); [done |].
    destruct (mkdir_parents _ _) as [fs2 |]; [| done].
    unfold try_except. rewrite merge_tiles_try_csv. simpl.
    destruct (merge_tiles_try _ _ _ _) as [[r' |] w3]; simpl; [| done].
    by intros [= <-].
Qed.

(** Claim C10. When every path of the tile list exists, a tile whose name
    does not end in [.csv] is not among the tiles read, and reading the
    whole list gives what reading its csv tiles gives; [tiles_merged] is the
    length of the whole list whenever the call returns. Outside a dry run,
    and when at least one tile is a csv tile, the call leaves the world
    and returns the result of the call on the csv tiles alone, up to
    [tiles_merged]. *)
Theorem merge_skips_non_csv_tiles cfg tile_files output_file overlap_resolution w :
  Forall (fun p => path_exists (w_fs w) p = true) tile_files →
  let run := merge_tiles cfg tile_files output_file overlap_resolution w in
  let csv_tiles := filter is_csv tile_files in
  (∀ p, ¬ ends_with ".csv" (path_name p) → p ∉ csv_tiles) ∧
  load_tiles tile_files (w_fs w) = load_tiles csv_tiles (w_fs w) ∧
  (∀ r, fst run = Ok r → tiles_merged r = Z.of_nat (length tile_files)) ∧
  (DRY_RUN cfg = false → csv_tiles ≠ [] →
   let run' := merge_tiles cfg csv_tiles output_file overlap_resolution w in
   snd run = snd run' ∧
   fst run = match fst run' with
             | Ok r' => Ok (with_tiles_merged (Z.of_nat (length tile_files)) r')
             | Err e => Err e
             end).
Proof.
  intros Hex run csv_tiles. split_and!.
  - intros p Hp Hin. apply list_elem_of_filter in Hin as [Hcsv _].
    apply Hp. by apply suffix_ends_with.
  - apply load_tiles_csv.
  - intros r. apply merge_tiles_dry_or_real_count.
  - intros Hdry Hne run'. subst run run'. rewrite !merge_tiles_real by done.
    destruct (_ensure_directories cfg w) as [[[] | e] w1] eqn:Hens; [| done].
    pose proof (ensure_directories_grows _ _ _ _ Hens) as Hg.
    assert (tile_files ≠ []) as Hne'.
    { intros ->. by apply Hne. }
    rewrite (bool_decide_eq_false_2 _ Hne), (bool_decide_eq_false_2 _ Hne').
    destruct (negb (bool_decide _)); [done |].
    assert (forallb (path_exists (w_fs w1)) tile_files = true) as ->.
    { apply forallb_forall. intros p Hp. rewrite Forall_forall in Hex.
      eapply path_exists_grows; [done | apply Hex, list_elem_of_In, Hp]. }
    assert (forallb (path_exists (w_fs w1)) csv_tiles = true) as ->.
    { apply forallb_forall. intros p Hp. rewrite Forall_forall in Hex.
      eapply path_exists_grows; [done |]. apply Hex.
      apply list_elem_of_In in Hp. by apply list_elem_of_filter in Hp as [_ ?]. }
    simpl. destruct (mkdir_parents _ _) as [fs2 |]; [| done].
    unfold try_except. rewrite merge_tiles_try_csv. simpl. fold csv_tiles.
    destruct (merge_tiles_try csv_tiles _ _ _) as [[r' |] w3]; simpl; [done |].
    (* both runs fail with the same exception *)
    done.
Qed.

(** Two tiles and a text file: the text file is passed over and counted. *)
Lemma merge_skips_non_csv_tiles_witness :
  Forall (fun p => path_exists (w_fs mixed_world) p = true) mixed_tiles ∧
  ¬ ends_with ".csv" "notes.txt" ∧
  (["in"; "notes.txt"] ∉ filter is_csv mixed_tiles) ∧
  ∃ r, fst (merge_tiles (example_config false) mixed_tiles ["out"; "merged.csv"] "average"
              mixed_world) = Ok r ∧
       tiles_merged r = 3%Z ∧ total_barcodes r = 17%Z.
Proof.
  assert (Forall (fun p => path_exists (w_fs mixed_world) p = true) mixed_tiles) as Hex
    by by_evaluation.
  assert (¬ ends_with ".csv" "notes.txt") as Hend.
  { intros [pre Hpre].
    do 10 (destruct pre as [| ? pre]; [vm_compute in Hpre; discriminate Hpre |]).
    vm_compute in Hpre. discriminate Hpre. }
  destruct (merge_skips_non_csv_tiles (example_config false) mixed_tiles ["out"; "merged.csv"]
              "average" mixed_world Hex) as (Hskip & _ & Hcount & _).
  split_and!; [exact Hex | exact Hend | exact (Hskip ["in"; "notes.txt"] Hend) |].
  eexists. split; [vm_compute; reflexivity |].
  split; [| vm_compute; reflexivity].
  apply (Hcount _). vm_compute. reflexivity.
Defined.

(** Claim C1, at the input where the code departs from it. For three tiles
    of 10, 10 and 5 barcodes, three of them shared by the first two,
    [merge_tiles] under [average] returns 22 barcodes, so the sizes of the
    tiles less the total is 3; the overlap it reports is taken from the
    first two tiles only: 10 + 10 - 22 = -2 barcodes, and -100/11 percent. *)
Theorem merge_overlap_three_tiles :
  len tile_1 = 10%nat ∧ len tile_2 = 10%nat ∧ len tile_3 = 5%nat ∧
  ∃ r, fst (merge_tiles (example_config false) three_tiles ["out"; "merged.csv"] "average"
              three_tiles_world) = Ok r ∧
       tiles_merged r = 3%Z ∧
       total_barcodes r = 22%Z ∧
       (10 + 10 + 5 - total_barcodes r = 3)%Z ∧
       overlapping_barcodes (overlap_regions r) = (-2)%Z ∧
       Qcanon.this (overlap_percent (overlap_regions r)) = (-100 # 11)%Q.
Proof.
  split_and!; [reflexivity .. |].
  eexists. split; [vm_compute; reflexivity |]. vm_compute. by split_and!.
Qed.

(** ** Segmentation *)

Lemma det_bind {A B} (m : Py A) (k : A → Py B) :
  deterministic m → (∀ a, deterministic (k a)) → deterministic (bind m k).
Proof.
  intros Hm Hk w1 w2 Hw. unfold bind. destruct (Hm w1 w2 Hw) as [Hr Hf].
  destruct (m w1) as [[a1 | e1] w1'], (m w2) as [[a2 | e2] w2']; simpl in *;
    try discriminate.
  - injection Hr as <-. by apply Hk.
  - injection Hr as <-. by split.
Qed.

Lemma det_ret {A} (a : A) : deterministic (ret a).
Proof. by intros w1 w2 Hw. Qed.

Lemma det_raise {A} e : deterministic (@raise A e).
Proof. by intros w1 w2 Hw. Qed.

Lemma det_lift {A} (r : result A) : deterministic (lift r).
Proof. by intros w1 w2 Hw. Qed.

Lemma det_fs_read {A} (f : FS → A) : deterministic (fs_read f).
Proof. intros w1 w2 Hw. unfold fs_read. simpl. by rewrite Hw. Qed.

Lemma det_fs_get {A} (f : FS → result A) : deterministic (fs_get f).
Proof. intros w1 w2 Hw. unfold fs_get. simpl. by rewrite Hw. Qed.

Lemma det_fs_update f : deterministic (fs_update f).
Proof.
  intros w1 w2 Hw. unfold fs_update. rewrite Hw.
  by destruct (f (w_fs w2)).
Qed.

Lemma det_try_except {A} (m : Py A) msg : deterministic m → deterministic (try_except m msg).
Proof.
  intros Hm w1 w2 Hw. unfold try_except. destruct (Hm w1 w2 Hw) as [Hr Hf].
  destruct (m w1) as [[a1 | e1] w1'], (m w2) as [[a2 | e2] w2']; simpl in *;
    try discriminate.
  - injection Hr as <-. by split.
  - injection Hr as <-. by split.
Qed.

(** A draw whose value is not used. *)
Lemma det_draw_unused {A B} (f : RandomState → A * RandomState) (k : A → Py B) (m : Py B) :
  (∀ a, k a = m) → deterministic m → deterministic (bind (draw f) k).
Proof.
  intros Hk Hm w1 w2 Hw. unfold bind, draw.
  destruct (f (w_rng w1)) as [a1 g1], (f (w_rng w2)) as [a2 g2].
  rewrite !Hk. by apply Hm.
Qed.

Lemma det_ensure_directories cfg : deterministic (_ensure_directories cfg).
Proof.
  unfold _ensure_directories.
  repeat (apply det_bind; [| intros _]); apply det_fs_update.
Qed.

Lemma det_read_input p : deterministic (read_input p).
Proof. unfold read_input. destruct (String.eqb _ _); [apply det_fs_get | apply det_raise]. Qed.

Lemma det_write_regions str data region output_path names :
  deterministic (write_regions str data region output_path names).
Proof.
  induction names as [| n names IH]; simpl; [apply det_ret |].
  apply det_bind; [apply det_fs_update | intros _].
  apply det_bind; [exact IH | intros rest]. apply det_ret.
Qed.

Lemma det_assign_regions data regions :
  generator_free data regions → deterministic (assign_regions data regions).
Proof.
  intros [Hreg | [Hno Hx]]; unfold assign_regions.
  - rewrite Hreg. apply det_ret.
  - destruct (has_column data "region"); [apply det_ret |].
    assert (∃ x, df_get data "x_coord" = Some x) as [x Hget].
    { unfold df_get. rewrite Hx. eauto. }
    destruct Hno as [-> | ->];
      (eapply det_draw_unused;
       [ intros noise; rewrite Hget;
         change (default noise (Some x)) with x; reflexivity
       | apply det_bind; [apply det_lift | intros labels; apply det_lift] ]).
Qed.

Lemma bind_run {A B} (m : Py A) (k : A → Py B) w a w' :
  m w = (Ok a, w') → bind m k w = k a w'.
Proof. intros H. unfold bind. by rewrite H. Qed.

Lemma bind_fail {A B} (m : Py A) (k : A → Py B) w e w' :
  m w = (Err e, w') → bind m k w = (Err e, w').
Proof. intros H. unfold bind. by rewrite H. Qed.

Lemma split_by_region_try_det str input_path output_path regions w1 w2 :
  w_fs w1 = w_fs w2 →
  (∀ data, fs_files (w_fs w1) !! input_path = Some (CsvFile data) →
           generator_free data regions) →
  let m := split_by_region_try str input_path output_path regions in
  fst (m w1) = fst (m w2) ∧ w_fs (snd (m w1)) = w_fs (snd (m w2)).
Proof.
  intros Hw Hfree m. subst m. unfold split_by_region_try.
  destruct (read_input input_path w1) as [[data | e] w1'] eqn:H1.
  - pose proof H1 as H1'. apply read_input_ok in H1' as (-> & Hs & Hfile).
    assert (read_input input_path w2 = (Ok data, w2)) as H2
      by (apply read_input_run; [done | by rewrite <- Hw]).
    rewrite (bind_run _ _ _ _ _ H1), (bind_run _ _ _ _ _ H2).
    assert (deterministic (assign_regions data regions)) as Hdet
      by (by apply det_assign_regions, Hfree).
    refine (det_bind _ _ Hdet _ w1 w2 Hw). intros data'.
    apply det_bind; [apply det_lift | intros region].
    apply det_bind; [apply det_write_regions | intros files].
    apply det_bind; [apply det_lift | intros summary]. apply det_ret.
  - pose proof (det_read_input input_path w1 w2 Hw) as [Hr Hf].
    rewrite H1 in Hr, Hf. simpl in *.
    destruct (read_input input_path w2) as [[data | e'] w2'] eqn:H2; simpl in *; [done |].
    injection Hr as <-.
    rewrite (bind_fail _ _ _ _ _ H1), (bind_fail _ _ _ _ _ H2). by split.
Qed.

Lemma split_by_region_real str cfg input_file output_dir regions coordinate_file w :
  DRY_RUN cfg = false →
  split_by_region str cfg input_file output_dir regions coordinate_file w =
    match _ensure_directories cfg w with
    | (Err e, w1) => (Err e, w1)
    | (Ok _, w1) =>
        if negb (path_exists (w_fs w1) input_file)
        then (Err (IOError "Input file not found"), w1)
        else match mkdir_parents output_dir (w_fs w1) with
             | Err e => (Err e, w1)
             | Ok fs2 =>
                 try_except (split_by_region_try str input_file output_dir regions)
                   "Failed to split by region" (mkWorld fs2 (w_rng w1))
             end
    end.
Proof.
  intros Hdry. unfold split_by_region. rewrite Hdry.
  unfold bind at 1. destruct (_ensure_directories cfg w) as [[[] | e] w1]; [| done].
  unfold bind at 1, fs_read at 1. simpl.
  destruct (negb _); [done |].
  unfold bind, fs_update. by destruct (mkdir_parents _ _).
Qed.

(** Claim C2, as amended. Outside a dry run, when the table read already
    has a region column, or when no region list is given and the table has
    an [x_coord] column, two calls of [split_by_region] on the same files
    return the same regions and counts and leave the same files, whatever
    the state of the random generator. *)
Theorem split_deterministic_without_random_labels str cfg input_file output_dir regions
    coordinate_file w1 w2 :
  DRY_RUN cfg = false →
  w_fs w1 = w_fs w2 →
  (∀ data, fs_files (w_fs w1) !! input_file = Some (CsvFile data) →
           generator_free data regions) →
  let run1 := split_by_region str cfg input_file output_dir regions coordinate_file w1 in
  let run2 := split_by_region str cfg input_file output_dir regions coordinate_file w2 in
  fst run1 = fst run2 ∧ w_fs (snd run1) = w_fs (snd run2).
Proof.
  intros Hdry Hw Hfree run1 run2. subst run1 run2.
  rewrite !split_by_region_real by done.
  destruct (det_ensure_directories cfg w1 w2 Hw) as [Hr Hf].
  destruct (_ensure_directories cfg w1) as [[[] | e1] w1'] eqn:H1,
           (_ensure_directories cfg w2) as [[[] | e2] w2'] eqn:H2; simpl in *;
    try discriminate; [| injection Hr as <-; by split].
  rewrite <- Hf. destruct (negb _); [done |].
  destruct (mkdir_parents output_dir (w_fs w1')) as [fs2 |] eqn:Hmk; [| done].
  pose proof (ensure_directories_grows _ _ _ _ H1) as [Hf1 _].
  pose proof (mkdir_parents_grows _ _ _ Hmk) as [Hf2 _].
  set (u1 := mkWorld fs2 (w_rng w1')). set (u2 := mkWorld fs2 (w_rng w2')).
  destruct (split_by_region_try_det str input_file output_dir regions u1 u2) as [Hr' Hf'];
    [done | |].
  { intros data Hd. apply Hfree. simpl in Hd. by rewrite Hf2, Hf1 in Hd. }
  unfold try_except.
  destruct (split_by_region_try _ _ _ _ u1) as [[a1 | e1] u1'],
           (split_by_region_try _ _ _ _ u2) as [[a2 | e2] u2']; simpl in *;
    try discriminate.
  - injection Hr' as <-. by split.
  - injection Hr' as <-. by split.
Qed.

(** Binning the example spots by [x_coord] gives the same regions from two
    states of the generator. *)
Lemma split_deterministic_without_random_labels_witness :
  DRY_RUN (example_config false) = false ∧
  w_fs (example_world [(["in"; "spots.csv"], CsvFile qc_table)] (fun _ => 0%N))
  = w_fs (example_world [(["in"; "spots.csv"], CsvFile qc_table)] N.of_nat) ∧
  generator_free qc_table None ∧
  fst (split_example qc_table None None (fun _ => 0%N))
  = fst (split_example qc_table None None N.of_nat).
Proof.
  assert (generator_free qc_table None) as Hfree.
  { right. split; [by left | reflexivity]. }
  split_and!; [reflexivity | reflexivity | exact Hfree |].
  apply (split_deterministic_without_random_labels (fun _ => "") (example_config false)
           ["in"; "spots.csv"] ["out"] None None
           (example_world [(["in"; "spots.csv"], CsvFile qc_table)] (fun _ => 0%N))
           (example_world [(["in"; "spots.csv"], CsvFile qc_table)] N.of_nat)
           eq_refl eq_refl).
  intros data Hdata. vm_compute in Hdata. injection Hdata as <-. exact Hfree.
Defined.

(** Claim C2 fails as stated: two runs on the same table, from worlds that
    differ only in the state of the random generator, return different
    regions, with a region list and also without coordinates; and in a dry
    run they return different counts. *)
Lemma split_depends_on_generator :
  fst (split_example qc_table (Some ["tumor"; "stroma"]) None (fun _ => 0%N))
    ≠ fst (split_example qc_table (Some ["tumor"; "stroma"]) None N.of_nat) ∧
  fst (split_example bare_table None None (fun _ => 0%N))
    ≠ fst (split_example bare_table None None N.of_nat) ∧
  (∃ r r', fst (split_dry_example (fun _ => 0%N)) = Ok r ∧
           fst (split_dry_example N.of_nat) = Ok r' ∧
           map barcode_count (regions_out r) = [5000; 5000; 5000]%Z ∧
           map barcode_count (regions_out r') = [5000; 5001; 5002]%Z).
Proof.
  split_and!; [intros H; vm_compute in H; discriminate ..|].
  eexists _, _. split_and!; by vm_compute.
Qed.


Lemma elem_of_unique (l : list cell) x : x ∈ unique l ↔ x ∈ l.
Proof.
  induction l as [| y l IH]; simpl; [done |].
  rewrite !elem_of_cons, list_elem_of_filter, IH.
  destruct (decide (x = y)) as [-> | Hne]; [split; intros _; by left |].
  split; [intros [-> | [_ Hx]]; [done | by right] | intros [-> | Hx]; [done | by right]].
Qed.

Lemma NoDup_unique (l : list cell) : NoDup (unique l).
Proof.
  induction l as [| y l IH]; simpl; [constructor |].
  constructor.
  - rewrite list_elem_of_filter. by intros [Hne _].
  - by apply NoDup_filter.
Qed.









(** *** Adding the region column *)

Lemma col_index_None c cols : c ∉ cols → col_index c cols = None.
Proof.
  induction cols as [| c' cols IH]; simpl; [done |].
  rewrite not_elem_of_cons. intros [Hne Hc]. rewrite decide_False by done. by rewrite IH.
Qed.

Lemma col_index_last c cols : c ∉ cols → col_index c (cols ++ [c]) = Some (length cols).
Proof.
  induction cols as [| c' cols IH]; simpl.
  - intros _. by rewrite decide_True.
  - rewrite not_elem_of_cons. intros [Hne Hc]. rewrite decide_False by done. by rewrite IH.
Qed.


Lemma setitem_new data c vals data' :
  has_column data c = false → well_formed data →
  setitem data c vals = Ok data' →
  df_get data' c = Some vals ∧ len data' = len data.
Proof.
  intros Hc Hwf. unfold setitem. destruct (negb _) eqn:Hlen; [discriminate |].
  apply negb_false_iff, Nat.eqb_eq in Hlen.
  apply bool_decide_eq_false in Hc. rewrite (col_index_None _ _ Hc). intros [= <-].
  unfold df_get, has_column, len. simpl.
  rewrite bool_decide_eq_true_2 by (apply elem_of_app; right; by left).
  unfold len, well_formed in *. revert vals Hlen Hwf.
  induction (rows data) as [| r rs IH]; intros [| v vals] Hlen Hwf; simpl in *; try done.
  injection Hlen as Hlen. inversion Hwf as [| ? ? Hr Hrs]; subst.
  destruct (IH vals Hlen Hrs) as [IH1 IH2]. split; [| by rewrite IH2].
  injection IH1 as IH1. rewrite IH1. do 2 f_equal.
  unfold cell_at. rewrite (col_index_last _ _ Hc).
  rewrite lookup_app_r by lia. by rewrite Hr, Nat.sub_diag.
Qed.



Lemma write_regions_counts str data region output_path names w files w' :
  write_regions str data region output_path names w = (Ok files, w') →
  map barcode_count files
  = map (fun n => Z.of_nat (len (getitem_mask data (eq_series region n)))) names.
Proof.
  revert w files w'. induction names as [| n names IH]; intros w files w'; simpl.
  - unfold ret. by intros [= <- _].
  - intros H. apply bind_ok in H as ([] & w1 & _ & H).
    apply bind_ok in H as (rest & w2 & Hrest & H).
    unfold ret in H. injection H as <- _. simpl. f_equal. by eapply IH.
Qed.

Lemma write_regions_names str data region output_path names w files w' :
  write_regions str data region output_path names w = (Ok files, w') →
  map region_name files = map (str_of_cell str) names ∧
  map region_file files
  = map (fun n => path_join output_path (String.append (str_of_cell str n) ".csv")) names.
Proof.
  revert w files w'. induction names as [| n names IH]; intros w files w'; simpl.
  - unfold ret. by intros [= <- _].
  - intros H. apply bind_ok in H as ([] & w1 & _ & H).
    apply bind_ok in H as (rest & w2 & Hrest & H).
    unfold ret in H. injection H as <- _. simpl.
    destruct (IH _ _ _ Hrest) as [-> ->]. done.
Qed.





(** ** Merging: the resolved values *)

(** *** Columns *)

Lemma col_index_Some c cols :
  c ∈ cols → ∃ i, col_index c cols = Some i ∧ cols !! i = Some c.
Proof.
  induction cols as [| c' cols IH]; [by intros ?%elem_of_nil |].
  simpl. destruct (decide (c' = c)) as [-> | Hne].
  - intros _. by exists 0%nat.
  - rewrite elem_of_cons. intros [-> | Hin]; [done |].
    destruct (IH Hin) as (i & -> & Hi). by exists (S i).
Qed.

Lemma col_index_None_inv c cols : col_index c cols = None → c ∉ cols.
Proof.
  intros H Hin. apply col_index_Some in Hin as (i & Hi & _). congruence.
Qed.

Lemma cell_at_missing cols r c : c ∉ cols → cell_at cols r c = NaN.
Proof. intros H. unfold cell_at. by rewrite col_index_None. Qed.

Lemma cell_at_reindex U cols r c :
  (∀ x, x ∈ cols → x ∈ U) →
  cell_at U (map (cell_at cols r) U) c = cell_at cols r c.
Proof.
  intros Hsub. unfold cell_at at 1. destruct (col_index c U) as [i |] eqn:Hi.
  - assert (c ∈ U) as Hc.
    { destruct (decide (c ∈ U)) as [? | Hn]; [done |]. apply col_index_None in Hn. congruence. }
    apply col_index_Some in Hc as (j & Hj & HU). rewrite Hi in Hj. injection Hj as <-.
    change (map (cell_at cols r) U) with (cell_at cols r <$> U).
    by rewrite list_lookup_fmap, HU.
  - apply col_index_None_inv in Hi. symmetry. apply cell_at_missing. naive_solver.
Qed.

Lemma elem_of_union_columns dfs c :
  c ∈ union_columns dfs ↔ ∃ df, df ∈ dfs ∧ c ∈ columns df.
Proof.
  unfold union_columns.
  assert (∀ acc, c ∈ foldl (fun acc df => acc ++ filter (fun c => c ∉ acc) (columns df)) acc dfs
                 ↔ c ∈ acc ∨ ∃ df, df ∈ dfs ∧ c ∈ columns df) as H.
  { induction dfs as [| df dfs IH]; intros acc; simpl.
    - split; [by left |]. intros [? | (df & ?%elem_of_nil & _)]; done.
    - rewrite IH, elem_of_app, list_elem_of_filter. split.
      + intros [[? | [_ ?]] | (df' & ? & ?)].
        * by left.
        * right. exists df. split; [by left | done].
        * right. exists df'. split; [by right | done].
      + intros [? | (df' & Hdf & ?)]; [by left; left |].
        apply elem_of_cons in Hdf as [-> | ?].
        * destruct (decide (c ∈ acc)); [by left; left | by left; right].
        * right. by exists df'. }
  rewrite H. split; [| by right]. intros [?%elem_of_nil | ?]; done.
Qed.

(** *** Concatenation keeps every value of every tile *)

Lemma concat_ok dfs cat :
  concat dfs = Ok cat →
  dfs ≠ [] ∧ cat = mkDF (union_columns dfs) (dfs ≫= reindex (union_columns dfs)).
Proof. unfold concat. destruct dfs; [discriminate |]. by intros [= <-]. Qed.

Lemma group_values_reindex U df key b c :
  (∀ x, x ∈ columns df → x ∈ U) →
  map (fun r => cell_at U r c)
    (filter (fun r => cell_at U r key = b) (reindex U df))
  = group_values df key b c.
Proof.
  intros Hsub. unfold group_values, reindex.
  induction (rows df) as [| r rs IH]; simpl; [done |].
  rewrite !filter_cons, (cell_at_reindex U (columns df) r key Hsub).
  destruct (decide (cell_at (columns df) r key = b)); simpl; [| done].
  by rewrite IH, (cell_at_reindex U (columns df) r c Hsub).
Qed.

Lemma group_values_concat dfs key b c :
  group_values (mkDF (union_columns dfs) (dfs ≫= reindex (union_columns dfs))) key b c
  = occurrences dfs key b c.
Proof.
  unfold group_values at 1, occurrences. simpl.
  assert (∀ df, df ∈ dfs → ∀ x, x ∈ columns df → x ∈ union_columns dfs) as Hsub.
  { intros df Hdf x Hx. apply elem_of_union_columns. eauto. }
  revert Hsub. generalize (union_columns dfs) as U. intros U Hsub.
  induction dfs as [| df dfs IH]; [done |].
  change ((df :: dfs) ≫= reindex U) with (reindex U df ++ (dfs ≫= reindex U)).
  change ((df :: dfs) ≫= (fun df => group_values df key b c))
    with (group_values df key b c ++ (dfs ≫= (fun df => group_values df key b c))).
  rewrite filter_app, map_app, IH.
  - f_equal. apply group_values_reindex. intros x. apply Hsub. by left.
  - intros df' Hdf'. apply Hsub. by right.
Qed.

Lemma key_column_concat dfs key :
  map (fun r => cell_at (union_columns dfs) r key) (dfs ≫= reindex (union_columns dfs))
  = key_values dfs key.
Proof.
  unfold key_values.
  assert (∀ df, df ∈ dfs → ∀ x, x ∈ columns df → x ∈ union_columns dfs) as Hsub.
  { intros df Hdf x Hx. apply elem_of_union_columns. eauto. }
  revert Hsub. generalize (union_columns dfs) as U. intros U Hsub.
  induction dfs as [| df dfs IH]; [done |].
  change ((df :: dfs) ≫= reindex U) with (reindex U df ++ (dfs ≫= reindex U)).
  change ((df :: dfs) ≫= (fun df => map (fun r => cell_at (columns df) r key) (rows df)))
    with (map (fun r => cell_at (columns df) r key) (rows df)
          ++ (dfs ≫= (fun df => map (fun r => cell_at (columns df) r key) (rows df)))).
  rewrite map_app, IH by (intros df' Hdf'; apply Hsub; by right). f_equal.
  unfold reindex. rewrite map_map. apply map_ext. intros r.
  apply cell_at_reindex. intros x. apply Hsub. by left.
Qed.

Lemma elem_of_group_keys df key b :
  b ∈ group_keys df key ↔ b ≠ NaN ∧ b ∈ map (fun r => cell_at (columns df) r key) (rows df).
Proof.
  unfold group_keys. rewrite merge_sort_Permutation, elem_of_unique, list_elem_of_filter.
  done.
Qed.

Lemma NoDup_group_keys df key : NoDup (group_keys df key).
Proof. unfold group_keys. rewrite merge_sort_Permutation. apply NoDup_unique. Qed.

(** *** The table [groupby] builds *)

Lemma groupby_agg_ok agg df key out :
  groupby_agg agg df key = Ok out →
  ∃ rs, out = mkDF (key :: filter (fun c => c ≠ key) (columns df)) rs ∧
        Forall2 (fun k row =>
                   ∃ vs, row = k :: vs ∧
                         Forall2 (fun c v => agg (group_values df key k c) = Ok v)
                           (filter (fun c => c ≠ key) (columns df)) vs)
          (group_keys df key) rs.
Proof.
  unfold groupby_agg. destruct (mapM _ (group_keys df key)) as [rs |] eqn:Hrs; simpl;
    [| discriminate].
  intros [= <-]. exists rs. split; [done |].
  apply mapM_ok in Hrs. eapply Forall2_impl; [exact Hrs |].
  intros k row. simpl. destruct (mapM _ _) as [vs |] eqn:Hvs; simpl; [| discriminate].
  intros [= <-]. exists vs. split; [done |]. by apply mapM_ok.
Qed.

Lemma groupby_agg_is_ok agg df key :
  is_ok (groupby_agg agg df key) = true ↔
  ∀ k c, k ∈ group_keys df key → c ∈ columns df → c ≠ key →
         is_ok (agg (group_values df key k c)) = true.
Proof.
  unfold groupby_agg. split.
  - destruct (mapM _ (group_keys df key)) as [rs |] eqn:Hrs; simpl; [| discriminate].
    intros _ k c Hk Hc Hne. apply mapM_ok in Hrs.
    apply list_elem_of_lookup in Hk as [i Hi].
    destruct (Forall2_lookup_l _ _ _ _ _ Hrs Hi) as (row & _ & Hrow).
    simpl in Hrow. destruct (mapM _ _) as [vs |] eqn:Hvs; simpl in Hrow; [| discriminate].
    apply mapM_ok in Hvs.
    assert (c ∈ filter (fun c => c ≠ key) (columns df)) as Hc'
      by (by apply list_elem_of_filter).
    apply list_elem_of_lookup in Hc' as [j Hj].
    destruct (Forall2_lookup_l _ _ _ _ _ Hvs Hj) as (v & _ & Hv). by rewrite Hv.
  - intros H.
    destruct (mapM _ (group_keys df key)) as [rs | e] eqn:Hrs; simpl; [done |].
    apply mapM_err in Hrs as (k & Hk & Hrow). simpl in Hrow.
    destruct (mapM _ _) as [vs | e'] eqn:Hvs; simpl in Hrow; [discriminate |].
    apply mapM_err in Hvs as (c & Hc & Hv). apply list_elem_of_filter in Hc as [Hne Hc].
    specialize (H k c Hk Hc Hne). by rewrite Hv in H.
Qed.

Lemma lookup_row_groupby key cols (P : cell → list cell → Prop) keys rs b :
  Forall2 (fun k row => ∃ vs, row = k :: vs ∧ P k vs) keys rs →
  (b ∉ keys → lookup_row (mkDF (key :: cols) rs) key b = None) ∧
  (b ∈ keys → ∃ vs, lookup_row (mkDF (key :: cols) rs) key b = Some (b :: vs) ∧ P b vs).
Proof.
  unfold lookup_row. simpl. intros H.
  assert (∀ row, row ∈ rs → cell_at (key :: cols) row key = List.hd NaN row) as Hhd.
  { intros row Hrow. apply list_elem_of_lookup in Hrow as [i Hi].
    destruct (Forall2_lookup_r _ _ _ _ _ H Hi) as (k & _ & vs & -> & _).
    unfold cell_at. simpl. by rewrite decide_True. }
  assert (filter (fun r => cell_at (key :: cols) r key = b) rs
          = filter (fun row => List.hd NaN row = b) rs) as ->.
  { clear H. induction rs as [| row rs IH]; [done |].
    rewrite !filter_cons, (Hhd row) by (by left).
    rewrite IH by (intros; apply Hhd; by right). done. }
  clear Hhd. induction H as [| k row keys rs (vs & -> & HP) _ IH]; simpl.
  - split; [done |]. by intros ?%elem_of_nil.
  - rewrite filter_cons. simpl. destruct IH as [IH1 IH2].
    destruct (decide (k = b)) as [-> | Hne]; simpl.
    + split; [intros Hn; destruct Hn; by left |]. intros _. eauto.
    + split.
      * rewrite not_elem_of_cons. intros [_ Hn]. by apply IH1.
      * rewrite elem_of_cons. intros [-> | Hin]; [done | by apply IH2].
Qed.

Lemma groupby_resolved agg df out b c :
  groupby_agg agg df "barcode" = Ok out →
  resolved out b c =
    if decide (b ∈ group_keys df "barcode") then
      if decide (c = "barcode") then Some b
      else if decide (c ∈ columns df)
           then ok_value (agg (group_values df "barcode" b c))
           else None
    else None.
Proof.
  intros H. apply groupby_agg_ok in H as (rs & -> & Hrs).
  set (others := filter (fun c => c ≠ "barcode") (columns df)) in *.
  destruct (lookup_row_groupby "barcode" others _ _ _ b Hrs) as [Hnone Hsome].
  unfold resolved, has_column. simpl.
  destruct (decide (b ∈ group_keys df "barcode")) as [Hb | Hb].
  - destruct (Hsome Hb) as (vs & -> & Hvs). simpl.
    destruct (decide (c = "barcode")) as [-> | Hc].
    + rewrite bool_decide_eq_true_2 by (by left).
      unfold cell_at. simpl. by rewrite ?decide_True.
    + destruct (decide (c ∈ columns df)) as [Hin | Hnin].
      * assert (c ∈ others) as Hco by (by apply list_elem_of_filter).
        rewrite bool_decide_eq_true_2 by (by right).
        apply col_index_Some in Hco as (i & Hi & Hoi).
        destruct (Forall2_lookup_l _ _ _ _ _ Hvs Hoi) as (v & Hv & Hagg).
        unfold cell_at. simpl. rewrite decide_False by done. rewrite Hi. simpl.
        by rewrite Hv, Hagg.
      * rewrite bool_decide_eq_false_2; [done |]. unfold others.
        rewrite elem_of_cons, list_elem_of_filter. by intros [-> | [_ Hin]].
  - rewrite (Hnone Hb). by destruct (bool_decide _).
Qed.

(** *** Reordering the tiles *)

Lemma bind_Permutation {A B} (f : A → list B) (l1 l2 : list A) :
  l1 ≡ₚ l2 → l1 ≫= f ≡ₚ l2 ≫= f.
Proof.
  induction 1 as [| x l1 l2 _ IH | x y l | l1 l2 l3 _ IH1 _ IH2].
  - done.
  - change ((x :: l1) ≫= f) with (f x ++ (l1 ≫= f)).
    change ((x :: l2) ≫= f) with (f x ++ (l2 ≫= f)). by rewrite IH.
  - change ((y :: x :: l) ≫= f) with (f y ++ (f x ++ (l ≫= f))).
    change ((x :: y :: l) ≫= f) with (f x ++ (f y ++ (l ≫= f))).
    rewrite !(assoc_L (++)). f_equiv. apply Permutation_app_comm.
  - by etrans.
Qed.

Lemma occurrences_Permutation dfs dfs' key b c :
  dfs ≡ₚ dfs' → occurrences dfs key b c ≡ₚ occurrences dfs' key b c.
Proof. apply bind_Permutation. Qed.

Lemma key_values_Permutation dfs dfs' key :
  dfs ≡ₚ dfs' → key_values dfs key ≡ₚ key_values dfs' key.
Proof. apply bind_Permutation. Qed.

Lemma union_columns_Permutation dfs dfs' c :
  dfs ≡ₚ dfs' → c ∈ union_columns dfs ↔ c ∈ union_columns dfs'.
Proof.
  intros H. rewrite !elem_of_union_columns. by setoid_rewrite H.
Qed.

Lemma merge_concat_keys dfs b :
  b ∈ group_keys (mkDF (union_columns dfs) (dfs ≫= reindex (union_columns dfs))) "barcode"
  ↔ b ≠ NaN ∧ b ∈ key_values dfs "barcode".
Proof. rewrite elem_of_group_keys. simpl. by rewrite key_column_concat. Qed.

Lemma order_free_failure agg : order_free agg → failure_order_free agg.
Proof. intros H s s' Hp. by rewrite (H s s' Hp). Qed.

Lemma groupby_concat_is_ok agg dfs dfs' :
  failure_order_free agg → dfs ≡ₚ dfs' →
  let cat l := mkDF (union_columns l) (l ≫= reindex (union_columns l)) in
  is_ok (groupby_agg agg (cat dfs) "barcode") = is_ok (groupby_agg agg (cat dfs') "barcode").
Proof.
  intros Hagg Hperm cat.
  assert (∀ k x, is_ok (agg (group_values (cat dfs) "barcode" k x))
                 = is_ok (agg (group_values (cat dfs') "barcode" k x))) as Hval.
  { intros k x. unfold cat. rewrite !group_values_concat.
    by apply Hagg, occurrences_Permutation. }
  assert (∀ k, k ∈ group_keys (cat dfs) "barcode" ↔ k ∈ group_keys (cat dfs') "barcode")
    as Hkeys.
  { intros k. unfold cat. rewrite !merge_concat_keys.
    by rewrite (key_values_Permutation dfs dfs' "barcode" Hperm). }
  assert (∀ x, x ∈ columns (cat dfs) ↔ x ∈ columns (cat dfs')) as Hcols.
  { intros x. by apply union_columns_Permutation. }
  assert (is_ok (groupby_agg agg (cat dfs) "barcode") = true
          ↔ is_ok (groupby_agg agg (cat dfs') "barcode") = true) as Hok.
  { rewrite !groupby_agg_is_ok. split; intros H k x Hk Hx Hne.
    - rewrite <- Hval. apply H; [by apply Hkeys | by apply Hcols | done].
    - rewrite Hval. apply H; [by apply Hkeys | by apply Hcols | done]. }
  destruct (is_ok (groupby_agg agg (cat dfs) "barcode")),
           (is_ok (groupby_agg agg (cat dfs') "barcode")); try done.
  - symmetry. by apply Hok.
  - by apply Hok.
Qed.

(** What holds of the values of a group in the two orders holds of the
    values of the merged tables, for a relation [R] on what is resolved. *)
Lemma groupby_concat_Permutation (R : option cell → option cell → Prop) agg dfs dfs' b c :
  (∀ o, R o o) →
  failure_order_free agg → dfs ≡ₚ dfs' →
  R (ok_value (agg (occurrences dfs "barcode" b c)))
    (ok_value (agg (occurrences dfs' "barcode" b c))) →
  let cat l := mkDF (union_columns l) (l ≫= reindex (union_columns l)) in
  R (resolved_in (groupby_agg agg (cat dfs) "barcode") b c)
    (resolved_in (groupby_agg agg (cat dfs') "barcode") b c).
Proof.
  intros HR Hagg Hperm Hval cat.
  assert (∀ k, k ∈ group_keys (cat dfs) "barcode" ↔ k ∈ group_keys (cat dfs') "barcode")
    as Hkeys.
  { intros k. unfold cat. rewrite !merge_concat_keys.
    by rewrite (key_values_Permutation dfs dfs' "barcode" Hperm). }
  assert (∀ x, x ∈ columns (cat dfs) ↔ x ∈ columns (cat dfs')) as Hcols.
  { intros x. by apply union_columns_Permutation. }
  pose proof (groupby_concat_is_ok agg dfs dfs' Hagg Hperm) as Hok. simpl in Hok.
  fold (cat dfs) (cat dfs') in Hok.
  destruct (groupby_agg agg (cat dfs) "barcode") as [out | e] eqn:H1,
           (groupby_agg agg (cat dfs') "barcode") as [out' | e'] eqn:H2; simpl in *;
    try discriminate; [| done].
  rewrite (groupby_resolved _ _ _ b c H1), (groupby_resolved _ _ _ b c H2).
  assert (∀ l, group_values (cat l) "barcode" b c = occurrences l "barcode" b c) as Hocc
    by (intros; apply group_values_concat).
  rewrite !Hocc.
  destruct (decide (b ∈ group_keys (cat dfs) "barcode")) as [Hb | Hb],
           (decide (b ∈ group_keys (cat dfs') "barcode")) as [Hb' | Hb'];
    try done; try (by apply Hkeys in Hb); try (by apply Hkeys in Hb').
  destruct (decide (c = "barcode")); [done |].
  destruct (decide (c ∈ columns (cat dfs))) as [Hc | Hc],
           (decide (c ∈ columns (cat dfs'))) as [Hc' | Hc'];
    try done; try (by apply Hcols in Hc); by apply Hcols in Hc'.
Qed.

Lemma resolved_without_barcode df b c :
  "barcode" ∉ columns df → b ≠ NaN → resolved df b c = None.
Proof.
  intros Hcol Hb. unfold resolved, lookup_row.
  assert (filter (fun r => cell_at (columns df) r "barcode" = b) (rows df) = []) as ->.
  { induction (rows df) as [| r rs IH]; [done |].
    rewrite filter_cons, decide_False; [done |]. by rewrite cell_at_missing. }
  by destruct (has_column df c).
Qed.

Lemma merge_tables_groupby pol dfs :
  pol = "average" ∨ pol = "max" → dfs ≠ [] →
  "barcode" ∈ union_columns dfs →
  merge_tables dfs pol
  = groupby_agg (policy_agg pol)
      (mkDF (union_columns dfs) (dfs ≫= reindex (union_columns dfs))) "barcode".
Proof.
  intros Hpol Hne Hin. unfold merge_tables, concat. destruct dfs as [| d dfs]; [done |].
  simpl. unfold resolve_overlaps, has_column. simpl.
  rewrite bool_decide_eq_true_2 by done. by destruct Hpol as [-> | ->].
Qed.

Lemma merge_tables_no_barcode pol dfs :
  pol = "average" ∨ pol = "max" → dfs ≠ [] →
  "barcode" ∉ union_columns dfs →
  merge_tables dfs pol
  = Ok (mkDF (union_columns dfs) (dfs ≫= reindex (union_columns dfs))).
Proof.
  intros Hpol Hne Hin. unfold merge_tables, concat. destruct dfs as [| d dfs]; [done |].
  simpl. unfold resolve_overlaps, has_column. simpl.
  rewrite bool_decide_eq_false_2 by done. by destruct Hpol as [-> | ->].
Qed.

Lemma merge_tables_Permutation (R : option cell → option cell → Prop) pol dfs dfs' b c :
  (∀ o, R o o) →
  pol = "average" ∨ pol = "max" →
  failure_order_free (policy_agg pol) → dfs ≡ₚ dfs' → b ≠ NaN →
  R (ok_value (policy_agg pol (occurrences dfs "barcode" b c)))
    (ok_value (policy_agg pol (occurrences dfs' "barcode" b c))) →
  R (resolved_in (merge_tables dfs pol) b c) (resolved_in (merge_tables dfs' pol) b c).
Proof.
  intros HR Hpol Hagg Hperm Hb Hval.
  destruct dfs as [| d dfs].
  { apply Permutation_nil_l in Hperm. by subst. }
  destruct dfs' as [| d' dfs'].
  { by apply Permutation_nil_r in Hperm. }
  set (l := d :: dfs) in *. set (l' := d' :: dfs') in *.
  destruct (decide ("barcode" ∈ union_columns l)) as [Hin | Hnin].
  - rewrite !merge_tables_groupby
      by (done || by apply (union_columns_Permutation l l' _ Hperm)).
    by apply groupby_concat_Permutation.
  - rewrite !merge_tables_no_barcode
      by (done || by rewrite <- (union_columns_Permutation l l' _ Hperm)).
    simpl. rewrite !resolved_without_barcode; try done.
    simpl. by rewrite <- (union_columns_Permutation l l' _ Hperm).
Qed.

Lemma merge_tables_is_ok_Permutation pol dfs dfs' :
  pol = "average" ∨ pol = "max" →
  failure_order_free (policy_agg pol) → dfs ≡ₚ dfs' →
  is_ok (merge_tables dfs pol) = is_ok (merge_tables dfs' pol).
Proof.
  intros Hpol Hagg Hperm.
  destruct dfs as [| d dfs].
  { apply Permutation_nil_l in Hperm. by subst. }
  destruct dfs' as [| d' dfs'].
  { by apply Permutation_nil_r in Hperm. }
  set (l := d :: dfs) in *. set (l' := d' :: dfs') in *.
  destruct (decide ("barcode" ∈ union_columns l)) as [Hin | Hnin].
  - rewrite !merge_tables_groupby
      by (done || by apply (union_columns_Permutation l l' _ Hperm)).
    by apply groupby_concat_is_ok.
  - rewrite !merge_tables_no_barcode
      by (done || by rewrite <- (union_columns_Permutation l l' _ Hperm)).
    done.
Qed.

(** *** The order of strings *)

Lemma string_compare_refl (s : string) : String.compare s s = Eq.
Proof.
  induction s as [| c s IH]; simpl; [done |].
  unfold Ascii.compare. by rewrite N.compare_refl.
Qed.

Lemma string_compare_lt_trans (s1 s2 s3 : string) :
  String.compare s1 s2 = Lt → String.compare s2 s3 = Lt → String.compare s1 s3 = Lt.
Proof.
  revert s2 s3. induction s1 as [| c1 s1 IH]; intros [| c2 s2] [| c3 s3]; simpl; try done.
  destruct (Ascii.compare c1 c2) eqn:H12; try done;
    destruct (Ascii.compare c2 c3) eqn:H23; try done.
  - apply Ascii.compare_eq_iff in H12 as ->. rewrite H23. apply IH.
  - apply Ascii.compare_eq_iff in H12 as ->. by rewrite H23.
  - apply Ascii.compare_eq_iff in H23 as <-. by rewrite H12.
  - unfold Ascii.compare in *. rewrite N.compare_lt_iff in *.
    assert (N_of_ascii c1 < N_of_ascii c3)%N as H by lia.
    apply N.compare_lt_iff in H. by rewrite H.
Qed.

Lemma string_leb_refl (s : string) : String.leb s s = true.
Proof. unfold String.leb. by rewrite string_compare_refl. Qed.

Lemma string_leb_trans (s1 s2 s3 : string) :
  String.leb s1 s2 = true → String.leb s2 s3 = true → String.leb s1 s3 = true.
Proof.
  unfold String.leb.
  destruct (String.compare s1 s2) eqn:H12; try done;
    destruct (String.compare s2 s3) eqn:H23; try done; intros _ _.
  - apply String.compare_eq_iff in H12 as ->. by rewrite H23.
  - apply String.compare_eq_iff in H12 as ->. by rewrite H23.
  - apply String.compare_eq_iff in H23 as <-. by rewrite H12.
  - by rewrite (string_compare_lt_trans _ _ _ H12 H23).
Qed.

Section maximum.

(** An order [le] that is total on the values that satisfy [D]. *)
Context {A : Type} (le : A → A → Prop) `{∀ x y, Decision (le x y)} (D : A → Prop).
Context (le_refl : ∀ x, D x → le x x) (le_trans : ∀ x y z, le x y → le y z → le x z).
Context (le_total : ∀ x y, D x → D y → le x y ∨ le y x).
Context (le_antisym : ∀ x y, le x y → le y x → x = y).

Lemma foldr_max_is_max x l :
  D x → Forall D l → is_max le (foldr (max_of le) x l) (l ++ [x]).
Proof.
  intros Hx Hl. induction Hl as [| y l Hy Hl [IHin IHle]]; simpl.
  - split; [by left |]. intros y ->%list_elem_of_singleton. by apply le_refl.
  - assert (D (foldr (max_of le) x l)) as HD.
    { apply elem_of_app in IHin as [Hin | ->%list_elem_of_singleton]; [| done].
      by eapply (proj1 (Forall_forall D l)). }
    unfold max_of at 1. case_decide as Hle.
    + split; [by right |]. intros z [-> | Hz]%elem_of_cons; [done | by apply IHle].
    + assert (le (foldr (max_of le) x l) y) as Hle'
        by (by destruct (le_total y (foldr (max_of le) x l) Hy HD)).
      split; [by left |]. intros z [-> | Hz]%elem_of_cons; [by apply le_refl |].
      eapply le_trans; [by apply IHle | done].
Qed.

Lemma is_max_unique m m' l l' : l ≡ₚ l' → is_max le m l → is_max le m' l' → m = m'.
Proof.
  intros Hp [Hin Hle] [Hin' Hle']. apply le_antisym.
  - apply Hle'. by rewrite <- Hp.
  - apply Hle. by rewrite Hp.
Qed.

Lemma foldr_max_Permutation x l y l' :
  Forall D (x :: l) → x :: l ≡ₚ y :: l' →
  foldr (max_of le) x l = foldr (max_of le) y l'.
Proof.
  intros HD Hp.
  assert (Forall D (y :: l')) as HD' by (by rewrite <- Hp).
  apply Forall_cons in HD as [? ?]. apply Forall_cons in HD' as [? ?].
  eapply is_max_unique; [| by apply foldr_max_is_max | by apply foldr_max_is_max].
  rewrite <- !Permutation_cons_append. done.
Qed.

End maximum.

(** [<=] on the numbers: a total order away from not-a-number. *)
Lemma float_le_refl x : x ≠ NotANumber → float_leP x x.
Proof.
  unfold float_leP. destruct x as [q | [] |]; simpl; try done.
  intros _. by apply bool_decide_eq_true_2.
Qed.

Lemma float_le_trans x y z : float_leP x y → float_leP y z → float_leP x z.
Proof.
  unfold float_leP. destruct x as [a | [] |], y as [b | [] |], z as [c | [] |]; simpl;
    try done.
  rewrite !bool_decide_eq_true. apply Qcle_trans.
Qed.

Lemma float_le_total x y :
  x ≠ NotANumber → y ≠ NotANumber → float_leP x y ∨ float_leP y x.
Proof.
  unfold float_leP. destruct x as [a | [] |], y as [b | [] |]; simpl; try done; auto.
  intros _ _. rewrite !bool_decide_eq_true.
  destruct (Qclt_le_dec a b); [left; by apply Qclt_le_weak | by right].
Qed.

Lemma float_le_antisym x y : float_leP x y → float_leP y x → x = y.
Proof.
  unfold float_leP. destruct x as [a | [] |], y as [b | [] |]; simpl; try done.
  rewrite !bool_decide_eq_true. intros H1 H2. f_equal. by apply Qcle_antisym.
Qed.

Lemma numbers_not_nan s : Forall (fun x => x ≠ NotANumber) (numbers s).
Proof.
  unfold numbers. induction s as [| v s IH]; simpl; [done |].
  destruct v; simpl; try done; by constructor.
Qed.

Lemma float_max_list_Permutation l l' :
  Forall (fun x => x ≠ NotANumber) l → l ≡ₚ l' → float_max_list l = float_max_list l'.
Proof.
  intros HD Hp. destruct l as [| x l], l' as [| y l']; simpl.
  - done.
  - by apply Permutation_nil_l in Hp.
  - by apply Permutation_nil_r in Hp.
  - f_equal.
    assert (∀ a b, float_max a b = max_of float_leP a b) as Heq.
    { intros a b. unfold float_max, max_of, float_leP. case_decide as E.
      - by rewrite E.
      - by apply not_true_is_false in E as ->. }
    rewrite !(foldr_ext float_max (max_of float_leP) _ _ _ _ Heq eq_refl eq_refl).
    apply (foldr_max_Permutation float_leP (fun x => x ≠ NotANumber)); try done.
    + apply float_le_refl.
    + apply float_le_trans.
    + apply float_le_total.
    + apply float_le_antisym.
Qed.

Lemma string_max_list_Permutation x l y l' :
  x :: l ≡ₚ y :: l' → foldr string_max x l = foldr string_max y l'.
Proof.
  intros Hp.
  assert (∀ a b, string_max a b = max_of string_le a b) as Heq.
  { intros a b. unfold string_max, max_of. case_decide as E; unfold string_le in E.
    - by rewrite E.
    - by apply not_true_is_false in E as ->. }
  rewrite !(foldr_ext string_max (max_of string_le) _ _ _ _ Heq eq_refl eq_refl).
  apply (foldr_max_Permutation string_le (fun _ => True)); try done.
  - intros s _. apply string_leb_refl.
  - apply string_leb_trans.
  - intros s t _ _. apply String.leb_total.
  - apply String.leb_antisym.
  - by apply Forall_true.
Qed.

Lemma numbers_Permutation s s' : s ≡ₚ s' → numbers s ≡ₚ numbers s'.
Proof. intros Hp. unfold numbers. by rewrite Hp. Qed.

Lemma strings_of_Permutation s s' : s ≡ₚ s' → strings_of s ≡ₚ strings_of s'.
Proof. intros Hp. unfold strings_of. by rewrite Hp. Qed.

Lemma has_str_Permutation s s' : s ≡ₚ s' → has_str s = has_str s'.
Proof.
  intros Hp%strings_of_Permutation. unfold has_str.
  destruct (strings_of s) as [| x xs], (strings_of s') as [| y ys]; try done.
  - by apply Permutation_nil_l in Hp.
  - by apply Permutation_nil_r in Hp.
Qed.

Lemma has_nan_Permutation s s' : s ≡ₚ s' → has_nan s = has_nan s'.
Proof. intros Hp. unfold has_nan. apply bool_decide_ext. by rewrite Hp. Qed.

Lemma series_max_order_free : order_free series_max.
Proof.
  intros s s' Hp. unfold series_max.
  pose proof (numbers_Permutation s s' Hp) as Hn.
  pose proof (strings_of_Permutation s s' Hp) as Hs.
  rewrite (has_nan_Permutation s s' Hp).
  destruct (strings_of s) as [| x xs], (strings_of s') as [| y ys].
  - by rewrite (float_max_list_Permutation _ _ (numbers_not_nan s) Hn).
  - by apply Permutation_nil_l in Hs.
  - by apply Permutation_nil_r in Hs.
  - assert (bool_decide (numbers s = []) = bool_decide (numbers s' = [])) as ->.
    { apply bool_decide_ext. split; intros E; rewrite E in Hn.
      - by apply Permutation_nil_l in Hn.
      - by apply Permutation_nil_r in Hn. }
    destruct (_ && _); [| done]. by rewrite (string_max_list_Permutation _ _ _ _ Hs).
Qed.

Lemma to_float64_is_double x : is_double (to_float64 x).
Proof.
  unfold is_double. destruct x as [q | |]; simpl; try done.
  destruct (round64 q) as [q' | |] eqn:E; simpl; try done.
  by apply round64_idempotent in E.
Qed.

Lemma round64_0 : round64 0 = Finite 0.
Proof. reflexivity. Qed.

Lemma fadd_comm x y : fadd x y = fadd y x.
Proof.
  destruct x as [a | s |], y as [b | s' |]; simpl; try done.
  - f_equal. ring.
  - destruct s, s'; done.
Qed.

Lemma fadd_0_r x : is_double x → fadd x (Finite 0) = x.
Proof.
  unfold is_double. destruct x as [a | s |]; simpl; try done.
  intros H. replace (a + 0)%Qc with a by ring. done.
Qed.

Lemma fadd_0_l x : is_double x → fadd (Finite 0) x = x.
Proof. intros H. rewrite fadd_comm. by apply fadd_0_r. Qed.

Lemma fsub_0_r x : is_double x → fsub x (Finite 0) = x.
Proof.
  intros H. unfold fsub. simpl. replace (- 0)%Qc with 0%Qc by ring. by apply fadd_0_r.
Qed.

(** The compensation after a first value is nothing. *)
Lemma fsub_diag_compensation x :
  (if is_nan (fsub x x) then Finite 0 else fsub x x) = Finite 0.
Proof.
  destruct x as [a | [] |]; simpl; try done.
  unfold fsub. simpl. replace (a + - a)%Qc with 0%Qc by ring. done.
Qed.

Lemma kahan_sum_one a : is_double a → kahan_sum (Finite 0) (Finite 0) [a] = a.
Proof. intros H. cbn [kahan_sum]. by rewrite (fsub_0_r a H), (fadd_0_l a H). Qed.

Lemma kahan_sum_two a b :
  is_double a → is_double b → kahan_sum (Finite 0) (Finite 0) [a; b] = fadd a b.
Proof.
  intros Ha Hb. cbn [kahan_sum].
  rewrite (fsub_0_r a Ha), (fadd_0_l a Ha), (fsub_0_r a Ha), fsub_diag_compensation.
  by rewrite (fsub_0_r b Hb).
Qed.

Lemma Permutation_two {A} (x y : A) l : [x; y] ≡ₚ l → l = [x; y] ∨ l = [y; x].
Proof.
  intros Hp. pose proof (Permutation_length Hp) as Hlen.
  destruct l as [| a [| b [| ? ?]]]; try discriminate.
  apply Permutation_length_2 in Hp as [[-> ->] | [-> ->]]; auto.
Qed.

(** The mean of a group does not fail in one order and succeed in another. *)
Lemma group_mean_failure_order_free : failure_order_free group_mean.
Proof.
  intros s s' Hp. unfold group_mean. rewrite (has_str_Permutation s s' Hp).
  destruct (has_str s'); [done |]. by destruct (numbers s), (numbers s').
Qed.

(** The mean of at most two values does not depend on their order. *)
Lemma group_mean_le_two s s' :
  s ≡ₚ s' → (length (numbers s) ≤ 2)%nat → group_mean s = group_mean s'.
Proof.
  intros Hp Hlen. unfold group_mean. rewrite (has_str_Permutation s s' Hp).
  destruct (has_str s'); [done |].
  pose proof (numbers_Permutation s s' Hp) as Hn.
  destruct (numbers s) as [| x [| y [| ? ?]]] eqn:E; simpl in Hlen; [| | | lia].
  - by apply Permutation_nil_l in Hn as <-.
  - by apply Permutation_singleton_l in Hn as <-.
  - apply Permutation_two in Hn as [-> | ->]; [done |].
    cbn [map length]. f_equal. f_equal. f_equal.
    rewrite !kahan_sum_two by apply to_float64_is_double. apply fadd_comm.
Qed.

Lemma load_tiles_Permutation tile_files tile_files' fs all_data :
  tile_files ≡ₚ tile_files' →
  load_tiles tile_files fs = Ok all_data →
  ∃ all_data', load_tiles tile_files' fs = Ok all_data' ∧ all_data ≡ₚ all_data'.
Proof.
  intros Hp. revert all_data.
  induction Hp as [| p l l' _ IH | p q l | l l' l'' _ IH1 _ IH2]; intros all_data; simpl.
  - intros [= <-]. eauto.
  - destruct (String.eqb _ _); [| apply IH].
    destruct (read_csv p fs) as [d |]; simpl; [| discriminate].
    destruct (load_tiles l fs) as [ds |]; simpl; [| discriminate].
    intros [= <-]. destruct (IH ds eq_refl) as (ds' & -> & Hds). simpl. eauto.
  - destruct (String.eqb (suffix q) _), (String.eqb (suffix p) _); simpl;
      try destruct (read_csv q fs) as [dq |]; simpl; try discriminate;
      try destruct (read_csv p fs) as [dp |]; simpl; try discriminate;
      destruct (load_tiles l fs) as [ds |]; simpl; try discriminate;
      intros [= <-]; eexists; (split; [reflexivity |]); try done.
    apply perm_swap.
  - intros H. destruct (IH1 _ H) as (a' & H' & Hp').
    destruct (IH2 _ H') as (a'' & H'' & Hp''). exists a''. split; [done | by etrans].
Qed.

Lemma policy_agg_failure_order_free pol : failure_order_free (policy_agg pol).
Proof.
  unfold policy_agg. destruct (String.eqb pol "average").
  - apply group_mean_failure_order_free.
  - apply order_free_failure, series_max_order_free.
Qed.

Lemma ok_value_is_Some {A} (r : result A) : is_Some (ok_value r) ↔ is_ok r = true.
Proof.
  destruct r; simpl; split; try done; by intros [? ?].
Qed.

(** Claim C6, as amended. Reordering the list of tile paths reorders the
    tables read. Under [max], reordering the tables changes the value of no
    column for no barcode of the merged table. Under [average] it changes
    neither whether the merge fails nor which barcodes and columns hold a
    value, and it leaves the value as it is where the barcode has at most
    two values in the column; the mean of more values is rounded along the
    way and may differ in the last place. Under [first] there are tables for
    which the order decides the value. *)
Theorem merge_order_and_policies :
  (∀ tile_files tile_files' fs all_data,
     tile_files ≡ₚ tile_files' → load_tiles tile_files fs = Ok all_data →
     ∃ all_data', load_tiles tile_files' fs = Ok all_data' ∧ all_data ≡ₚ all_data') ∧
  (∀ all_data all_data' b c,
     all_data ≡ₚ all_data' → b ≠ NaN →
     resolved_in (merge_tables all_data "max") b c
     = resolved_in (merge_tables all_data' "max") b c) ∧
  (∀ all_data all_data' b c,
     all_data ≡ₚ all_data' → b ≠ NaN →
     is_ok (merge_tables all_data "average") = is_ok (merge_tables all_data' "average") ∧
     (is_Some (resolved_in (merge_tables all_data "average") b c)
      ↔ is_Some (resolved_in (merge_tables all_data' "average") b c)) ∧
     ((length (numbers (occurrences all_data "barcode" b c)) ≤ 2)%nat →
      resolved_in (merge_tables all_data "average") b c
      = resolved_in (merge_tables all_data' "average") b c)) ∧
  (∃ all_data all_data' b c,
     all_data ≡ₚ all_data' ∧ b ≠ NaN ∧
     resolved_in (merge_tables all_data "first") b c
     ≠ resolved_in (merge_tables all_data' "first") b c).
Proof.
  split_and!.
  - intros. by eapply load_tiles_Permutation.
  - intros dfs dfs' b c Hp Hb.
    apply (merge_tables_Permutation eq); auto using policy_agg_failure_order_free.
    change (policy_agg "max") with series_max.
    by rewrite (series_max_order_free _ _ (occurrences_Permutation dfs dfs' "barcode" b c Hp)).
  - intros dfs dfs' b c Hp Hb.
    pose proof (occurrences_Permutation dfs dfs' "barcode" b c Hp) as Hocc.
    split_and!.
    + apply merge_tables_is_ok_Permutation; auto using policy_agg_failure_order_free.
    + apply (merge_tables_Permutation (fun x y => is_Some x ↔ is_Some y));
        auto using policy_agg_failure_order_free.
      change (policy_agg "average") with group_mean.
      by rewrite !ok_value_is_Some, (group_mean_failure_order_free _ _ Hocc).
    + intros Hlen.
      apply (merge_tables_Permutation eq); auto using policy_agg_failure_order_free.
      change (policy_agg "average") with group_mean.
      by rewrite (group_mean_le_two _ _ Hocc Hlen).
  - exists [one_spot "X" 100; one_spot "X" 300], [one_spot "X" 300; one_spot "X" 100],
      (Str "X"), "read_count".
    split_and!; [apply perm_swap | done |].
    intros H. vm_compute in H. discriminate.
Qed.

(** Two tiles sharing a barcode, averaged in either order. *)
Lemma merge_order_and_policies_witness :
  [one_spot "X" 100; one_spot "X" 300] ≡ₚ [one_spot "X" 300; one_spot "X" 100] ∧
  Str "X" ≠ NaN ∧
  (length (numbers (occurrences [one_spot "X" 100; one_spot "X" 300] "barcode" (Str "X")
                      "read_count")) ≤ 2)%nat ∧
  resolved_in (merge_tables [one_spot "X" 100; one_spot "X" 300] "average") (Str "X") "read_count"
  = resolved_in (merge_tables [one_spot "X" 300; one_spot "X" 100] "average") (Str "X")
      "read_count".
Proof.
  assert (Str "X" ≠ NaN) as Hb by by_evaluation.
  assert (length (numbers (occurrences [one_spot "X" 100; one_spot "X" 300] "barcode" (Str "X")
                             "read_count")) ≤ 2)%nat as Hlen by (vm_compute; lia).
  split_and!; [apply perm_swap | exact Hb | exact Hlen |].
  exact (proj2 (proj2 (proj1 (proj2 (proj2 merge_order_and_policies)) _ _ (Str "X") "read_count"
                         (perm_swap _ _ _) Hb)) Hlen).
Defined.

(** Claim C6 fails as stated: three tiles hold 0.1, 0.3 and 0.7 for one
    barcode; averaged in the order given the mean is 0.3666666666666667,
    with the last two tiles exchanged it is 0.36666666666666664. *)
Lemma average_depends_on_tile_order :
  ∃ t1 t2 t3,
    tenth_tiles = [t1; t2; t3] ∧ [t1; t2; t3] ≡ₚ [t1; t3; t2] ∧ Str "X" ≠ NaN ∧
    resolved_in (merge_tables [t1; t2; t3] "average") (Str "X") "read_count"
    = Some (double (3666666666666667 # 10000000000000000)) ∧
    resolved_in (merge_tables [t1; t3; t2] "average") (Str "X") "read_count"
    = Some (double (36666666666666664 # 100000000000000000)) ∧
    resolved_in (merge_tables [t1; t2; t3] "average") (Str "X") "read_count"
    ≠ resolved_in (merge_tables [t1; t3; t2] "average") (Str "X") "read_count".
Proof.
  eexists _, _, _. split; [reflexivity |].
  split; [apply perm_skip, perm_swap |].
  split_and!; by_evaluation.
Qed.

Lemma group_values_single df r key b c :
  rows df = [r] → cell_at (columns df) r key = b →
  group_values df key b c = [cell_at (columns df) r c].
Proof.
  intros Hr Hk. unfold group_values. rewrite Hr, filter_cons, decide_True by done. done.
Qed.

Lemma group_mean_of_two v1 v2 :
  has_str [v1; v2] = false → group_mean [v1; v2] = Ok (mean_of_present [v1; v2]).
Proof.
  intros H. unfold group_mean, mean_of_present. rewrite H.
  assert (length (numbers [v1; v2]) ≤ 2)%nat as Hlen.
  { destruct v1, v2; simpl; lia. }
  destruct (numbers [v1; v2]) as [| x [| y [| ? ?]]]; simpl in Hlen; [| | | lia].
  - done.
  - cbn [map length foldl]. do 3 f_equal.
    rewrite kahan_sum_one, fadd_0_l by apply to_float64_is_double. done.
  - cbn [map length foldl]. do 3 f_equal.
    rewrite kahan_sum_two, fadd_0_l by apply to_float64_is_double. done.
Qed.

Lemma group_mean_of_text s : has_str s = true → ∃ msg, group_mean s = Err (TypeError msg).
Proof. intros H. unfold group_mean. rewrite H. eauto. Qed.

Lemma group_mean_err s e : group_mean s = Err e → ∃ msg, e = TypeError msg.
Proof.
  unfold group_mean. destruct (has_str s); [intros [= <-]; eauto |].
  by destruct (numbers s).
Qed.

Lemma groupby_agg_err agg df key e :
  groupby_agg agg df key = Err e →
  ∃ k c, agg (group_values df key k c) = Err e.
Proof.
  unfold groupby_agg.
  destruct (mapM _ (group_keys df key)) as [rs | e'] eqn:Hrs; simpl; [discriminate |].
  intros [= ->]. apply mapM_err in Hrs as (k & Hk & Hrow). simpl in Hrow.
  destruct (mapM _ _) as [vs | e'] eqn:Hvs; simpl in Hrow; [discriminate |].
  injection Hrow as ->. apply mapM_err in Hvs as (c & Hc & Hv). eauto.
Qed.

Lemma length_one_of_NoDup (l : list cell) b :
  NoDup l → (∀ x, x ∈ l → x = b) → b ∈ l → length l = 1%nat.
Proof.
  intros Hnd Hall Hb. destruct l as [| x [| y l]]; simpl.
  - by apply elem_of_nil in Hb.
  - done.
  - assert (x = b) as -> by (apply Hall; by left).
    assert (y = b) as -> by (apply Hall; right; by left).
    apply NoDup_cons in Hnd as [Hn _]. destruct Hn. by left.
Qed.

(** Two tiles of one row each that carry the same barcode, concatenated. *)
Lemma two_single_row_tiles t1 t2 r1 r2 b :
  rows t1 = [r1] → rows t2 = [r2] →
  cell_at (columns t1) r1 "barcode" = b → cell_at (columns t2) r2 "barcode" = b →
  b ≠ NaN →
  let cat := mkDF (union_columns [t1; t2]) ([t1; t2] ≫= reindex (union_columns [t1; t2])) in
  merge_tables [t1; t2] "average" = groupby_agg group_mean cat "barcode" ∧
  (∀ k, k ∈ group_keys cat "barcode" ↔ k = b) ∧
  (∀ c, group_values cat "barcode" b c
        = [cell_at (columns t1) r1 c; cell_at (columns t2) r2 c]).
Proof.
  intros Hr1 Hr2 Hb1 Hb2 Hb cat. set (dfs := [t1; t2]) in *.
  assert ("barcode" ∈ columns t1) as Hcol.
  { destruct (decide ("barcode" ∈ columns t1)) as [? | Hn]; [done |].
    apply (cell_at_missing _ r1) in Hn. congruence. }
  assert ("barcode" ∈ union_columns dfs) as Hu.
  { apply elem_of_union_columns. exists t1. split; [by left | done]. }
  split_and!.
  - by rewrite merge_tables_groupby by (auto || done).
  - intros k. unfold cat. rewrite merge_concat_keys. unfold key_values, dfs. simpl.
    rewrite Hr1, Hr2. simpl. rewrite Hb1, Hb2, !elem_of_cons, elem_of_nil.
    split; [intros [_ [-> | [-> | []]]]; done | intros ->; split; [done | by left]].
  - intros c. unfold cat. rewrite group_values_concat. unfold occurrences, dfs. simpl.
    rewrite (group_values_single t1 r1), (group_values_single t2 r2) by done. done.
Qed.

(** Claim C5, as amended. For two tiles of one row each that carry the same
    barcode, merging under [average] fails with a [TypeError] when a column
    other than the barcode holds text in one of the two rows. Otherwise it
    gives one row, and in every other column the mean of the values present
    in the two rows, a missing value being left out of the mean, as
    [float64] arithmetic gives it: a value alone is kept, and two values
    give half their sum, exactly so whenever the sum and its half are
    doubles. Read counts of 100 and 300 give 200, and 100 with a missing
    value gives 100. *)
Theorem average_of_two_single_row_tiles :
  (∀ t1 t2 r1 r2 b,
     rows t1 = [r1] → rows t2 = [r2] →
     cell_at (columns t1) r1 "barcode" = b → cell_at (columns t2) r2 "barcode" = b →
     b ≠ NaN →
     ((∀ c, c ≠ "barcode" →
            has_str [cell_at (columns t1) r1 c; cell_at (columns t2) r2 c] = false) →
      ∃ out, merge_tables [t1; t2] "average" = Ok out ∧
             len out = 1%nat ∧
             ∀ c, c ≠ "barcode" → c ∈ columns t1 ∨ c ∈ columns t2 →
                  resolved out b c
                  = Some (mean_of_present [cell_at (columns t1) r1 c;
                                           cell_at (columns t2) r2 c])) ∧
     ((∃ c, c ≠ "barcode" ∧
            has_str [cell_at (columns t1) r1 c; cell_at (columns t2) r2 c] = true) →
      ∃ msg, merge_tables [t1; t2] "average" = Err (TypeError msg))) ∧
  (∀ x y : Qc,
     is_double (Finite x) →
     mean_of_present [Num x; NaN] = Num x ∧ mean_of_present [NaN; Num x] = Num x ∧
     (is_double (Finite y) → is_double (Finite (x + y)) →
      is_double (Finite ((x + y) / Qc_of_Z 2)) →
      mean_of_present [Num x; Num y] = Num ((x + y) / Qc_of_Z 2))) ∧
  mean_of_present [NaN; NaN] = NaN ∧
  resolved_in (merge_tables [one_spot "X" 100; one_spot "X" 300] "average")
    (Str "X") "read_count" = Some (Num (Qc_of_Z 200)) ∧
  mean_of_present [Num (Qc_of_Z 100); NaN] = Num (Qc_of_Z 100).
Proof.
  split_and!.
  3-5: by_evaluation.
  - intros t1 t2 r1 r2 b Hr1 Hr2 Hb1 Hb2 Hb.
    destruct (two_single_row_tiles t1 t2 r1 r2 b Hr1 Hr2 Hb1 Hb2 Hb)
      as (Hmerge & Hkeys & Hocc).
    set (dfs := [t1; t2]) in *.
    set (cat := mkDF (union_columns dfs) (dfs ≫= reindex (union_columns dfs))) in *.
    split.
    + intros Hnum.
      assert (is_ok (groupby_agg group_mean cat "barcode") = true) as Hok.
      { apply groupby_agg_is_ok. intros k c Hk Hc Hne. apply Hkeys in Hk as ->.
        rewrite Hocc, group_mean_of_two by (by apply Hnum). done. }
      rewrite Hmerge.
      destruct (groupby_agg group_mean cat "barcode") as [out | e] eqn:Hout; [| discriminate].
      exists out. split_and!; [done | |].
      * apply groupby_agg_ok in Hout as (rs & -> & Hrs). unfold len. simpl.
        rewrite <- (Forall2_length _ _ _ Hrs).
        apply (length_one_of_NoDup _ b); [apply NoDup_group_keys | | by apply Hkeys].
        intros x. apply Hkeys.
      * intros c Hne Hc. rewrite (groupby_resolved _ _ _ b c Hout).
        rewrite decide_True by (by apply Hkeys). rewrite decide_False by done.
        rewrite decide_True.
        -- rewrite Hocc, group_mean_of_two by (by apply Hnum). done.
        -- unfold cat. simpl. apply elem_of_union_columns.
           destruct Hc; [exists t1 | exists t2]; (split; [| done]); unfold dfs;
             [by left | right; by left].
    + intros (c & Hne & Hstr). rewrite Hmerge.
      destruct (groupby_agg group_mean cat "barcode") as [out | e] eqn:Hout.
      * assert (is_ok (groupby_agg group_mean cat "barcode") = true) as Hok
          by (by rewrite Hout).
        rewrite groupby_agg_is_ok in Hok.
        assert (c ∈ columns cat) as Hc.
        { destruct (decide (c ∈ columns cat)) as [? | Hn]; [done |]. exfalso.
          assert (∀ t r, t ∈ dfs → cell_at (columns t) r c = NaN) as Hmiss.
          { intros t r Ht. apply cell_at_missing. intros Hin. apply Hn.
            unfold cat. simpl. apply elem_of_union_columns. eauto. }
          rewrite !Hmiss in Hstr by (unfold dfs; set_solver). done. }
        specialize (Hok b c (proj2 (Hkeys b) eq_refl) Hc Hne).
        rewrite Hocc in Hok. apply group_mean_of_text in Hstr as [msg Hstr].
        by rewrite Hstr in Hok.
      * apply groupby_agg_err in Hout as (k & c' & Hout).
        apply group_mean_err in Hout as [msg ->]. eauto.
  - intros x y Hx.
    assert (round64 x = Finite x) as Ex by exact Hx.
    assert (∀ q, round64 q = Finite q → round64 (q / Qc_of_nat 1) = Finite q) as Hone.
    { intros q Hq. replace (q / Qc_of_nat 1)%Qc with q; [done |].
      assert (Qc_of_nat 1 = 1%Qc) as -> by (by apply Qc_is_canon).
      field. discriminate. }
    split_and!.
    + unfold mean_of_present. cbn [numbers omap number map to_float64 length foldl].
      simpl. rewrite Ex. simpl. replace (0 + x)%Qc with x by ring. rewrite Ex. simpl.
      by rewrite (Hone x Ex).
    + unfold mean_of_present. simpl. rewrite Ex. simpl.
      replace (0 + x)%Qc with x by ring. rewrite Ex. simpl.
      by rewrite (Hone x Ex).
    + intros Hy Hxy Hhalf.
      assert (round64 y = Finite y) as Ey by exact Hy.
      assert (round64 (x + y) = Finite (x + y)%Qc) as Exy by exact Hxy.
      assert (round64 ((x + y) / Qc_of_Z 2) = Finite ((x + y) / Qc_of_Z 2)%Qc) as Eh
        by exact Hhalf.
      unfold mean_of_present. simpl. rewrite Ex, Ey. simpl.
      replace (0 + x)%Qc with x by ring. rewrite Ex. simpl. rewrite Exy. simpl.
      rewrite ?bool_decide_eq_false_2 by done.
      assert (Qc_of_nat 2 = Qc_of_Z 2) as -> by done. by rewrite Eh.
Qed.

(** Read counts 100 and 300 for one barcode average to 200. *)
Lemma average_of_two_single_row_tiles_witness :
  rows (one_spot "X" 100) = [[Str "X"; qz 100]] ∧
  rows (one_spot "X" 300) = [[Str "X"; qz 300]] ∧
  Str "X" ≠ NaN ∧
  ∃ out, merge_tables [one_spot "X" 100; one_spot "X" 300] "average" = Ok out ∧
         len out = 1%nat ∧
         resolved out (Str "X") "read_count" = Some (Num (Qc_of_Z 200)).
Proof.
  assert (Str "X" ≠ NaN) as Hb by by_evaluation.
  split_and!; [reflexivity | reflexivity | exact Hb |].
  destruct (proj1 (proj1 average_of_two_single_row_tiles (one_spot "X" 100) (one_spot "X" 300)
                     [Str "X"; qz 100] [Str "X"; qz 300] (Str "X") eq_refl eq_refl eq_refl
                     eq_refl Hb))
    as (out & Hout & Hlen & Hval).
  { intros c Hc. unfold cell_at. simpl. repeat case_decide; try done; reflexivity. }
  exists out. split_and!; [exact Hout | exact Hlen |].
  rewrite (Hval "read_count"); [| by_evaluation | left; by_evaluation].
  f_equal. by_evaluation.
Defined.

(** Claim C5 fails as stated: two tiles of one row each carry the same
    barcode and the same region label; the label cannot be averaged and the
    merge fails. And two tiles hold the largest double: their sum is beyond
    the doubles, and the merged value is infinity, not their mean. *)
Lemma average_of_text_attribute_fails :
  rows (one_labelled_spot "X" "tumor" 100) = [[Str "X"; Str "tumor"; qz 100]] ∧
  rows (one_labelled_spot "X" "tumor" 300) = [[Str "X"; Str "tumor"; qz 300]] ∧
  merge_tables [one_labelled_spot "X" "tumor" 100; one_labelled_spot "X" "tumor" 300] "average"
  = Err (TypeError "agg function failed [how->mean,dtype->object]") ∧
  double max_double = Num (Q2Qc max_double) ∧
  resolved_in (merge_tables [one_value "X" (double max_double);
                             one_value "X" (double max_double)] "average")
    (Str "X") "read_count" = Some (Inf false).
Proof. split_and!; by_evaluation. Qed.

(** ** Directories and file names *)

Lemma is_file_files fs fs' p : fs_files fs' = fs_files fs → is_file fs' p = is_file fs p.
Proof. intros H. unfold is_file. by rewrite H. Qed.

Lemma under_a_file_files fs fs' p :
  fs_files fs' = fs_files fs → under_a_file fs' p = under_a_file fs p.
Proof.
  intros H. unfold under_a_file.
  induction (prefixes (path_parent p)) as [| q l IH]; simpl; [done |].
  by rewrite IH, (is_file_files _ _ _ H).
Qed.

Lemma is_dir_grows fs fs' p : fs_grows fs fs' → is_dir fs p = true → is_dir fs' p = true.
Proof.
  intros [_ Hd] H. unfold is_dir in *.
  apply bool_decide_eq_true in H. apply bool_decide_eq_true.
  destruct H as [H | H]; [by left | right; by apply Hd].
Qed.

Lemma in_place_grows fs fs' p : fs_grows fs fs' → in_place fs p → in_place fs' p.
Proof.
  intros [Hf Hd] (Hu & Hi & Hp). repeat split.
  - by rewrite (under_a_file_files _ _ _ Hf).
  - by rewrite (is_file_files _ _ _ Hf).
  - by etrans.
Qed.

Lemma mkdir_parents_in_place p fs fs' :
  mkdir_parents p fs = Ok fs' → in_place fs' p ∧ fs_grows fs fs'.
Proof.
  unfold mkdir_parents.
  destruct (under_a_file fs p) eqn:Hu; [discriminate |].
  destruct (is_file fs p) eqn:Hi; [discriminate |].
  intros [= <-]. split; [repeat split | split]; simpl; try done.
  - apply union_subseteq_r.
  - apply union_subseteq_l.
Qed.

Lemma mkdir_parents_again p fs : in_place fs p → mkdir_parents p fs = Ok fs.
Proof.
  intros (Hu & Hi & Hp). unfold mkdir_parents. rewrite Hu, Hi.
  destruct fs as [dirs files]. simpl in *. do 2 f_equal.
  rewrite (union_comm_L dirs). by apply subseteq_union_1_L.
Qed.

Lemma mkdir_made p fs fs' :
  mkdir p fs = Ok fs' → (under_a_file fs' p = false ∧ is_dir fs' p = true) ∧ fs_grows fs fs'.
Proof.
  unfold mkdir.
  destruct (under_a_file fs p) eqn:Hu; [discriminate |].
  destruct (is_dir fs p) eqn:Hd.
  { intros [= <-]. repeat split; [done.. | apply fs_grows_refl]. }
  destruct (is_file fs p) eqn:Hi; [discriminate |].
  destruct (is_dir fs (path_parent p)); [| discriminate].
  intros [= <-]. repeat split; simpl; try done.
  - unfold is_dir. apply bool_decide_eq_true. right. simpl. set_solver.
  - apply union_subseteq_l.
Qed.

Lemma mkdir_again p fs :
  under_a_file fs p = false → is_dir fs p = true → mkdir p fs = Ok fs.
Proof. intros Hu Hd. unfold mkdir. by rewrite Hu, Hd. Qed.

Lemma fs_update_again f w : f (w_fs w) = Ok (w_fs w) → fs_update f w = (Ok tt, w).
Proof. intros H. unfold fs_update. rewrite H. by destruct w. Qed.

Lemma in_place_is_dir fs p : in_place fs p → is_dir fs p = true.
Proof.
  intros (_ & _ & Hp). unfold is_dir. apply bool_decide_eq_true.
  destruct p as [| c p]; [by left | right].
  apply Hp. apply elem_of_list_to_set. unfold prefixes.
  apply list_elem_of_fmap. exists (length (c :: p)). split.
  - by rewrite firstn_all.
  - apply elem_of_seq. simpl. lia.
Qed.

(** The five steps of [_ensure_directories], one by one. *)
Lemma ensure_directories_steps cfg w w1 :
  _ensure_directories cfg w = (Ok tt, w1) →
  fs_grows (w_fs w) (w_fs w1) ∧ w_rng w1 = w_rng w ∧
  in_place (w_fs w1) (DATA_DIR cfg) ∧ in_place (w_fs w1) (CACHE_DIR cfg) ∧
  Forall (fun p => under_a_file (w_fs w1) p = false ∧ is_dir (w_fs w1) p = true)
    [DATA_DIR cfg ++ ["raw"]; DATA_DIR cfg ++ ["filtered"]; DATA_DIR cfg ++ ["aligned"]].
Proof.
  unfold _ensure_directories. intros H.
  apply bind_ok in H as ([] & wa & Ha & H). apply fs_update_ok in Ha as (fa & Ha & ->).
  apply bind_ok in H as ([] & wb & Hb & H). apply fs_update_ok in Hb as (fb & Hb & ->).
  apply bind_ok in H as ([] & wc & Hc & H). apply fs_update_ok in Hc as (fc & Hc & ->).
  apply bind_ok in H as ([] & wd & Hd & H). apply fs_update_ok in Hd as (fd & Hd & ->).
  apply fs_update_ok in H as (fe & He & ->). simpl in *.
  apply mkdir_parents_in_place in Ha as [Pa Ga], Hb as [Pb Gb].
  apply mkdir_made in Hc as [[Uc Dc] Gc], Hd as [[Ud Dd] Gd], He as [[Ue De] Ge].
  assert (Gce : fs_grows fc fe) by (by eapply fs_grows_trans).
  assert (Gbe : fs_grows fb fe) by (by eapply fs_grows_trans).
  assert (Gae : fs_grows fa fe) by (by eapply fs_grows_trans).
  split; [by eapply fs_grows_trans | split; [done |]].
  split; [by apply (in_place_grows fa fe) | split; [by apply (in_place_grows fb fe) |]].
  repeat constructor; try done.
  - rewrite (under_a_file_files fc fe); [done | apply Gce].
  - by apply (is_dir_grows fc fe).
  - rewrite (under_a_file_files fd fe); [done | apply Ge].
  - by apply (is_dir_grows fd fe).
Qed.

(** X1. [_ensure_directories] is idempotent: once it has succeeded, calling
    it again succeeds and leaves the world as it is. *)
Theorem ensure_directories_idempotent cfg w w1 :
  _ensure_directories cfg w = (Ok tt, w1) →
  _ensure_directories cfg w1 = (Ok tt, w1).
Proof.
  intros H. apply ensure_directories_steps in H as (_ & _ & Pd & Pc & Hs).
  apply Forall_cons in Hs as [[Ua Da] Hs]. apply Forall_cons in Hs as [[Ub Db] Hs].
  apply Forall_cons in Hs as [[Uc Dc] _].
  unfold _ensure_directories.
  rewrite (bind_run _ _ w1 tt w1)
    by (apply fs_update_again; by apply mkdir_parents_again).
  rewrite (bind_run _ _ w1 tt w1)
    by (apply fs_update_again; by apply mkdir_parents_again).
  rewrite (bind_run _ _ w1 tt w1) by (apply fs_update_again; by apply mkdir_again).
  rewrite (bind_run _ _ w1 tt w1) by (apply fs_update_again; by apply mkdir_again).
  apply fs_update_again. by apply mkdir_again.
Qed.

Lemma ensure_directories_idempotent_witness :
  let w1 := snd (_ensure_directories (example_config false) qc_world) in
  _ensure_directories (example_config false) qc_world = (Ok tt, w1) ∧
  _ensure_directories (example_config false) w1 = (Ok tt, w1).
Proof.
  assert (H : _ensure_directories (example_config false) qc_world
              = (Ok tt, snd (_ensure_directories (example_config false) qc_world)))
    by (vm_compute; reflexivity).
  split; [exact H |].
  exact (ensure_directories_idempotent (example_config false) qc_world _ H).
Defined.

(** X2. When [_ensure_directories] succeeds, the data directory, the cache
    directory and the raw, filtered and aligned directories all exist as
    directories; no file was created, changed or removed, and no directory
    removed. *)
Theorem ensure_directories_creates cfg w w1 :
  _ensure_directories cfg w = (Ok tt, w1) →
  Forall (fun p => is_dir (w_fs w1) p = true) (server_directories cfg) ∧
  fs_files (w_fs w1) = fs_files (w_fs w) ∧
  fs_dirs (w_fs w) ⊆ fs_dirs (w_fs w1).
Proof.
  intros H. apply ensure_directories_steps in H as ([Hf Hd] & _ & Pd & Pc & Hs).
  split; [| done].
  apply Forall_cons in Hs as [[Ua Da] Hs]. apply Forall_cons in Hs as [[Ub Db] Hs].
  apply Forall_cons in Hs as [[Uc Dc] _].
  unfold server_directories. repeat constructor; try done; by apply in_place_is_dir.
Qed.

Lemma ensure_directories_creates_witness :
  let w1 := snd (_ensure_directories (example_config false) qc_world) in
  _ensure_directories (example_config false) qc_world = (Ok tt, w1) ∧
  Forall (fun p => is_dir (w_fs w1) p = true) (server_directories (example_config false)) ∧
  fs_files (w_fs w1) = fs_files (w_fs qc_world) ∧
  fs_dirs (w_fs qc_world) ⊆ fs_dirs (w_fs w1).
Proof.
  assert (H : _ensure_directories (example_config false) qc_world
              = (Ok tt, snd (_ensure_directories (example_config false) qc_world)))
    by (vm_compute; reflexivity).
  split; [exact H |].
  exact (ensure_directories_creates (example_config false) qc_world _ H).
Defined.

(** *** File names *)

Lemma rfind_dot_append s t :
  rfind_dot (String.append s t)
  = match rfind_dot t with
    | Some i => Some (String.length s + i)%nat
    | None => rfind_dot s
    end.
Proof.
  induction s as [| c s IH].
  - change (String.append "" t) with t. simpl. by destruct (rfind_dot t).
  - change (String.append (String c s) t) with (String c (String.append s t)).
    simpl. rewrite IH. by destruct (rfind_dot t).
Qed.

Lemma length_append s t :
  String.length (String.append s t) = (String.length s + String.length t)%nat.
Proof.
  induction s as [| c s IH]; [done |].
  change (String.append (String c s) t) with (String c (String.append s t)).
  simpl. by rewrite IH.
Qed.

Lemma substring_append_skip s t n m :
  String.substring (String.length s + n) m (String.append s t) = String.substring n m t.
Proof.
  induction s as [| c s IH]; [done |].
  change (String.append (String c s) t) with (String c (String.append s t)).
  simpl. exact IH.
Qed.

Lemma substring_append_take s t :
  String.substring 0 (String.length s) (String.append s t) = s.
Proof.
  induction s as [| c s IH]; [by destruct t |].
  change (String.append (String c s) t) with (String c (String.append s t)).
  simpl. by rewrite IH.
Qed.

(** A name that ends in an extension of at least one character after a
    prefix that is not empty has that extension as its suffix. *)
Lemma suffix_of_name_append s ext :
  rfind_dot ext = Some 0%nat → (1 < String.length ext)%nat → (0 < String.length s)%nat →
  suffix_of_name (String.append s ext) = ext.
Proof.
  intros Hdot Hlen Hs. unfold suffix_of_name.
  rewrite rfind_dot_append, Hdot, length_append.
  replace (0 <? String.length s + 0)%nat with true by (symmetry; apply Nat.ltb_lt; lia).
  replace (String.length s + 0 <? String.length s + String.length ext - 1)%nat with true
    by (symmetry; apply Nat.ltb_lt; lia).
  simpl. rewrite substring_append_skip.
  replace (String.length s + String.length ext - (String.length s + 0))%nat
    with (String.length ext) by lia.
  apply substring_full.
Qed.

Lemma stem_of_name_append s ext :
  rfind_dot ext = Some 0%nat → (1 < String.length ext)%nat → (0 < String.length s)%nat →
  stem_of_name (String.append s ext) = s.
Proof.
  intros Hdot Hlen Hs. unfold stem_of_name.
  rewrite rfind_dot_append, Hdot, length_append.
  replace (0 <? String.length s + 0)%nat with true by (symmetry; apply Nat.ltb_lt; lia).
  replace (String.length s + 0 <? String.length s + String.length ext - 1)%nat with true
    by (symmetry; apply Nat.ltb_lt; lia).
  simpl. rewrite Nat.add_0_r. apply substring_append_take.
Qed.

Lemma path_name_snoc (dir : Path) (name : string) : path_name (dir ++ [name]) = name.
Proof. unfold path_name. apply last_last. Qed.

Lemma path_parent_snoc (dir : Path) (name : string) : path_parent (dir ++ [name]) = dir.
Proof. unfold path_parent. apply removelast_last. Qed.

Lemma append_assoc (s t u : string) :
  String.append (String.append s t) u = String.append s (String.append t u).
Proof.
  induction s as [| c s IH]; [done |].
  change (String.append (String c s) t) with (String c (String.append s t)).
  change (String.append (String c (String.append s t)) u)
    with (String c (String.append (String.append s t) u)).
  by rewrite IH.
Qed.

Lemma filter_output_path_is_csv input_file output_dir :
  suffix (filter_output_path input_file output_dir) = ".csv" ∧
  path_parent (filter_output_path input_file output_dir) = output_dir ∧
  stem (filter_output_path input_file output_dir) = String.append (stem input_file) "_filtered".
Proof.
  unfold filter_output_path, suffix, stem. rewrite path_name_snoc, path_parent_snoc.
  change "_filtered.csv" with (String.append "_filtered" ".csv").
  rewrite <- append_assoc.
  assert (Hlen : (0 < String.length (String.append (stem_of_name (path_name input_file))
                                       "_filtered"))%nat)
    by (rewrite length_append; simpl; lia).
  split; [| split; [done |]].
  - apply suffix_of_name_append; [done | simpl; lia | done].
  - apply stem_of_name_append; [done | simpl; lia | done].
Qed.

(** X3. The file a call of [filter_quality] that returns names as its
    output, in a dry run as in a real one, always carries the suffix [.csv],
    whatever the input file is called, lies in the output directory, and
    its stem is the stem of the input file followed by [_filtered]: the
    tools that read tables accept it as input. *)
Theorem filter_output_is_csv np_sum cfg input_file output_dir min_reads min_genes
    max_mt_percent w r :
  fst (filter_quality np_sum cfg input_file output_dir min_reads min_genes max_mt_percent w)
  = Ok r →
  suffix (fq_output_file r) = ".csv" ∧
  path_parent (fq_output_file r) = output_dir ∧
  stem (fq_output_file r) = String.append (stem input_file) "_filtered".
Proof.
  intros Hrun.
  assert (fq_output_file r = filter_output_path input_file output_dir) as ->.
  { destruct (DRY_RUN cfg) eqn:Hdry.
    - destruct (filter_quality_dry_run np_sum cfg w input_file output_dir min_reads min_genes
                  max_mt_percent Hdry) as (_ & Hr & _).
      by rewrite (Hr r Hrun).
    - destruct (filter_quality np_sum cfg input_file output_dir min_reads min_genes
                  max_mt_percent w) as [res w'] eqn:Hq.
      simpl in Hrun. subst res.
      apply filter_quality_ok in Hq as (data & out & _ & _ & _ & _ & _ & _ & Hst); [| done].
      by apply filter_stats_output in Hst. }
  apply filter_output_path_is_csv.
Qed.

Lemma filter_output_is_csv_witness :
  fst (filter_example qc_world) = Ok qc_filter_result ∧
  suffix (fq_output_file qc_filter_result) = ".csv" ∧
  path_parent (fq_output_file qc_filter_result) = ["out"] ∧
  stem (fq_output_file qc_filter_result) = "spots_filtered".
Proof.
  assert (Hrun : fst (filter_example qc_world) = Ok qc_filter_result)
    by (vm_compute; reflexivity).
  split; [exact Hrun |].
  exact (filter_output_is_csv sum_in_order (example_config false) ["in"; "spots.csv"] ["out"]
           1000 200 (fz 20) qc_world qc_filter_result Hrun).
Defined.

(** ** Filtering: what a run reads, writes and reports *)

Lemma filter_stats_counts np_sum output_path before out r :
  filter_stats np_sum output_path before out = Ok r →
  barcodes_before r = before ∧ barcodes_after r = Z.of_nat (len out).
Proof.
  unfold filter_stats.
  destruct (if (0 <? len out)%nat then _ else Ok 0%Z) as [g |]; simpl; [| discriminate].
  destruct (if (0 <? len out)%nat then _ else Ok (Num (Qc_of_Z 0))) as [m1 |]; simpl; [| discriminate].
  destruct (if (0 <? len out)%nat then _ else Ok (Num (Qc_of_Z 0))) as [m2 |]; simpl; [| discriminate].
  destruct (if (0 <? len out)%nat then _ else Ok (Num (Qc_of_Z 0))) as [m3 |]; simpl; [| discriminate].
  destruct (if (0 <? before)%Z then _ else _) as [q |]; simpl; [| discriminate].
  by intros [= <-].
Qed.

(** X4. A run of [filter_quality] that returns has written, to the file it
    names, the input table cut down to the rows whose three quality values
    are numbers within the thresholds: same header, rows in their original
    order; [barcodes_before] and [barcodes_after] are the sizes of the two
    tables, so the second never exceeds the first. *)
Theorem filter_writes_passing_rows np_sum cfg input_file output_dir min_reads min_genes
    max_mt_percent w r :
  DRY_RUN cfg = false →
  let run := filter_quality np_sum cfg input_file output_dir min_reads min_genes max_mt_percent w in
  fst run = Ok r →
  ∃ data,
    let kept := filter (keeps (columns data) min_reads min_genes max_mt_percent) (rows data) in
    fs_files (w_fs w) !! input_file = Some (CsvFile data) ∧
    fs_files (w_fs (snd run)) !! fq_output_file r = Some (CsvFile (mkDF (columns data) kept)) ∧
    kept `sublist_of` rows data ∧
    barcodes_before r = Z.of_nat (len data) ∧
    barcodes_after r = Z.of_nat (length kept) ∧
    (barcodes_after r ≤ barcodes_before r)%Z.
Proof.
  intros Hdry run Hrun. subst run.
  destruct (filter_quality _ _ _ _ _ _ _ w) as [res w'] eqn:Hq. simpl in *. subst res.
  apply filter_quality_ok in Hq as (data & out & _ & _ & Hfile & Hflt & Hfs & _ & Hst); [| done].
  apply apply_filters_ok in Hflt as [_ ->].
  pose proof (filter_stats_output _ _ _ _ _ Hst) as Ho.
  apply filter_stats_counts in Hst as [Hb Ha].
  exists data. cbv zeta. split_and!; try done.
  - rewrite Hfs, Ho. apply lookup_insert_eq.
  - apply sublist_filter.
  - rewrite Ha, Hb. unfold len. simpl. apply inj_le, length_filter.
Qed.

Lemma filter_writes_passing_rows_witness :
  DRY_RUN (example_config false) = false ∧
  fst (filter_example qc_world) = Ok qc_filter_result ∧
  ∃ data,
    let kept := filter (keeps (columns data) 1000 200 (fz 20)) (rows data) in
    fs_files (w_fs qc_world) !! ["in"; "spots.csv"] = Some (CsvFile data) ∧
    fs_files (w_fs (snd (filter_example qc_world))) !! fq_output_file qc_filter_result
    = Some (CsvFile (mkDF (columns data) kept)) ∧
    kept `sublist_of` rows data ∧
    barcodes_before qc_filter_result = Z.of_nat (len data) ∧
    barcodes_after qc_filter_result = Z.of_nat (length kept) ∧
    (barcodes_after qc_filter_result ≤ barcodes_before qc_filter_result)%Z.
Proof.
  assert (Hrun : fst (filter_example qc_world) = Ok qc_filter_result)
    by (vm_compute; reflexivity).
  split; [reflexivity | split; [exact Hrun |]].
  exact (filter_writes_passing_rows sum_in_order (example_config false) ["in"; "spots.csv"] ["out"] 1000 200
           (fz 20) qc_world qc_filter_result eq_refl Hrun).
Defined.

Lemma stem_suffix_name name :
  String.append (stem_of_name name) (suffix_of_name name) = name.
Proof.
  unfold stem_of_name, suffix_of_name.
  destruct (rfind_dot name) as [i |] eqn:Hi; [| apply append_empty_r].
  destruct (_ && _); [| apply append_empty_r].
  symmetry. apply substring_split. apply rfind_dot_lt in Hi. lia.
Qed.

(** The file [filter_quality] writes to is never a file it can read. *)
Lemma filter_output_path_fresh input_file output_dir :
  suffix input_file = ".csv" → filter_output_path input_file output_dir ≠ input_file.
Proof.
  intros Hs Heq. unfold suffix in Hs.
  pose proof (stem_suffix_name (path_name input_file)) as Hname. rewrite Hs in Hname.
  assert (Hn : path_name (filter_output_path input_file output_dir) = path_name input_file)
    by (by rewrite Heq).
  unfold filter_output_path in Hn. rewrite path_name_snoc in Hn.
  unfold stem in Hn. rewrite <- Hname in Hn at 2.
  apply (inj (String.append _)) in Hn. discriminate Hn.
Qed.

(** X5. A run of [filter_quality] that returns has changed one file only,
    the output file, and that file is never the input file: the input table
    is still there, as it was, after the call, and so is every other file. *)
Theorem filter_leaves_input_untouched np_sum cfg input_file output_dir min_reads min_genes
    max_mt_percent w r :
  DRY_RUN cfg = false →
  let run := filter_quality np_sum cfg input_file output_dir min_reads min_genes max_mt_percent w in
  fst run = Ok r →
  fq_output_file r ≠ input_file ∧
  fs_files (w_fs (snd run)) !! input_file = fs_files (w_fs w) !! input_file ∧
  ∀ p, p ≠ fq_output_file r → fs_files (w_fs (snd run)) !! p = fs_files (w_fs w) !! p.
Proof.
  intros Hdry run Hrun. subst run.
  destruct (filter_quality _ _ _ _ _ _ _ w) as [res w'] eqn:Hq. simpl in *. subst res.
  apply filter_quality_ok in Hq as (data & out & _ & Hsuf & Hfile & Hflt & Hfs & _ & Hst); [| done].
  apply filter_stats_output in Hst as ->.
  pose proof (filter_output_path_fresh input_file output_dir Hsuf) as Hne.
  split_and!; [done | |].
  - rewrite Hfs. by apply lookup_insert_ne.
  - intros p Hp. rewrite Hfs. by apply lookup_insert_ne.
Qed.

Lemma filter_leaves_input_untouched_witness :
  DRY_RUN (example_config false) = false ∧
  fst (filter_example qc_world) = Ok qc_filter_result ∧
  fq_output_file qc_filter_result ≠ ["in"; "spots.csv"] ∧
  fs_files (w_fs (snd (filter_example qc_world))) !! ["in"; "spots.csv"]
  = fs_files (w_fs qc_world) !! ["in"; "spots.csv"].
Proof.
  assert (Hrun : fst (filter_example qc_world) = Ok qc_filter_result)
    by (vm_compute; reflexivity).
  split; [reflexivity | split; [exact Hrun |]].
  pose proof (filter_leaves_input_untouched sum_in_order (example_config false) ["in"; "spots.csv"] ["out"]
                1000 200 (fz 20) qc_world qc_filter_result eq_refl Hrun) as (H1 & H2 & _).
  exact (conj H1 H2).
Defined.

(** *** The checks before the dry-run switch *)

Lemma fs_read_run {A} (f : FS → A) w : fs_read f w = (Ok (f (w_fs w)), w).
Proof. done. Qed.

Lemma filter_quality_checked np_sum cfg input_file output_dir a b c w w1 :
  _ensure_directories cfg w = (Ok tt, w1) →
  filter_quality np_sum cfg input_file output_dir a b c w =
    if negb (path_exists (w_fs w1) input_file)
    then (Err (IOError "Input file not found"), w1)
    else if bool_decide (a < 0)%Z || bool_decide (b < 0)%Z
            || float_lt c (Finite 0) || float_lt (Finite (Qc_of_Z 100)) c
    then (Err (ValueError "Invalid QC parameters"), w1)
    else match mkdir_parents output_dir (w_fs w1) with
         | Err e => (Err e, w1)
         | Ok fs2 =>
             if DRY_RUN cfg
             then (Ok (filter_dry_run (filter_output_path input_file output_dir)),
                   mkWorld fs2 (w_rng w1))
             else try_except
                    (filter_quality_try np_sum input_file (filter_output_path input_file output_dir)
                       a b c)
                    "Failed to filter quality" (mkWorld fs2 (w_rng w1))
         end.
Proof.
  intros Hens. unfold filter_quality. rewrite (bind_run _ _ _ _ _ Hens).
  rewrite (bind_run _ _ _ _ _ (fs_read_run _ w1)).
  destruct (negb _); [done |]. destruct (_ || _); [done |].
  fold (filter_output_path input_file output_dir).
  unfold filter_output_path at 1. rewrite path_parent_snoc.
  unfold bind at 1. unfold fs_update.
  destruct (mkdir_parents output_dir (w_fs w1)) as [fs2 | e]; [| done].
  by destruct (DRY_RUN cfg).
Qed.

Lemma split_by_region_checked str cfg input_file output_dir regions coordinate_file w w1 :
  _ensure_directories cfg w = (Ok tt, w1) →
  path_exists (w_fs w1) input_file = false →
  split_by_region str cfg input_file output_dir regions coordinate_file w
  = (Err (IOError "Input file not found"), w1).
Proof.
  intros Hens Hx. unfold split_by_region. rewrite (bind_run _ _ _ _ _ Hens).
  rewrite (bind_run _ _ _ _ _ (fs_read_run _ w1)). by rewrite Hx.
Qed.

(** X6. [filter_quality] and [split_by_region] look for the input file
    first: when it does not exist once the server directories are in place,
    the call raises [IOError] whatever the other arguments and the dry-run
    switch are, and the output directory is not created. *)
Theorem missing_input_is_reported_first cfg input_file output_dir w w1 :
  _ensure_directories cfg w = (Ok tt, w1) →
  path_exists (w_fs w1) input_file = false →
  (∀ np_sum min_reads min_genes max_mt_percent,
     filter_quality np_sum cfg input_file output_dir min_reads min_genes max_mt_percent w
     = (Err (IOError "Input file not found"), w1)) ∧
  (∀ str regions coordinate_file,
     split_by_region str cfg input_file output_dir regions coordinate_file w
     = (Err (IOError "Input file not found"), w1)).
Proof.
  intros Hens Hx. split.
  - intros np_sum a b c. rewrite (filter_quality_checked _ _ _ _ _ _ _ _ _ Hens). by rewrite Hx.
  - intros str regions cf. by apply split_by_region_checked.
Qed.

Lemma missing_input_is_reported_first_witness :
  let w1 := snd (_ensure_directories (example_config true) qc_world) in
  _ensure_directories (example_config true) qc_world = (Ok tt, w1) ∧
  path_exists (w_fs w1) ["in"; "other.csv"] = false ∧
  filter_quality sum_in_order (example_config true) ["in"; "other.csv"] ["out"] (-1) 200 (fz 20) qc_world
  = (Err (IOError "Input file not found"), w1).
Proof.
  assert (H : _ensure_directories (example_config true) qc_world
              = (Ok tt, snd (_ensure_directories (example_config true) qc_world)))
    by (vm_compute; reflexivity).
  assert (Hx : path_exists (w_fs (snd (_ensure_directories (example_config true) qc_world)))
                 ["in"; "other.csv"] = false) by (vm_compute; reflexivity).
  split; [exact H | split; [exact Hx |]].
  exact (proj1 (missing_input_is_reported_first (example_config true) ["in"; "other.csv"]
                  ["out"] qc_world _ H Hx) sum_in_order (-1)%Z 200%Z (fz 20)).
Defined.

Lemma apply_filters_nan data min_reads min_genes out :
  apply_filters data min_reads min_genes NotANumber = Ok out → rows out = [].
Proof.
  intros [_ ->]%apply_filters_ok. simpl.
  induction (rows data) as [| r rs IH]; [done |].
  rewrite filter_cons, decide_False; [done |].
  unfold keeps, passes, at_most. intros (_ & _ & H). revert H.
  by destruct (number _) as [[| [] |] |].
Qed.

(** X7. With the input file in place, [filter_quality] raises the
    [ValueError] for the thresholds, in a dry run as well, exactly when a
    comparison of its check holds: [min_reads] or [min_genes] is negative,
    or [max_mt_percent] is below 0 or above 100, an infinity included. The
    table is then not read and the output directory is not created. A
    [max_mt_percent] that is not a number compares false both times and is
    let through; the filter on [mt_percent] then keeps no row. *)
Theorem filter_rejects_invalid_thresholds np_sum cfg input_file output_dir min_reads min_genes
    max_mt_percent w w1 :
  _ensure_directories cfg w = (Ok tt, w1) →
  path_exists (w_fs w1) input_file = true →
  let run := filter_quality np_sum cfg input_file output_dir min_reads min_genes
               max_mt_percent w in
  (¬ valid_thresholds min_reads min_genes max_mt_percent →
   run = (Err (ValueError "Invalid QC parameters"), w1)) ∧
  (valid_thresholds min_reads min_genes max_mt_percent →
   fst run ≠ Err (ValueError "Invalid QC parameters")) ∧
  (valid_thresholds min_reads min_genes max_mt_percent ↔
   (0 ≤ min_reads)%Z ∧ (0 ≤ min_genes)%Z ∧
   match max_mt_percent with
   | Finite q => (0 ≤ q ≤ Qc_of_Z 100)%Qc
   | Infinite _ => False
   | NotANumber => True
   end) ∧
  (∀ data out, apply_filters data min_reads min_genes NotANumber = Ok out → len out = 0%nat).
Proof.
  intros Hens Hx run. subst run.
  rewrite (filter_quality_checked _ _ _ _ _ _ _ _ _ Hens). rewrite Hx. simpl.
  split_and!.
  - intros Hbad. destruct (_ || _) eqn:Hval; [done |]. by apply thresholds_check_inv in Hval.
  - intros Hval. rewrite (thresholds_check _ _ _ Hval).
    destruct (mkdir_parents output_dir (w_fs w1)) as [fs2 | e] eqn:Hmk.
    + destruct (DRY_RUN cfg); [done |]. unfold try_except.
      by destruct (filter_quality_try _ _ _ _ _ _ _) as [[r | e] w2].
    + simpl. intros [= ->]. unfold mkdir_parents in Hmk.
      repeat case_match; discriminate.
  - unfold valid_thresholds, float_lt.
    destruct max_mt_percent as [q | [] |]; simpl;
      rewrite ?andb_false_iff, ?negb_false_iff, ?bool_decide_eq_true, ?bool_decide_eq_false;
      [| naive_solver | naive_solver | naive_solver].
    split.
    + intros (Ha & Hb & H0 & H100). split_and!; try done.
      * destruct H0 as [H0 | H0]; [| done].
        apply Qcnot_le_lt in H0. by apply Qclt_le_weak.
      * destruct H100 as [H100 | H100]; [| done].
        apply Qcnot_le_lt in H100. by apply Qclt_le_weak.
    + intros (Ha & Hb & H0 & H100). split_and!; try done; by right.
  - intros data out H. unfold len. by rewrite (apply_filters_nan _ _ _ _ H).
Qed.

Lemma filter_rejects_invalid_thresholds_witness :
  let w1 := snd (_ensure_directories (example_config true) qc_world) in
  _ensure_directories (example_config true) qc_world = (Ok tt, w1) ∧
  path_exists (w_fs w1) ["in"; "spots.csv"] = true ∧
  ¬ valid_thresholds 1000 200 (fz 101) ∧
  filter_quality sum_in_order (example_config true) ["in"; "spots.csv"] ["out"] 1000 200
    (fz 101) qc_world
  = (Err (ValueError "Invalid QC parameters"), w1) ∧
  valid_thresholds 1000 200 NotANumber ∧
  fst (filter_quality sum_in_order (example_config true) ["in"; "spots.csv"] ["out"] 1000 200
         NotANumber qc_world)
  ≠ Err (ValueError "Invalid QC parameters").
Proof.
  assert (H : _ensure_directories (example_config true) qc_world
              = (Ok tt, snd (_ensure_directories (example_config true) qc_world)))
    by (vm_compute; reflexivity).
  assert (Hx : path_exists (w_fs (snd (_ensure_directories (example_config true) qc_world)))
                 ["in"; "spots.csv"] = true) by (vm_compute; reflexivity).
  assert (Hbad : ¬ valid_thresholds 1000 200 (fz 101)).
  { intros (_ & _ & _ & Hle). revert Hle. by_evaluation. }
  assert (Hnan : valid_thresholds 1000 200 NotANumber).
  { repeat split; try lia. }
  split; [exact H | split; [exact Hx | split; [exact Hbad |]]].
  split; [| split; [exact Hnan |]].
  - exact (proj1 (filter_rejects_invalid_thresholds sum_in_order (example_config true)
                    ["in"; "spots.csv"] ["out"] 1000 200 (fz 101) qc_world _ H Hx) Hbad).
  - exact (proj1 (proj2 (filter_rejects_invalid_thresholds sum_in_order (example_config true)
                           ["in"; "spots.csv"] ["out"] 1000 200 NotANumber qc_world _ H Hx))
             Hnan).
Defined.

(** X8. A real run of [filter_quality] on an existing input whose suffix is
    not [.csv] raises [IOError] from the [ValueError] for the unsupported
    format; the output directory has been created by then, no file is
    written. *)
Theorem filter_rejects_other_formats np_sum cfg input_file output_dir min_reads min_genes
    max_mt_percent w w1 :
  DRY_RUN cfg = false →
  _ensure_directories cfg w = (Ok tt, w1) →
  path_exists (w_fs w1) input_file = true →
  valid_thresholds min_reads min_genes max_mt_percent →
  is_ok (mkdir_parents output_dir (w_fs w1)) = true →
  suffix input_file ≠ ".csv" →
  let run := filter_quality np_sum cfg input_file output_dir min_reads min_genes max_mt_percent w in
  fst run = Err (IOErrorFrom "Failed to filter quality" (ValueError "Unsupported file format")) ∧
  fs_files (w_fs (snd run)) = fs_files (w_fs w) ∧
  is_dir (w_fs (snd run)) output_dir = true.
Proof.
  intros Hdry Hens Hx Hval Hmk Hsuf run. subst run.
  rewrite (filter_quality_checked _ _ _ _ _ _ _ _ _ Hens). rewrite Hx. simpl.
  rewrite (thresholds_check _ _ _ Hval), Hdry.
  destruct (mkdir_parents output_dir (w_fs w1)) as [fs2 | e] eqn:Hmk2; [| discriminate].
  apply ensure_directories_grows in Hens as [Hf1 _].
  apply mkdir_parents_in_place in Hmk2 as [Hplace [Hf2 _]].
  unfold try_except, filter_quality_try. unfold bind at 1. unfold read_input.
  destruct (String.eqb_spec (suffix input_file) ".csv") as [Heq | _]; [done |].
  simpl. split_and!; [done | congruence | by apply in_place_is_dir].
Qed.

Lemma filter_rejects_other_formats_witness :
  let w := example_world [(["in"; "spots.tsv"], CsvFile qc_table)] (fun _ => 0%N) in
  let w1 := snd (_ensure_directories (example_config false) w) in
  let run := filter_quality sum_in_order (example_config false) ["in"; "spots.tsv"] ["out"] 1000 200
               (fz 20) w in
  DRY_RUN (example_config false) = false ∧
  _ensure_directories (example_config false) w = (Ok tt, w1) ∧
  path_exists (w_fs w1) ["in"; "spots.tsv"] = true ∧
  valid_thresholds 1000 200 (fz 20) ∧
  is_ok (mkdir_parents ["out"] (w_fs w1)) = true ∧
  suffix ["in"; "spots.tsv"] ≠ ".csv" ∧
  fst run = Err (IOErrorFrom "Failed to filter quality" (ValueError "Unsupported file format")) ∧
  fs_files (w_fs (snd run)) = fs_files (w_fs w) ∧
  is_dir (w_fs (snd run)) ["out"] = true.
Proof.
  intros w w1 run.
  assert (H : _ensure_directories (example_config false) w = (Ok tt, w1))
    by (vm_compute; reflexivity).
  assert (Hx : path_exists (w_fs w1) ["in"; "spots.tsv"] = true) by (vm_compute; reflexivity).
  assert (Hval : valid_thresholds 1000 200 (fz 20)).
  { repeat split; try lia; by_evaluation. }
  assert (Hmk : is_ok (mkdir_parents ["out"] (w_fs w1)) = true) by (vm_compute; reflexivity).
  assert (Hsuf : suffix ["in"; "spots.tsv"] ≠ ".csv") by (vm_compute; discriminate).
  split; [reflexivity |]. split; [exact H |]. split; [exact Hx |]. split; [exact Hval |].
  split; [exact Hmk |]. split; [exact Hsuf |].
  exact (filter_rejects_other_formats sum_in_order (example_config false) ["in"; "spots.tsv"] ["out"]
           1000 200 (fz 20) w w1 eq_refl H Hx Hval Hmk Hsuf).
Defined.

(** *** The statistics of the filtered table *)

Lemma of_float_not_str x s : of_float x ≠ Str s.
Proof. by destruct x. Qed.

Lemma of_float_number v x : number v = Some x → v = of_float x.
Proof. destruct v; simpl; try done; by intros [= <-]. Qed.

Lemma py_float_ok v : (∀ s, v ≠ Str s) → py_float v = Ok v.
Proof. intros H. destruct v as [q | neg | s |]; try done. by destruct (H s). Qed.

Lemma series_mean_total np_sum s :
  has_str s = false → ∃ v, series_mean np_sum s = Ok v ∧ ∀ x, v ≠ Str x.
Proof.
  intros H. unfold series_mean. rewrite H.
  destruct (numbers s); eexists; (split; [done |]); [done | apply of_float_not_str].
Qed.

Lemma series_median_total s :
  has_str s = false → ∃ v, series_median s = Ok v ∧ ∀ x, v ≠ Str x.
Proof.
  intros H. unfold series_median. rewrite H. cbv zeta.
  destruct (_ =? _)%nat; [by eexists |].
  destruct (Nat.odd _).
  - destruct (_ !! _) as [x |]; simpl; eexists; (split; [done |]);
      [apply of_float_not_str | done].
  - destruct (_ !! _) as [x |]; [destruct (_ !! _) as [y |] |]; eexists; (split; [done |]);
      try done. apply of_float_not_str.
Qed.

Lemma float_max_list_elem l m : float_max_list l = Some m → m ∈ l.
Proof.
  destruct l as [| x l]; [done |]. intros [= <-].
  induction l as [| y l IH]; simpl; [apply list_elem_of_here |].
  unfold float_max at 1. destruct (float_le _ _).
  - apply elem_of_cons in IH as [-> | IH]; [apply list_elem_of_here |].
    by do 2 apply list_elem_of_further.
  - apply list_elem_of_further, list_elem_of_here.
Qed.

Lemma Qc_of_nat_pos n : (0 < n)%nat → (0 < Qc_of_nat n)%Qc.
Proof.
  intros H. unfold Qc_of_nat. rewrite <- Z2Qc_inj_0.
  apply (proj1 (Z2Qc_inj_lt 0 (Z.of_nat n))). lia.
Qed.

(** [int(x)] of a number that is at least a natural number is at least that
    number. *)
Lemma Qc_trunc_ge (z : Z) (q : Qc) : (0 ≤ z)%Z → (Qc_of_Z z ≤ q)%Qc → (z ≤ Qc_trunc q)%Z.
Proof.
  intros Hz Hq. unfold Qc_trunc. unfold Qcle, Qle in Hq. simpl in Hq.
  destruct (Qcanon.this q) as [n d]. simpl in Hq.
  assert (0 ≤ n)%Z by nia.
  rewrite Z.quot_div_nonneg by lia.
  apply Z.div_le_lower_bound; lia.
Qed.

Lemma py_int_at_least b m :
  (0 ≤ b)%Z → at_least b m = true →
  (m ≠ Infinite false → is_ok (py_int (of_float m)) = true) ∧
  (∀ z, py_int (of_float m) = Ok z → (b ≤ z)%Z).
Proof.
  intros Hb. unfold at_least. destruct m as [q | [] |]; simpl; try done.
  intros Hq%bool_decide_eq_true. split; [done |]. intros z [= <-]. by apply Qc_trunc_ge.
Qed.

Lemma df_get_column df c :
  c ∈ columns df → df_get df c = Some (map (fun r => cell_at (columns df) r c) (rows df)).
Proof. intros H. unfold df_get, has_column. by rewrite bool_decide_eq_true_2. Qed.

Lemma passes_number op v : passes op v = true → ∃ x, number v = Some x ∧ op x = true.
Proof. unfold passes. destruct (number v) as [x |]; [eauto | done]. Qed.

(** A column whose values all pass a threshold: it holds numbers that
    satisfy it, and nothing else. *)
Lemma passing_column op (f : list cell → cell) (rs : list (list cell)) :
  Forall (fun r => passes op (f r) = true) rs →
  has_str (map f rs) = false ∧
  Forall (fun x => op x = true) (numbers (map f rs)) ∧
  length (numbers (map f rs)) = length rs.
Proof.
  unfold has_str, numbers, strings_of. induction 1 as [| r rs Hr _ (IH1 & IH2 & IH3)].
  - split_and!; [| done..]. apply bool_decide_eq_false. by intros H.
  - apply passes_number in Hr as (x & Hx & Hop). cbn [map omap list_omap]. rewrite Hx.
    assert (match f r with Str s => Some s | _ => None end = None) as ->
      by (by destruct (f r)).
    split_and!; [done | by constructor | simpl; by rewrite IH3].
Qed.

Lemma series_max_passing op (s : list cell) :
  has_str s = false → Forall (fun x => op x = true) (numbers s) → numbers s ≠ [] →
  ∃ m, series_max s = Ok (of_float m) ∧ op m = true ∧ m ∈ numbers s.
Proof.
  intros Hs Hop Hne. unfold series_max.
  assert (strings_of s = []) as ->.
  { unfold has_str in Hs. apply bool_decide_eq_false in Hs.
    destruct (strings_of s); [done |]. by destruct Hs. }
  destruct (float_max_list (numbers s)) as [m |] eqn:Hm.
  - apply float_max_list_elem in Hm. exists m. split_and!; [done | | done].
    by apply (proj1 (Forall_forall _ _) Hop).
  - by destruct (numbers s).
Qed.

Lemma elem_of_numbers x s : x ∈ numbers s → of_float x ∈ s.
Proof.
  unfold numbers. intros (v & Hv & Hx)%list_elem_of_omap.
  by rewrite <- (of_float_number v x Hx).
Qed.

Lemma filter_rate_ok before after :
  ∃ q, (if (0 <? Z.of_nat before)%Z
        then py_div (Qc_of_Z after) (Qc_of_Z (Z.of_nat before))
        else Ok (Qc_of_Z 0)) = Ok q.
Proof.
  destruct (0 <? Z.of_nat before)%Z eqn:Hpos; [| by eexists].
  unfold py_div. destruct (decide _) as [E | _]; [| by eexists].
  apply Z.ltb_lt in Hpos. apply Z2Qc_inj_lt in Hpos. rewrite E, Z2Qc_inj_0 in Hpos.
  apply Qclt_not_le in Hpos. exfalso. apply Hpos, Qcle_refl.
Qed.

(** The statistics of a table made of kept rows: they are computed unless
    the largest number of genes is infinite, and the number of genes
    reported lies on the right side of its threshold. *)
Lemma filter_stats_kept np_sum output_path before cols a b c rs :
  (∀ q, q ∈ ["n_reads"; "n_genes"; "mt_percent"] → q ∈ cols) →
  Forall (keeps cols a b c) rs → (0 ≤ b)%Z →
  (Inf false ∉ map (fun r => cell_at cols r "n_genes") rs →
   is_ok (filter_stats np_sum output_path (Z.of_nat before) (mkDF cols rs)) = true) ∧
  (∀ r, filter_stats np_sum output_path (Z.of_nat before) (mkDF cols rs) = Ok r →
        (rs ≠ [] → (b ≤ genes_detected r)%Z) ∧
        (rs = [] →
         genes_detected r = 0%Z ∧
         mean_reads_per_barcode (qc_metrics r) = Num (Qc_of_Z 0) ∧
         median_genes_per_barcode (qc_metrics r) = Num (Qc_of_Z 0) ∧
         mean_mt_percent (qc_metrics r) = Num (Qc_of_Z 0))).
Proof.
  intros Hcols Hkept Hb.
  destruct (filter_rate_ok before (Z.of_nat (len (mkDF cols rs)))) as [rate Hrate].
  unfold filter_stats. cbv zeta. rewrite Hrate. clear Hrate.
  destruct rs as [| r0 rs'].
  { simpl. split; [done |]. intros r [= <-]. by split. }
  set (rs := r0 :: rs') in *.
  assert (Hne : rs ≠ []) by done.
  replace (0 <? len (mkDF cols rs))%nat with true by done.
  assert (Hlen : ∀ f : list cell → cell, length (numbers (map f rs)) = length rs →
                                          numbers (map f rs) ≠ []).
  { intros f E F. rewrite F in E. done. }
  destruct (passing_column (at_least a) (fun r => cell_at cols r "n_reads") rs)
    as (Sr & _ & _).
  { eapply Forall_impl; [exact Hkept |]. by intros r (H1 & _ & _). }
  destruct (passing_column (at_least b) (fun r => cell_at cols r "n_genes") rs)
    as (Sg & Og & Lg).
  { eapply Forall_impl; [exact Hkept |]. by intros r (_ & H2 & _). }
  destruct (passing_column (at_most c) (fun r => cell_at cols r "mt_percent") rs)
    as (Sm & _ & _).
  { eapply Forall_impl; [exact Hkept |]. by intros r (_ & _ & H3). }
  unfold reduce_column.
  rewrite !df_get_column by (apply Hcols; set_solver).
  cbn [columns rows].
  destruct (series_max_passing _ _ Sg Og (Hlen _ Lg)) as (m & -> & Hm & Hin).
  destruct (series_mean_total np_sum _ Sr) as (v1 & -> & N1).
  destruct (series_median_total _ Sg) as (v2 & -> & N2).
  destruct (series_mean_total np_sum _ Sm) as (v3 & -> & N3).
  cbn [rbind]. rewrite !py_float_ok by done.
  destruct (py_int_at_least b m Hb Hm) as [Hfin Hge].
  split.
  - intros Hinf.
    assert (m ≠ Infinite false) as Hm'.
    { intros ->. by apply elem_of_numbers in Hin. }
    specialize (Hfin Hm'). by destruct (py_int (of_float m)).
  - intros r. destruct (py_int (of_float m)) as [z |] eqn:Hz; simpl; [| discriminate].
    intros [= <-]. simpl. split; [| done]. intros _. by apply Hge.
Qed.

(** *** When [filter_quality] returns *)

Lemma has_str_cons v s :
  has_str (v :: s) = false ↔ (∀ x, v ≠ Str x) ∧ has_str s = false.
Proof.
  unfold has_str. rewrite !bool_decide_eq_false. destruct v as [q | neg | x |]; simpl.
  - split; [intros H; split; [done | exact H] | by intros [_ H]].
  - split; [intros H; split; [done | exact H] | by intros [_ H]].
  - split; [intros H; exfalso; by apply H | intros [H _]; by destruct (H x)].
  - split; [intros H; split; [done | exact H] | by intros [_ H]].
Qed.

Lemma compare_series_total op s :
  has_str s = false → compare_series op s = Ok (map (passes op) s).
Proof.
  intros H. apply mapM_total. induction s as [| v s IH]; [constructor |].
  apply has_str_cons in H as [Hv Hs]. constructor; [| by apply IH].
  destruct v as [q | neg | x |]; [done | done | by destruct (Hv x) | done].
Qed.

Lemma has_str_filter (f : list cell → cell) (P : list cell → Prop)
    `{∀ r, Decision (P r)} (rs : list (list cell)) :
  has_str (map f rs) = false → has_str (map f (filter P rs)) = false.
Proof.
  induction rs as [| r rs IH]; [done |]. simpl. rewrite has_str_cons. intros [Hr Hrs].
  rewrite filter_cons. destruct (decide (P r)); [| by apply IH].
  simpl. apply has_str_cons. split; [done | by apply IH].
Qed.

Lemma filter_by_total df c op b :
  c ∈ columns df →
  has_str (map (fun r => cell_at (columns df) r c) (rows df)) = false →
  filter_by df c op b
  = Ok (mkDF (columns df)
          (filter (fun r => passes op (cell_at (columns df) r c) = true) (rows df))).
Proof.
  intros Hc Hs. unfold filter_by. rewrite (df_get_column _ _ Hc).
  rewrite (compare_series_total _ _ Hs). simpl. rewrite map_map.
  by rewrite (getitem_mask_map df (fun r => passes op (cell_at (columns df) r c))).
Qed.

Lemma apply_filters_total data a b c :
  quality_columns_numeric data →
  apply_filters data a b c
  = Ok (mkDF (columns data) (filter (keeps (columns data) a b c) (rows data))).
Proof.
  intros H. apply Forall_cons in H as [[C1 S1] H]. apply Forall_cons in H as [[C2 S2] H].
  apply Forall_cons in H as [[C3 S3] _].
  unfold apply_filters. rewrite (filter_by_total _ _ _ _ C1 S1). simpl.
  rewrite filter_by_total; [| done | by apply has_str_filter]. simpl.
  rewrite filter_by_total; [| done | by do 2 apply has_str_filter]. simpl.
  do 2 f_equal. rewrite !list_filter_filter. apply list_filter_iff.
  intros r. unfold keeps. tauto.
Qed.

Lemma Forall_filter_self {A} (P : A → Prop) `{∀ x, Decision (P x)} (l : list A) :
  Forall P (filter P l).
Proof. apply Forall_forall. intros x Hx. by apply list_elem_of_filter in Hx as [Hx _]. Qed.

Lemma prefixes_snoc (p : Path) (x : string) : prefixes (p ++ [x]) = prefixes p ++ [p ++ [x]].
Proof.
  unfold prefixes. rewrite length_app. cbn [length].
  rewrite seq_app, fmap_app. cbn [seq fmap list_fmap]. f_equal.
  - apply list_fmap_ext. intros i n Hn.
    apply list_elem_of_lookup_2, elem_of_seq in Hn. apply take_app_le. lia.
  - f_equal. replace (1 + length p)%nat with (length (p ++ [x])); [apply firstn_all |].
    rewrite length_app. simpl. lia.
Qed.

Lemma under_a_file_child fs (dir : Path) (name : string) :
  in_place fs dir → under_a_file fs (dir ++ [name]) = false.
Proof.
  intros (Hu & Hi & _). unfold under_a_file in *. rewrite path_parent_snoc.
  destruct (decide (dir = [])) as [-> | Hne]; [done |].
  rewrite (app_removelast_last "" Hne), prefixes_snoc, existsb_app.
  rewrite <- (app_removelast_last "" Hne). unfold path_parent in Hu. rewrite Hu. simpl.
  by rewrite Hi.
Qed.

Lemma elem_of_prefixes (p q : Path) : q ∈ prefixes p → (length q ≤ length p)%nat.
Proof.
  unfold prefixes. intros H. apply list_elem_of_fmap in H as (n & -> & Hn).
  rewrite length_take. lia.
Qed.

Lemma mkdir_parents_child (dir : Path) (name : string) fs fs2 :
  mkdir_parents dir fs = Ok fs2 → is_dir fs2 (dir ++ [name]) = is_dir fs (dir ++ [name]).
Proof.
  unfold mkdir_parents. destruct (under_a_file fs dir); [discriminate |].
  destruct (is_file fs dir); [discriminate |]. intros [= <-].
  unfold is_dir. apply bool_decide_ext. simpl.
  split; (intros [H | H]; [by left | right]).
  - apply elem_of_union in H as [H | H]; [done |].
    apply elem_of_list_to_set, elem_of_prefixes in H. rewrite length_app in H. simpl in H. lia.
  - by apply elem_of_union_l.
Qed.

Lemma to_csv_total df (dir : Path) (name : string) fs :
  in_place fs dir → is_dir fs (dir ++ [name]) = false →
  to_csv df (dir ++ [name]) fs
  = Ok (mkFS (fs_dirs fs) (<[dir ++ [name] := CsvFile df]> (fs_files fs))).
Proof.
  intros Hp Hd. unfold to_csv. rewrite (under_a_file_child _ _ _ Hp), Hd.
  by rewrite path_parent_snoc, (in_place_is_dir _ _ Hp).
Qed.

(** X9. [filter_quality] returns whenever its input is a csv table whose
    three quality columns are present and hold no text, no number of genes
    is infinite, the thresholds pass the check, the directories can be
    created and the output path is not a directory: reading, filtering,
    writing and the statistics then all go through, on a table without rows
    as well. *)
Theorem filter_quality_returns np_sum cfg input_file output_dir min_reads min_genes
    max_mt_percent w w1 data :
  DRY_RUN cfg = false →
  _ensure_directories cfg w = (Ok tt, w1) →
  is_ok (mkdir_parents output_dir (w_fs w1)) = true →
  is_dir (w_fs w1) (filter_output_path input_file output_dir) = false →
  suffix input_file = ".csv" →
  fs_files (w_fs w) !! input_file = Some (CsvFile data) →
  quality_columns_numeric data →
  Inf false ∉ map (fun r => cell_at (columns data) r "n_genes") (rows data) →
  valid_thresholds min_reads min_genes max_mt_percent →
  ∃ r, fst (filter_quality np_sum cfg input_file output_dir min_reads min_genes
              max_mt_percent w)
       = Ok r.
Proof.
  intros Hdry Hens Hmk Hout Hsuf Hfile Hnum Hinf Hval.
  rewrite (filter_quality_checked _ _ _ _ _ _ _ _ _ Hens).
  pose proof (ensure_directories_grows _ _ _ _ Hens) as [Hf1 _].
  assert (Hx : path_exists (w_fs w1) input_file = true).
  { unfold path_exists, is_file. rewrite Hf1, Hfile.
    rewrite (bool_decide_eq_true_2 (is_Some (Some _))) by eauto. apply orb_true_r. }
  rewrite Hx. simpl. rewrite (thresholds_check _ _ _ Hval), Hdry.
  destruct (mkdir_parents output_dir (w_fs w1)) as [fs2 | e] eqn:Hmk2; [| discriminate].
  pose proof (mkdir_parents_child _ (String.append (stem input_file) "_filtered.csv") _ _ Hmk2)
    as Hchild.
  fold (filter_output_path input_file output_dir) in Hchild. rewrite Hout in Hchild.
  apply mkdir_parents_in_place in Hmk2 as [Hplace [Hf2 _]].
  destruct Hval as (_ & Hb & _).
  set (kept := filter (keeps (columns data) min_reads min_genes max_mt_percent) (rows data)).
  destruct (filter_stats_kept np_sum (filter_output_path input_file output_dir) (len data)
              (columns data) min_reads min_genes max_mt_percent kept)
    as (Hr & _); [| by apply Forall_filter_self | done |].
  { intros q Hq. apply (proj1 (Forall_forall _ _) Hnum) in Hq. apply Hq. }
  assert (Inf false ∉ map (fun r => cell_at (columns data) r "n_genes") kept) as Hinf'.
  { intros (r & Hr' & Hin)%list_elem_of_fmap. apply Hinf. apply list_elem_of_fmap.
    exists r. split; [done |]. by apply list_elem_of_filter in Hin as [_ Hin]. }
  specialize (Hr Hinf').
  destruct (filter_stats np_sum _ _ (mkDF (columns data) kept)) as [r |] eqn:Hst;
    [| discriminate].
  exists r. unfold try_except, filter_quality_try.
  rewrite (bind_run _ _ _ data (mkWorld fs2 (w_rng w1)))
    by (apply read_input_run; [done | simpl; by rewrite Hf2, Hf1]).
  rewrite (bind_run _ _ _ _ (mkWorld fs2 (w_rng w1)))
    by (unfold lift; by rewrite (apply_filters_total _ _ _ _ Hnum)).
  unfold bind at 1, fs_update. simpl. unfold filter_output_path at 1.
  rewrite (to_csv_total _ _ _ _ Hplace Hchild).
  unfold lift. fold (filter_output_path input_file output_dir). fold kept. by rewrite Hst.
Qed.

Lemma filter_quality_returns_witness :
  let w1 := snd (_ensure_directories (example_config false) qc_world) in
  DRY_RUN (example_config false) = false ∧
  _ensure_directories (example_config false) qc_world = (Ok tt, w1) ∧
  is_ok (mkdir_parents ["out"] (w_fs w1)) = true ∧
  is_dir (w_fs w1) (filter_output_path ["in"; "spots.csv"] ["out"]) = false ∧
  suffix ["in"; "spots.csv"] = ".csv" ∧
  fs_files (w_fs qc_world) !! ["in"; "spots.csv"] = Some (CsvFile qc_table) ∧
  quality_columns_numeric qc_table ∧
  Inf false ∉ map (fun r => cell_at (columns qc_table) r "n_genes") (rows qc_table) ∧
  valid_thresholds 1000 200 (fz 20) ∧
  ∃ r, fst (filter_quality sum_in_order (example_config false) ["in"; "spots.csv"] ["out"]
              1000 200 (fz 20) qc_world) = Ok r.
Proof.
  intros w1.
  assert (H : _ensure_directories (example_config false) qc_world = (Ok tt, w1))
    by (vm_compute; reflexivity).
  assert (Hmk : is_ok (mkdir_parents ["out"] (w_fs w1)) = true) by (vm_compute; reflexivity).
  assert (Hout : is_dir (w_fs w1) (filter_output_path ["in"; "spots.csv"] ["out"]) = false)
    by (vm_compute; reflexivity).
  assert (Hfile : fs_files (w_fs qc_world) !! ["in"; "spots.csv"] = Some (CsvFile qc_table))
    by (vm_compute; reflexivity).
  assert (Hnum : quality_columns_numeric qc_table) by by_evaluation.
  assert (Hinf : Inf false ∉ map (fun r => cell_at (columns qc_table) r "n_genes")
                               (rows qc_table)) by by_evaluation.
  assert (Hval : valid_thresholds 1000 200 (fz 20)).
  { repeat split; try lia; by_evaluation. }
  split; [reflexivity |]. split; [exact H |]. split; [exact Hmk |]. split; [exact Hout |].
  split; [reflexivity |]. split; [exact Hfile |]. split; [exact Hnum |]. split; [exact Hinf |].
  split; [exact Hval |].
  exact (filter_quality_returns sum_in_order (example_config false) ["in"; "spots.csv"] ["out"]
           1000 200 (fz 20) qc_world w1 qc_table eq_refl H Hmk Hout eq_refl Hfile Hnum Hinf
           Hval).
Defined.

(** X10. The number of genes [filter_quality] reports agrees with the
    threshold: when at least one barcode is kept, [genes_detected], the
    largest number of genes of a kept barcode cut to an integer, is at
    least [min_genes]; when no barcode is kept, [genes_detected], the two
    means and the median are 0. Nothing is said of the means and the median
    of kept barcodes: they are computed in doubles and rounded. *)
Theorem filter_statistics_of_kept_barcodes np_sum cfg input_file output_dir min_reads
    min_genes max_mt_percent w r :
  DRY_RUN cfg = false →
  fst (filter_quality np_sum cfg input_file output_dir min_reads min_genes max_mt_percent w)
  = Ok r →
  ((0 < barcodes_after r)%Z → (min_genes ≤ genes_detected r)%Z) ∧
  (barcodes_after r = 0%Z →
   genes_detected r = 0%Z ∧
   mean_reads_per_barcode (qc_metrics r) = Num (Qc_of_Z 0) ∧
   median_genes_per_barcode (qc_metrics r) = Num (Qc_of_Z 0) ∧
   mean_mt_percent (qc_metrics r) = Num (Qc_of_Z 0)).
Proof.
  intros Hdry Hrun.
  destruct (filter_quality _ _ _ _ _ _ _ w) as [res w'] eqn:Hq. simpl in *. subst res.
  apply filter_quality_ok in Hq as (data & out & Hval & _ & _ & Hflt & _ & _ & Hst); [| done].
  apply apply_filters_ok in Hflt as [Hcols ->].
  destruct Hval as (_ & Hb & _).
  destruct (filter_stats_kept np_sum (filter_output_path input_file output_dir) (len data)
              (columns data) min_reads min_genes max_mt_percent
              (filter (keeps (columns data) min_reads min_genes max_mt_percent) (rows data))
              Hcols (Forall_filter_self _ _) Hb)
    as (_ & Hr).
  destruct (Hr r Hst) as [Hsome Hnone].
  apply filter_stats_counts in Hst as [_ Hafter]. unfold len in Hafter. simpl in Hafter.
  split; intros Hn.
  - apply Hsome. intros E. rewrite E in Hafter. simpl in Hafter. lia.
  - apply Hnone. rewrite Hn in Hafter. by destruct (filter _ _).
Qed.

Lemma filter_statistics_of_kept_barcodes_witness :
  DRY_RUN (example_config false) = false ∧
  fst (filter_example qc_world) = Ok qc_filter_result ∧
  (0 < barcodes_after qc_filter_result)%Z ∧
  (200 ≤ genes_detected qc_filter_result)%Z.
Proof.
  assert (Hrun : fst (filter_example qc_world) = Ok qc_filter_result)
    by (vm_compute; reflexivity).
  assert (Hpos : (0 < barcodes_after qc_filter_result)%Z) by (vm_compute; reflexivity).
  split; [reflexivity |]. split; [exact Hrun |]. split; [exact Hpos |].
  exact (proj1 (filter_statistics_of_kept_barcodes sum_in_order (example_config false)
                  ["in"; "spots.csv"] ["out"] 1000 200 (fz 20) qc_world qc_filter_result
                  eq_refl Hrun) Hpos).
Defined.

(** Three barcodes with a mitochondrial percentage of 0.1, kept under the
    threshold 0.1: added from left to right, their mean is
    0.10000000000000002, above the threshold. *)
Lemma mean_mt_percent_beyond_threshold :
  ∃ r, fst (filter_quality sum_in_order (example_config false) ["in"; "spots.csv"] ["out"]
              0 0 (round64 (Q2Qc (1 # 10)))
              (example_world [(["in"; "spots.csv"], CsvFile tenth_table)] (fun _ => 0%N)))
       = Ok r ∧
       barcodes_after r = 3%Z ∧
       mean_mt_percent (qc_metrics r) = double (10000000000000002 # 100000000000000000) ∧
       ∃ x, number (mean_mt_percent (qc_metrics r)) = Some x ∧
            float_lt (round64 (Q2Qc (1 # 10))) x = true.
Proof.
  eexists. split; [vm_compute; reflexivity |]. split; [reflexivity |].
  split; [by_evaluation |]. eexists. split; [reflexivity |]. by_evaluation.
Qed.

Lemma compare_series_numeric op s mask : compare_series op s = Ok mask → has_str s = false.
Proof.
  unfold compare_series. revert mask. induction s as [| v s IH]; intros mask; [done |].
  simpl. destruct v as [q | neg | x |]; simpl; [| | discriminate |];
    (destruct (mapM _ s) as [ms |] eqn:E; simpl; [| discriminate]); intros _;
    apply has_str_cons; (split; [done | by eapply IH]).
Qed.

Lemma filter_by_numeric df c op b df' :
  filter_by df c op b = Ok df' →
  has_str (map (fun r => cell_at (columns df) r c) (rows df)) = false.
Proof.
  unfold filter_by, df_get. destruct (has_column df c); [| discriminate].
  destruct (compare_series op _) as [mask |] eqn:E; simpl; [| discriminate].
  intros _. by eapply compare_series_numeric.
Qed.

Lemma has_str_sublist (f : list cell → cell) (l1 l2 : list (list cell)) :
  l1 `sublist_of` l2 → has_str (map f l2) = false → has_str (map f l1) = false.
Proof.
  induction 1 as [| x l1 l2 _ IH | x l1 l2 _ IH]; simpl; [done | |].
  - rewrite !has_str_cons. intros [Hx H]. split; [done | by apply IH].
  - rewrite has_str_cons. intros [_ H]. by apply IH.
Qed.

Lemma filter_sublist_impl {A} (P Q : A → Prop) `{∀ x, Decision (P x)} `{∀ x, Decision (Q x)}
    (l : list A) :
  (∀ x, P x → Q x) → filter P l `sublist_of` filter Q l.
Proof.
  intros HPQ. induction l as [| x l IH]; [done |]. rewrite !filter_cons.
  destruct (decide (P x)) as [HP | HP].
  - rewrite decide_True by by apply HPQ. by apply sublist_skip.
  - destruct (decide (Q x)); [by apply sublist_cons | done].
Qed.

(** The larger of two lower thresholds, the stricter of two upper ones. *)
Lemma passes_max (x y : Z) v :
  passes (at_least (Z.max x y)) v = true ↔
  passes (at_least x) v = true ∧ passes (at_least y) v = true.
Proof.
  unfold passes, at_least. destruct (number v) as [[q | [] |] |]; simpl;
    [| by intuition..].
  rewrite !bool_decide_eq_true.
  destruct (Z.max_spec x y) as [[Hlt ->] | [Hle ->]].
  - split; [intros H; split; [| done] | by intros [_ H]].
    eapply Qcle_trans; [| exact H]. apply (proj1 (Z2Qc_inj_le _ _)). lia.
  - split; [intros H; split; [done |] | by intros [H _]].
    eapply Qcle_trans; [| exact H]. apply (proj1 (Z2Qc_inj_le _ _)). lia.
Qed.

Lemma float_le_nan_r x : float_le x NotANumber = false.
Proof. by destruct x as [q | [] |]. Qed.

Lemma passes_min (c c' : float) v :
  passes (at_most (stricter_max c c')) v = true ↔
  passes (at_most c) v = true ∧ passes (at_most c') v = true.
Proof.
  unfold passes, at_most. destruct (number v) as [x |]; [| by intuition].
  unfold stricter_max.
  destruct (is_nan c) eqn:Hc.
  { destruct c; try done. rewrite float_le_nan_r. by intuition. }
  destruct (is_nan c') eqn:Hc'.
  { destruct c'; try done. rewrite float_le_nan_r. by intuition. }
  assert (c ≠ NotANumber) as Nc by (by destruct c).
  assert (c' ≠ NotANumber) as Nc' by (by destruct c').
  unfold float_min. destruct (float_le c c') eqn:Hle.
  - split; [intros H; split; [done |] | by intros [H _]].
    by apply (float_le_trans x c c').
  - assert (float_leP c' c) as Hle'.
    { destruct (float_le_total c c' Nc Nc') as [H | H]; [| done].
      unfold float_leP in H. congruence. }
    split; [intros H; split; [| done] | by intros [_ H]].
    by apply (float_le_trans x c' c).
Qed.

(** X11. Filtering in two passes is filtering once with the stricter
    thresholds: when [apply_filters] goes through with one set of
    thresholds and then, on its result, with another, one pass over the
    original table with the larger [min_reads], the larger [min_genes] and
    the stricter [max_mt_percent] (the smaller one; not-a-number when one of
    them is) goes through and gives the same table. *)
Theorem filters_compose data a b c a' b' c' out out' :
  apply_filters data a b c = Ok out →
  apply_filters out a' b' c' = Ok out' →
  apply_filters data (Z.max a a') (Z.max b b') (stricter_max c c') = Ok out'.
Proof.
  intros H1 H2.
  pose proof (apply_filters_ok _ _ _ _ _ H1) as [Hcols ->].
  pose proof (apply_filters_ok _ _ _ _ _ H2) as [_ ->]. simpl.
  revert H1. unfold apply_filters.
  destruct (filter_by data "n_reads" _ _) as [d1 |] eqn:E1; simpl; [| discriminate].
  destruct (filter_by d1 "n_genes" _ _) as [d2 |] eqn:E2; simpl; [| discriminate].
  intros E3.
  pose proof (filter_by_numeric _ _ _ _ _ E1) as N1.
  pose proof (filter_by_numeric _ _ _ _ _ E2) as N2.
  pose proof (filter_by_numeric _ _ _ _ _ E3) as N3.
  apply filter_by_ok in E1 as [_ ->]. apply filter_by_ok in E2 as [_ ->]. simpl in *.
  rewrite filter_by_total; [| apply Hcols, list_elem_of_here | done]. simpl.
  rewrite filter_by_total; [| apply Hcols, list_elem_of_further, list_elem_of_here |]. 2:{
    simpl. eapply has_str_sublist; [| exact N2]. apply filter_sublist_impl.
    intros r Hr. by apply passes_max in Hr as [Hr _]. }
  simpl.
  rewrite filter_by_total;
    [| apply Hcols; do 2 apply list_elem_of_further; apply list_elem_of_here |]. 2:{
    simpl. eapply has_str_sublist; [| exact N3]. rewrite !list_filter_filter.
    apply filter_sublist_impl. intros r [Hg Hr].
    apply passes_max in Hg as [Hg _]. by apply passes_max in Hr as [Hr _]. }
  simpl. do 2 f_equal. rewrite !list_filter_filter. apply list_filter_iff. intros r.
  unfold keeps. rewrite !passes_max, passes_min. tauto.
Qed.

Lemma filters_compose_witness :
  let out := mkDF (columns qc_table)
               (filter (keeps (columns qc_table) 1000 0 (fz 100)) (rows qc_table)) in
  let out' := mkDF (columns qc_table)
                (filter (keeps (columns qc_table) 0 200 (fz 20)) (rows out)) in
  apply_filters qc_table 1000 0 (fz 100) = Ok out ∧
  apply_filters out 0 200 (fz 20) = Ok out' ∧
  stricter_max (fz 100) (fz 20) = fz 20 ∧
  apply_filters qc_table (Z.max 1000 0) (Z.max 0 200) (stricter_max (fz 100) (fz 20))
  = Ok out'.
Proof.
  intros out out'.
  assert (H1 : apply_filters qc_table 1000 0 (fz 100) = Ok out)
    by (vm_compute; reflexivity).
  assert (H2 : apply_filters out 0 200 (fz 20) = Ok out') by (vm_compute; reflexivity).
  split; [exact H1 |]. split; [exact H2 |]. split; [reflexivity |].
  exact (filters_compose qc_table 1000 0 (fz 100) 0 200 (fz 20) out out' H1 H2).
Defined.

(** ** Segmentation: the files and the statistics *)

Lemma assign_regions_fs data regions w res w' :
  assign_regions data regions w = (res, w') → w_fs w' = w_fs w.
Proof.
  unfold assign_regions. destruct (has_column data "region").
  { by intros [= _ <-]. }
  assert (∀ w0, (do! noise := draw (rand (len data)) in
                 do! labels := lift (cut (default noise (df_get data "x_coord")) 4
                                       (grid_labels 4)) in
                 lift (setitem data "region" labels)) w0 = (res, w') → w_fs w' = w_fs w0)
    as Hgrid.
  { intros w0. unfold bind, draw, lift. destruct (rand _ _) as [noise g]. simpl.
    destruct (cut _ _ _); simpl; by intros [= _ <-]. }
  destruct regions as [[| r rs] |]; [apply Hgrid | | apply Hgrid].
  unfold bind, draw, lift. destruct (choice _ _ _) as [[vals | e] g]; simpl;
    by intros [= _ <-].
Qed.

(** A real run of [split_by_region] that returns, step by step. *)
Lemma split_by_region_ok str cfg input_file output_dir regions coordinate_file w r w' :
  DRY_RUN cfg = false →
  split_by_region str cfg input_file output_dir regions coordinate_file w = (Ok r, w') →
  ∃ data data' region u0 u1,
    fs_files (w_fs w) !! input_file = Some (CsvFile data) ∧
    fs_files (w_fs u0) = fs_files (w_fs w) ∧
    assign_regions data regions u0 = (Ok data', u1) ∧
    df_get data' "region" = Some region ∧
    write_regions str data' region output_dir (unique region) u1 = (Ok (regions_out r), w') ∧
    total_regions r = Z.of_nat (length (regions_out r)) ∧
    region_summary (map barcode_count (regions_out r)) = Ok (barcodes_per_region r) ∧
    split_mode r = None.
Proof.
  intros Hdry. rewrite split_by_region_real by done.
  destruct (_ensure_directories cfg w) as [[[] | e] w1] eqn:Hens; [| discriminate].
  pose proof (ensure_directories_grows _ _ _ _ Hens) as [Hf1 _].
  destruct (negb _); [discriminate |].
  destruct (mkdir_parents output_dir (w_fs w1)) as [fs2 |] eqn:Hmk; [| discriminate].
  pose proof (mkdir_parents_grows _ _ _ Hmk) as [Hf2 _].
  rewrite try_except_ok. unfold split_by_region_try. intros H.
  apply bind_ok in H as (data & w0 & Hread & H).
  apply read_input_ok in Hread as (-> & _ & Hfile).
  apply bind_ok in H as (data' & u1 & Hassign & H).
  apply bind_ok in H as (region & u1' & Hreg & H).
  unfold lift in Hreg. destruct (df_get data' "region") as [s |] eqn:Hget; [| discriminate].
  injection Hreg as <- <-.
  apply bind_ok in H as (files & w2 & Hwrite & H).
  apply bind_ok in H as (summary & w3 & Hsum & H).
  unfold ret in H. injection H as <- <-. unfold lift in Hsum. injection Hsum as Hsum <-.
  exists data, data', s, (mkWorld fs2 (w_rng w1)), u1. simpl in *.
  split_and!; try done; congruence.
Qed.

Lemma foldr_min_le x l y : y ∈ x :: l → (foldr Z.min x l ≤ y)%Z.
Proof.
  induction l as [| z l IH]; simpl.
  - intros Hy. apply list_elem_of_singleton in Hy as ->. lia.
  - rewrite !elem_of_cons. intros [-> | [-> | Hy]].
    + etrans; [apply Z.le_min_r |]. apply IH, list_elem_of_here.
    + apply Z.le_min_l.
    + etrans; [apply Z.le_min_r |]. by apply IH, list_elem_of_further.
Qed.

Lemma foldr_max_ge x l y : y ∈ x :: l → (y ≤ foldr Z.max x l)%Z.
Proof.
  induction l as [| z l IH]; simpl.
  - intros Hy. apply list_elem_of_singleton in Hy as ->. lia.
  - rewrite !elem_of_cons. intros [-> | [-> | Hy]].
    + etrans; [| apply Z.le_max_r]. apply IH, list_elem_of_here.
    + apply Z.le_max_l.
    + etrans; [| apply Z.le_max_r]. by apply IH, list_elem_of_further.
Qed.

Lemma Z_sum_bounds lo hi l :
  Forall (fun z => lo ≤ z ≤ hi)%Z l →
  (lo * Z.of_nat (length l) ≤ Z_sum l ≤ hi * Z.of_nat (length l))%Z.
Proof.
  induction 1 as [| z l Hz _ IH]; simpl; [lia |]. fold (Z_sum l). lia.
Qed.

(** The mean of counts lies between the smallest and the largest. *)
Lemma region_summary_ordered l s :
  Forall (fun z => 0 ≤ z)%Z l → region_summary l = Ok s →
  (0 ≤ stats_min s ≤ stats_mean s)%Z ∧ (stats_mean s ≤ stats_max s)%Z.
Proof.
  intros Hpos. destruct l as [| x l]; [discriminate |]. unfold region_summary.
  intros [= <-]. cbn [stats_min stats_mean stats_max].
  set (lo := foldr Z.min x l). set (hi := foldr Z.max x l).
  assert (Hin : lo ∈ x :: l).
  { subst lo. clear. induction l as [| z l IH]; simpl; [apply list_elem_of_here |].
    destruct (Z.min_spec z (foldr Z.min x l)) as [[_ ->] | [_ ->]].
    - apply list_elem_of_further, list_elem_of_here.
    - apply elem_of_cons in IH as [-> | IH]; [apply list_elem_of_here |].
      by do 2 apply list_elem_of_further. }
  assert (Hlo : (0 ≤ lo)%Z) by (by apply (proj1 (Forall_forall _ _) Hpos)).
  assert (Hb : Forall (fun z => lo ≤ z ≤ hi)%Z (x :: l)).
  { apply Forall_forall. intros z Hz. split; [by apply foldr_min_le | by apply foldr_max_ge]. }
  apply Z_sum_bounds in Hb.
  set (n := Z.of_nat (length (x :: l))) in *.
  assert (Hn : (0 < n)%Z) by (subst n; simpl; lia).
  assert (Hsum : (0 ≤ Z_sum (x :: l))%Z) by nia.
  change (x + Z_sum l)%Z with (Z_sum (x :: l)).
  change (Z.of_nat (S (length l))) with n.
  rewrite Z.quot_div_nonneg by lia.
  split; [split; [done |] |].
  - apply Z.div_le_lower_bound; lia.
  - apply Z.div_le_upper_bound; lia.
Qed.

Lemma write_regions_nonneg str data region output_path names w files w' :
  write_regions str data region output_path names w = (Ok files, w') →
  Forall (fun z => 0 ≤ z)%Z (map barcode_count files).
Proof.
  intros H. apply write_regions_counts in H. rewrite H.
  apply Forall_map, Forall_forall. intros n _. simpl. lia.
Qed.

(** X12. The statistics [split_by_region] returns are ordered: the smallest
    region count is at most the mean and the mean at most the largest, in a
    dry run as in a real one; in a real run the counts are sizes of tables,
    so the smallest is not negative, and [total_regions] is the number of
    region files listed. *)
Theorem split_statistics_ordered str cfg input_file output_dir regions coordinate_file w r :
  fst (split_by_region str cfg input_file output_dir regions coordinate_file w) = Ok r →
  (stats_min (barcodes_per_region r) ≤ stats_mean (barcodes_per_region r))%Z ∧
  (stats_mean (barcodes_per_region r) ≤ stats_max (barcodes_per_region r))%Z ∧
  (0 ≤ stats_min (barcodes_per_region r))%Z ∧
  (DRY_RUN cfg = false → total_regions r = Z.of_nat (length (regions_out r))).
Proof.
  intros Hrun. destruct (DRY_RUN cfg) eqn:Hdry.
  - destruct (split_by_region_dry_run str cfg w input_file output_dir regions coordinate_file
                Hdry) as (_ & Hr & _).
    destruct (Hr r Hrun) as (_ & _ & _ & _ & -> & _). simpl. split_and!; [lia.. | done].
  - destruct (split_by_region _ _ _ _ _ _ w) as [res w'] eqn:Hq. simpl in Hrun. subst res.
    apply split_by_region_ok in Hq
      as (data & data' & region & u0 & u1 & _ & _ & _ & _ & Hwrite & Htot & Hsum & _);
      [| done].
    apply write_regions_nonneg in Hwrite.
    destruct (region_summary_ordered _ _ Hwrite Hsum) as [[? ?] ?]. by split_and!.
Qed.

Lemma split_statistics_ordered_witness :
  fst (split_example qc_table None None (fun _ => 0%N)) = Ok qc_split_result ∧
  (stats_min (barcodes_per_region qc_split_result)
   ≤ stats_mean (barcodes_per_region qc_split_result))%Z ∧
  (stats_mean (barcodes_per_region qc_split_result)
   ≤ stats_max (barcodes_per_region qc_split_result))%Z ∧
  (0 ≤ stats_min (barcodes_per_region qc_split_result))%Z.
Proof.
  assert (Hrun : fst (split_example qc_table None None (fun _ => 0%N)) = Ok qc_split_result)
    by (vm_compute; reflexivity).
  split; [exact Hrun |].
  pose proof (split_statistics_ordered (fun _ => "") (example_config false) ["in"; "spots.csv"]
                ["out"] None None _ qc_split_result Hrun) as (H1 & H2 & H3 & _).
  exact (conj H1 (conj H2 H3)).
Defined.

(** X13. For a table that already has a region column, [split_by_region]
    does not look at the region list: a real run gives the same result and
    the same world whatever list is passed. *)
Theorem split_keeps_existing_labels str cfg input_file output_dir regions regions'
    coordinate_file w data :
  DRY_RUN cfg = false →
  fs_files (w_fs w) !! input_file = Some (CsvFile data) →
  has_column data "region" = true →
  split_by_region str cfg input_file output_dir regions coordinate_file w
  = split_by_region str cfg input_file output_dir regions' coordinate_file w.
Proof.
  intros Hdry Hfile Hreg. rewrite !split_by_region_real by done.
  destruct (_ensure_directories cfg w) as [[[] | e] w1] eqn:Hens; [| done].
  pose proof (ensure_directories_grows _ _ _ _ Hens) as [Hf1 _].
  destruct (negb _); [done |].
  destruct (mkdir_parents output_dir (w_fs w1)) as [fs2 |] eqn:Hmk; [| done].
  pose proof (mkdir_parents_grows _ _ _ Hmk) as [Hf2 _].
  unfold try_except, split_by_region_try.
  destruct (read_input input_file (mkWorld fs2 (w_rng w1))) as [[d | e] w0] eqn:Hread.
  - rewrite !(bind_run _ _ _ _ _ Hread).
    apply read_input_ok in Hread as (-> & _ & Hd). simpl in Hd.
    rewrite Hf2, Hf1, Hfile in Hd. injection Hd as <-.
    unfold assign_regions. by rewrite Hreg.
  - by rewrite !(bind_fail _ _ _ _ _ Hread).
Qed.

Lemma split_keeps_existing_labels_witness :
  DRY_RUN (example_config false) = false ∧
  fs_files (w_fs (example_world [(["in"; "spots.csv"], CsvFile labelled_table)] (fun _ => 0%N)))
    !! ["in"; "spots.csv"] = Some (CsvFile labelled_table) ∧
  has_column labelled_table "region" = true ∧
  split_example labelled_table (Some ["a"; "b"]) None (fun _ => 0%N)
  = split_example labelled_table None None (fun _ => 0%N).
Proof.
  split; [reflexivity |]. split; [vm_compute; reflexivity |]. split; [reflexivity |].
  apply (split_keeps_existing_labels (fun _ => "") (example_config false) ["in"; "spots.csv"]
           ["out"] (Some ["a"; "b"]) None None _ labelled_table);
    [reflexivity | vm_compute; reflexivity | reflexivity].
Defined.

(** X14. A real run of [split_by_region] on a table without rows always
    fails, whatever columns the table has and whatever region list is
    passed: no region is found, and the mean of no counts (or the binning of
    no coordinates) raises [ValueError], re-raised as [IOError]. No file is
    written. *)
Theorem split_empty_table_fails str cfg input_file output_dir regions coordinate_file
    w w1 data :
  DRY_RUN cfg = false →
  _ensure_directories cfg w = (Ok tt, w1) →
  is_ok (mkdir_parents output_dir (w_fs w1)) = true →
  suffix input_file = ".csv" →
  fs_files (w_fs w) !! input_file = Some (CsvFile data) →
  rows data = [] →
  let run := split_by_region str cfg input_file output_dir regions coordinate_file w in
  (∃ msg, fst run = Err (IOErrorFrom "Failed to split by region" (ValueError msg))) ∧
  fs_files (w_fs (snd run)) = fs_files (w_fs w).
Proof.
  intros Hdry Hens Hmk Hsuf Hfile Hrows run. subst run.
  rewrite split_by_region_real by done. rewrite Hens.
  pose proof (ensure_directories_grows _ _ _ _ Hens) as [Hf1 _].
  assert (Hx : path_exists (w_fs w1) input_file = true).
  { unfold path_exists, is_file. rewrite Hf1, Hfile.
    rewrite (bool_decide_eq_true_2 (is_Some (Some _))) by eauto. apply orb_true_r. }
  rewrite Hx. simpl.
  destruct (mkdir_parents output_dir (w_fs w1)) as [fs2 | e] eqn:Hmk2; [| discriminate].
  pose proof (mkdir_parents_grows _ _ _ Hmk2) as [Hf2 _].
  set (w2 := mkWorld fs2 (w_rng w1)).
  assert (Hread : read_input input_file w2 = (Ok data, w2))
    by (apply read_input_run; [done | simpl; by rewrite Hf2, Hf1]).
  destruct data as [cols rs]. simpl in Hrows. subst rs.
  assert (Hend : ∀ data' u,
            w_fs u = fs2 → rows data' = [] → has_column data' "region" = true →
            ∃ u', (do! region := lift (match df_get data' "region" with
                                       | Some s => Ok s
                                       | None => Err (KeyError "region")
                                       end) in
                   do! region_files := write_regions str data' region output_dir
                                         (unique region) in
                   do! summary := lift (region_summary (map barcode_count region_files)) in
                   ret (mkSplitResult region_files (Z.of_nat (length region_files)) summary None))
                    u
                  = (Err (ValueError "cannot convert float NaN to integer"), u') ∧
                  w_fs u' = fs2).
  { intros data' u Hu Hr Hc. exists u. split; [| done].
    unfold bind, lift, df_get. rewrite Hc, Hr. reflexivity. }
  unfold try_except, split_by_region_try. rewrite (bind_run _ _ _ _ _ Hread).
  unfold assign_regions. destruct (has_column (mkDF cols []) "region") eqn:Hreg.
  - rewrite (bind_run _ _ w2 (mkDF cols []) w2) by done.
    destruct (Hend (mkDF cols []) w2 eq_refl eq_refl Hreg) as (u' & -> & Hu').
    simpl. split; [by eexists | congruence].
  - assert (Hnew : setitem (mkDF cols []) "region" [] = Ok (mkDF (cols ++ ["region"]) [])).
    { unfold setitem. simpl. apply bool_decide_eq_false in Hreg. simpl in Hreg.
      by rewrite (col_index_None _ _ Hreg). }
    assert (Hcol : has_column (mkDF (cols ++ ["region"]) []) "region" = true).
    { apply bool_decide_eq_true. simpl. apply elem_of_app. right. apply list_elem_of_here. }
    assert (Hgrid : ∃ u',
              (do! data := (do! noise := draw (rand (len (mkDF cols []))) in
                            do! labels := lift (cut (default noise
                                                       (df_get (mkDF cols []) "x_coord")) 4
                                                  (grid_labels 4)) in
                            lift (setitem (mkDF cols []) "region" labels)) in
               do! region := lift (match df_get data "region" with
                                   | Some s => Ok s
                                   | None => Err (KeyError "region")
                                   end) in
               do! region_files := write_regions str data region output_dir (unique region) in
               do! summary := lift (region_summary (map barcode_count region_files)) in
               ret (mkSplitResult region_files (Z.of_nat (length region_files)) summary None))
                w2
              = (Err (ValueError "Cannot cut empty array"), u') ∧ w_fs u' = fs2).
    { eexists. unfold bind, draw, lift, df_get. simpl.
      destruct (has_column (mkDF cols []) "x_coord"); simpl; split; reflexivity. }
    destruct regions as [[| r rs] |].
    + destruct Hgrid as (u' & -> & Hu'). simpl. split; [by eexists | congruence].
    + set (u := mkWorld fs2 (snd (rs_take 0 (w_rng w1)))).
      rewrite (bind_run _ _ w2 (mkDF (cols ++ ["region"]) []) u).
      2:{ unfold bind, draw, lift. simpl. by rewrite Hnew. }
      destruct (Hend (mkDF (cols ++ ["region"]) []) u eq_refl eq_refl Hcol) as (u' & -> & Hu').
      simpl. split; [by eexists | congruence].
    + destruct Hgrid as (u' & -> & Hu'). simpl. split; [by eexists | congruence].
Qed.

Lemma split_empty_table_fails_witness :
  let w := example_world [(["in"; "spots.csv"], CsvFile empty_table)] (fun _ => 0%N) in
  let w1 := snd (_ensure_directories (example_config false) w) in
  let run := split_by_region (fun _ => "") (example_config false) ["in"; "spots.csv"] ["out"]
               (Some ["tumor"; "stroma"]) None w in
  DRY_RUN (example_config false) = false ∧
  _ensure_directories (example_config false) w = (Ok tt, w1) ∧
  is_ok (mkdir_parents ["out"] (w_fs w1)) = true ∧
  suffix ["in"; "spots.csv"] = ".csv" ∧
  fs_files (w_fs w) !! ["in"; "spots.csv"] = Some (CsvFile empty_table) ∧
  rows empty_table = [] ∧
  (∃ msg, fst run = Err (IOErrorFrom "Failed to split by region" (ValueError msg))) ∧
  fs_files (w_fs (snd run)) = fs_files (w_fs w).
Proof.
  intros w w1 run.
  assert (H : _ensure_directories (example_config false) w = (Ok tt, w1))
    by (vm_compute; reflexivity).
  assert (Hmk : is_ok (mkdir_parents ["out"] (w_fs w1)) = true) by (vm_compute; reflexivity).
  assert (Hfile : fs_files (w_fs w) !! ["in"; "spots.csv"] = Some (CsvFile empty_table))
    by (vm_compute; reflexivity).
  split; [reflexivity |]. split; [exact H |]. split; [exact Hmk |]. split; [reflexivity |].
  split; [exact Hfile |]. split; [reflexivity |].
  exact (split_empty_table_fails (fun _ => "") (example_config false) ["in"; "spots.csv"]
           ["out"] (Some ["tumor"; "stroma"]) None w w1 empty_table eq_refl H Hmk eq_refl
           Hfile eq_refl).
Defined.

Lemma nth_mod_elem (a : list string) (a0 : string) (k : nat) :
  a ≠ [] → nth (k mod length a) a a0 ∈ a.
Proof.
  intros Ha. apply list_elem_of_In, nth_In, Nat.mod_upper_bound. by destruct a.
Qed.

Lemma choice_in_list a n g vals g' :
  choice a n g = (Ok vals, g') → Forall (fun v => ∃ s, v = Str s ∧ s ∈ a) vals.
Proof.
  unfold choice. destruct a as [| a0 a]; [discriminate |].
  destruct (rs_take n g) as [xs g1]. intros [= <- _].
  apply Forall_map, Forall_forall. intros x _. eexists. split; [reflexivity |].
  by apply (nth_mod_elem (a0 :: a) a0 (N.to_nat x)).
Qed.

Lemma NoDup_text_labels str (l : list cell) :
  Forall (fun v => ∃ s, v = Str s) l → NoDup l → NoDup (map (str_of_cell str) l).
Proof.
  intros Htext Hnd. induction Hnd as [| v l Hv Hnd IH]; simpl; [constructor |].
  apply Forall_cons in Htext as [[s ->] Htext]. constructor; [| by apply IH].
  intros Hin. apply list_elem_of_fmap in Hin as (v' & Hs & Hv').
  destruct (proj1 (Forall_forall _ _) Htext v' Hv') as [s' ->]. simpl in Hs. by subst s'.
Qed.

(** X15. When the table has no region column and a region list is passed,
    the regions [split_by_region] returns are named after entries of the
    list, each name once, so there are at most as many regions as the list
    has entries. *)
Theorem split_labels_come_from_list str cfg input_file output_dir r0 rs coordinate_file
    w data r :
  DRY_RUN cfg = false →
  fs_files (w_fs w) !! input_file = Some (CsvFile data) →
  has_column data "region" = false →
  well_formed data →
  fst (split_by_region str cfg input_file output_dir (Some (r0 :: rs)) coordinate_file w)
  = Ok r →
  Forall (fun f => region_name f ∈ r0 :: rs) (regions_out r) ∧
  NoDup (map region_name (regions_out r)) ∧
  (total_regions r ≤ Z.of_nat (length (r0 :: rs)))%Z.
Proof.
  intros Hdry Hfile Hreg Hwf Hrun.
  destruct (split_by_region _ _ _ _ _ _ w) as [res w'] eqn:Hq. simpl in Hrun. subst res.
  apply split_by_region_ok in Hq
    as (data0 & data' & region & u0 & u1 & Hfile0 & _ & Hassign & Hget & Hwrite & Htot & _);
    [| done].
  rewrite Hfile in Hfile0. injection Hfile0 as <-.
  unfold assign_regions in Hassign. rewrite Hreg in Hassign.
  apply bind_ok in Hassign as (picked & u2 & Hdraw & H).
  apply bind_ok in H as (vals & u3 & Hvals & Hset).
  unfold lift in *. injection Hvals as -> _. injection Hset as Hset _.
  unfold draw in Hdraw.
  destruct (choice (r0 :: rs) (len data) (w_rng u0)) as [picked' g'] eqn:Hch.
  injection Hdraw as -> _.
  apply choice_in_list in Hch. apply setitem_new in Hset as [Hget' _]; [| done | done].
  rewrite Hget in Hget'. injection Hget' as ->.
  apply write_regions_names in Hwrite as [Hnames _].
  assert (Htext : Forall (fun v => ∃ s, v = Str s ∧ s ∈ r0 :: rs) (unique vals)).
  { apply Forall_forall. intros v Hv. apply (proj1 (elem_of_unique _ _)) in Hv.
    by apply (proj1 (Forall_forall _ _) Hch). }
  assert (Hin : Forall (fun n => n ∈ r0 :: rs) (map region_name (regions_out r))).
  { rewrite Hnames. apply Forall_map. eapply Forall_impl; [exact Htext |].
    by intros v (s & -> & Hs). }
  assert (Hnd : NoDup (map region_name (regions_out r))).
  { rewrite Hnames. apply NoDup_text_labels; [| apply NoDup_unique].
    eapply Forall_impl; [exact Htext |]. intros v (s & -> & _). by eexists. }
  split_and!; [by apply Forall_map in Hin | done |].
  rewrite Htot. apply inj_le. rewrite <- (length_map region_name).
  apply submseteq_length, NoDup_submseteq; [done |].
  intros n Hn. by apply (proj1 (Forall_forall _ _) Hin).
Qed.

Lemma split_labels_come_from_list_witness :
  DRY_RUN (example_config false) = false ∧
  fs_files (w_fs qc_world) !! ["in"; "spots.csv"] = Some (CsvFile qc_table) ∧
  has_column qc_table "region" = false ∧
  well_formed qc_table ∧
  ∃ r, fst (split_example qc_table (Some ["tumor"; "stroma"]) None N.of_nat) = Ok r ∧
       Forall (fun f => region_name f ∈ ["tumor"; "stroma"]) (regions_out r) ∧
       NoDup (map region_name (regions_out r)) ∧
       (total_regions r ≤ 2)%Z.
Proof.
  assert (Hfile : fs_files (w_fs qc_world) !! ["in"; "spots.csv"] = Some (CsvFile qc_table))
    by (vm_compute; reflexivity).
  assert (Hwf : well_formed qc_table) by by_evaluation.
  split; [reflexivity |]. split; [exact Hfile |]. split; [reflexivity |]. split; [exact Hwf |].
  destruct (fst (split_example qc_table (Some ["tumor"; "stroma"]) None N.of_nat))
    as [r | e] eqn:Hrun; [| exfalso; revert Hrun; vm_compute; discriminate].
  exists r. split; [reflexivity |].
  exact (split_labels_come_from_list (fun _ => "") (example_config false) ["in"; "spots.csv"]
           ["out"] "tumor" ["stroma"] None
           (example_world [(["in"; "spots.csv"], CsvFile qc_table)] N.of_nat) qc_table r
           eq_refl Hfile eq_refl Hwf Hrun).
Defined.

(** *** The region files *)

Lemma split_slash_no_slash s : has_slash s = false → split_slash s = [s].
Proof.
  induction s as [| c s IH]; [done |]. simpl.
  destruct (Ascii.eqb c "/"); [done |]. simpl. intros H. by rewrite (IH H).
Qed.

Lemma has_slash_append s t : has_slash (String.append s t) = has_slash s || has_slash t.
Proof.
  induction s as [| c s IH]; [done |]. simpl. rewrite IH. by rewrite orb_assoc.
Qed.

Lemma append_csv_not_dot s : String.append s ".csv" ≠ "" ∧ String.append s ".csv" ≠ ".".
Proof.
  split; intros H; apply (f_equal String.length) in H; rewrite length_append in H;
    simpl in H; lia.
Qed.

(** A label without a separator names a file of the output directory. *)
Lemma path_join_no_slash (output_path : Path) (s : string) :
  has_slash s = false →
  path_join output_path (String.append s ".csv") = output_path ++ [String.append s ".csv"].
Proof.
  intros H. unfold path_join, path_parts.
  assert (has_slash (String.append s ".csv") = false) as Hs
    by (rewrite has_slash_append, H; done).
  assert (is_absolute (String.append s ".csv") = false) as ->.
  { destruct (String.append s ".csv") as [| c t]; [done |]. simpl in *.
    by destruct (Ascii.eqb c "/"). }
  rewrite (split_slash_no_slash _ Hs), filter_cons, decide_True by apply append_csv_not_dot.
  done.
Qed.

Lemma append_inj_r (s t u : string) : String.append s u = String.append t u → s = t.
Proof.
  revert t. induction s as [| c s IH]; intros [| d t] H.
  - done.
  - apply (f_equal String.length) in H. rewrite !length_append in H. simpl in H. lia.
  - apply (f_equal String.length) in H. rewrite !length_append in H. simpl in H. lia.
  - change (String c (String.append s u) = String d (String.append t u)) in H.
    injection H as -> H. f_equal. by apply IH.
Qed.

Lemma region_path_inj (output_path : Path) (a b : string) :
  output_path ++ [String.append a ".csv"] = output_path ++ [String.append b ".csv"] → a = b.
Proof. intros H. apply app_inv_head in H. injection H as H. by apply append_inj_r in H. Qed.

Lemma write_regions_other str data region output_path names w files w' p :
  write_regions str data region output_path names w = (Ok files, w') →
  p ∉ map (fun n => path_join output_path (String.append (str_of_cell str n) ".csv")) names →
  fs_files (w_fs w') !! p = fs_files (w_fs w) !! p.
Proof.
  revert w files w'. induction names as [| n names IH]; intros w files w'; simpl.
  - unfold ret. by intros [= _ <-].
  - intros H Hp. apply not_elem_of_cons in Hp as [Hp Hps].
    apply bind_ok in H as ([] & w1 & Hcsv & H).
    apply bind_ok in H as (rest & w2 & Hrest & H).
    unfold ret in H. injection H as _ <-.
    rewrite (IH _ _ _ Hrest Hps).
    apply fs_update_ok in Hcsv as (fs' & Hcsv & ->). apply to_csv_ok in Hcsv as ->.
    simpl. by apply lookup_insert_ne.
Qed.

(** The file of a value that shares its path with no other value holds the
    rows of that value. *)
Lemma write_regions_file str data region output_path names w files w' n :
  write_regions str data region output_path names w = (Ok files, w') →
  n ∈ names →
  (∀ m, m ∈ names →
        path_join output_path (String.append (str_of_cell str m) ".csv")
        = path_join output_path (String.append (str_of_cell str n) ".csv") → m = n) →
  fs_files (w_fs w') !! path_join output_path (String.append (str_of_cell str n) ".csv")
  = Some (CsvFile (getitem_mask data (eq_series region n))).
Proof.
  revert w files w'. induction names as [| n0 names IH]; intros w files w'; simpl.
  - intros _ Hn. by apply elem_of_nil in Hn.
  - intros H Hn Hone.
    apply bind_ok in H as ([] & w1 & Hcsv & H).
    apply bind_ok in H as (rest & w2 & Hrest & H).
    unfold ret in H. injection H as _ <-.
    destruct (decide (n ∈ names)) as [Hin | Hout].
    { eapply IH; [exact Hrest | done |]. intros m Hm. apply Hone. by right. }
    apply elem_of_cons in Hn as [-> | Hn]; [| done].
    erewrite write_regions_other; [| exact Hrest |].
    + apply fs_update_ok in Hcsv as (fs' & Hcsv & ->). apply to_csv_ok in Hcsv as ->.
      simpl. apply lookup_insert_eq.
    + intros Hp. apply list_elem_of_fmap in Hp as (m & Hm & Hmin).
      apply Hout. rewrite <- (Hone m); [done | by right | done].
Qed.

Lemma eq_series_text (f : list cell → cell) (rs : list (list cell)) s :
  eq_series (map f rs) (Str s) = map (fun r => bool_decide (f r = Str s)) rs.
Proof.
  unfold eq_series. rewrite map_map. apply map_ext. intros r.
  destruct (f r) as [q | neg | x |]; [done | done | done |].
  symmetry. by apply bool_decide_eq_false.
Qed.

Lemma strings_of_text (l : list cell) :
  Forall (fun v => ∃ s, v = Str s) l → map Str (strings_of l) = l.
Proof.
  induction 1 as [| v l [s ->] _ IH]; [done |].
  change (strings_of (Str s :: l)) with (s :: strings_of l). simpl. by rewrite IH.
Qed.

(** X16. For a table whose region column holds text only, a real run of
    [split_by_region] lists the distinct labels in order of first
    appearance, each with the path its label gives below the output
    directory. A label whose path no other label shares is left with a
    file that holds exactly the rows carrying the label, under the header
    of the input. A label without [/] names a file of the output directory
    itself, and two such labels never share a path; a label with [/], [.]
    or a leading [/] in it names another place, and may share it. *)
Theorem split_writes_one_file_per_label str cfg input_file output_dir regions
    coordinate_file w data region r :
  DRY_RUN cfg = false →
  fs_files (w_fs w) !! input_file = Some (CsvFile data) →
  df_get data "region" = Some region →
  Forall (fun v => ∃ s, v = Str s) region →
  let run := split_by_region str cfg input_file output_dir regions coordinate_file w in
  let file_of s := path_join output_dir (String.append s ".csv") in
  let rows_of s := mkDF (columns data)
                     (filter (fun row => cell_at (columns data) row "region" = Str s)
                        (rows data)) in
  fst run = Ok r →
  map region_name (regions_out r) = strings_of (unique region) ∧
  map region_file (regions_out r) = map file_of (strings_of (unique region)) ∧
  (∀ s, Str s ∈ region →
        (∀ s', Str s' ∈ region → file_of s' = file_of s → s' = s) →
        fs_files (w_fs (snd run)) !! file_of s = Some (CsvFile (rows_of s))) ∧
  (∀ s, has_slash s = false → file_of s = output_dir ++ [String.append s ".csv"]) ∧
  (Forall (fun v => ∃ s, v = Str s ∧ has_slash s = false) region →
   ∀ s, Str s ∈ region →
        fs_files (w_fs (snd run)) !! (output_dir ++ [String.append s ".csv"])
        = Some (CsvFile (rows_of s))).
Proof.
  intros Hdry Hfile Hget Htext run file_of rows_of Hrun. subst run.
  destruct (split_by_region _ _ _ _ _ _ w) as [res w'] eqn:Hq. simpl in *. subst res.
  apply split_by_region_ok in Hq
    as (data0 & data' & region' & u0 & u1 & Hfile0 & _ & Hassign & Hget' & Hwrite & _);
    [| done].
  rewrite Hfile in Hfile0. injection Hfile0 as <-.
  assert (Hcol : has_column data "region" = true).
  { unfold df_get in Hget. by destruct (has_column data "region"). }
  unfold assign_regions in Hassign. rewrite Hcol in Hassign. injection Hassign as <- <-.
  rewrite Hget in Hget'. injection Hget' as <-.
  assert (Hutext : Forall (fun v => ∃ s, v = Str s) (unique region)).
  { apply Forall_forall. intros v Hv. apply (proj1 (elem_of_unique _ _)) in Hv.
    by apply (proj1 (Forall_forall _ _) Htext). }
  assert (Hone : ∀ s, Str s ∈ region →
                      (∀ s', Str s' ∈ region → file_of s' = file_of s → s' = s) →
                      fs_files (w_fs w') !! file_of s = Some (CsvFile (rows_of s))).
  { intros s Hs Hfree.
    pose proof (write_regions_file _ _ _ _ _ _ _ _ (Str s) Hwrite
                  (proj2 (elem_of_unique _ _) Hs)) as Hf.
    simpl in Hf. unfold file_of. rewrite Hf.
    - do 2 f_equal. unfold rows_of.
      unfold df_get in Hget. rewrite Hcol in Hget. injection Hget as <-.
      rewrite eq_series_text.
      rewrite (getitem_mask_map data
                 (fun r => bool_decide (cell_at (columns data) r "region" = Str s))).
      f_equal. apply list_filter_iff. intros row. by rewrite bool_decide_eq_true.
    - intros m Hm Hpath. apply (proj1 (elem_of_unique _ _)) in Hm.
      destruct (proj1 (Forall_forall _ _) Htext m Hm) as [s' ->]. simpl in Hpath.
      f_equal. by apply Hfree. }
  pose proof (write_regions_names _ _ _ _ _ _ _ _ Hwrite) as [Hnames Hfiles].
  split_and!.
  - rewrite Hnames. rewrite <- (strings_of_text _ Hutext) at 1. rewrite map_map.
    by rewrite map_id.
  - rewrite Hfiles. rewrite <- (strings_of_text _ Hutext) at 1. by rewrite map_map.
  - exact Hone.
  - intros s Hs. by apply path_join_no_slash.
  - intros Hfree s Hs.
    destruct (proj1 (Forall_forall _ _) Hfree _ Hs) as (s0 & [= <-] & Hs0).
    rewrite <- (path_join_no_slash output_dir s Hs0). apply Hone; [done |].
    intros s' Hs'.
    destruct (proj1 (Forall_forall _ _) Hfree _ Hs') as (s1 & [= <-] & Hs1).
    unfold file_of. rewrite !path_join_no_slash by done. apply region_path_inj.
Qed.

Lemma split_writes_one_file_per_label_witness :
  let run := split_example regions_table None None (fun _ => 0%N) in
  DRY_RUN (example_config false) = false ∧
  fs_files (w_fs (example_world [(["in"; "spots.csv"], CsvFile regions_table)] (fun _ => 0%N)))
    !! ["in"; "spots.csv"] = Some (CsvFile regions_table) ∧
  df_get regions_table "region" = Some [Str "tumor"; Str "stroma"; Str "tumor"] ∧
  Forall (fun v => ∃ s, v = Str s) [Str "tumor"; Str "stroma"; Str "tumor"] ∧
  fst run = Ok regions_split_result ∧
  Forall (fun v => ∃ s, v = Str s ∧ has_slash s = false)
    [Str "tumor"; Str "stroma"; Str "tumor"] ∧
  Str "stroma" ∈ [Str "tumor"; Str "stroma"; Str "tumor"] ∧
  map region_name (regions_out regions_split_result) = ["tumor"; "stroma"] ∧
  fs_files (w_fs (snd run)) !! ["out"; "stroma.csv"]
  = Some (CsvFile (mkDF ["barcode"; "region"] [[Str "AAAG"; Str "stroma"]])).
Proof.
  intros run.
  assert (Hfile : fs_files (w_fs (example_world [(["in"; "spots.csv"], CsvFile regions_table)]
                                    (fun _ => 0%N))) !! ["in"; "spots.csv"]
                  = Some (CsvFile regions_table)) by (vm_compute; reflexivity).
  assert (Htext : Forall (fun v => ∃ s, v = Str s) [Str "tumor"; Str "stroma"; Str "tumor"])
    by (repeat constructor; by eexists).
  assert (Hfree : Forall (fun v => ∃ s, v = Str s ∧ has_slash s = false)
                    [Str "tumor"; Str "stroma"; Str "tumor"])
    by (repeat constructor; by eexists).
  assert (Hrun : fst run = Ok regions_split_result) by (vm_compute; reflexivity).
  assert (Hin : Str "stroma" ∈ [Str "tumor"; Str "stroma"; Str "tumor"])
    by (apply list_elem_of_further, list_elem_of_here).
  pose proof (split_writes_one_file_per_label (fun _ => "") (example_config false)
                ["in"; "spots.csv"] ["out"] None None _ regions_table _ regions_split_result
                eq_refl Hfile eq_refl Htext Hrun) as (Hnames & _ & _ & _ & Hfiles).
  split; [reflexivity |]. split; [exact Hfile |]. split; [reflexivity |]. split; [exact Htext |].
  split; [exact Hrun |]. split; [exact Hfree |]. split; [exact Hin |]. split; [exact Hnames |].
  exact (Hfiles Hfree "stroma" Hin).
Defined.

(** Two labels that differ and name the same file: [x] and [./x]; a label
    with a separator names a file further down, a label that starts with
    one a file elsewhere. *)
Lemma labels_sharing_a_file :
  path_join ["out"] "x.csv" = path_join ["out"] "./x.csv" ∧
  path_join ["out"] "a/b.csv" = ["out"; "a"; "b.csv"] ∧
  path_join ["out"] "/tmp/x.csv" = ["tmp"; "x.csv"].
Proof. split_and!; reflexivity. Qed.

(** ** Merging: the table that is written *)

(** *** [drop_duplicates] *)

Lemma drop_seen_head (key : list cell → cell) (b : cell) seen rs :
  head (filter (fun r => key r = b) (drop_seen key seen rs))
  = if decide (b ∈ seen) then None else head (filter (fun r => key r = b) rs).
Proof.
  revert seen. induction rs as [| r rs IH]; intros seen; simpl.
  - by destruct (decide (b ∈ seen)).
  - rewrite (filter_cons _ r rs). destruct (decide (key r ∈ seen)) as [Hin | Hout].
    + rewrite IH. destruct (decide (b ∈ seen)) as [| Hb]; [done |].
      destruct (decide (key r = b)) as [E | _]; [| done]. by rewrite E in Hin.
    + rewrite filter_cons. destruct (decide (key r = b)) as [E | Hne].
      * simpl. rewrite <- E. by rewrite decide_False.
      * rewrite IH. destruct (decide (b ∈ seen)) as [Hb | Hb].
        -- rewrite decide_True; [done | by apply list_elem_of_further].
        -- rewrite decide_False; [done |]. intros Hin.
           apply elem_of_cons in Hin as [-> | Hin]; done.
Qed.

Lemma drop_seen_keys (key : list cell → cell) seen rs :
  NoDup (map key (drop_seen key seen rs)) ∧
  ∀ b, b ∈ map key (drop_seen key seen rs) ↔ b ∈ map key rs ∧ b ∉ seen.
Proof.
  revert seen. induction rs as [| r rs IH]; intros seen; simpl.
  - split; [constructor |]. intros b. split; [by intros H%elem_of_nil | by intros [H%elem_of_nil _]].
  - destruct (decide (key r ∈ seen)) as [Hin | Hout].
    + destruct (IH seen) as [Hnd Hb]. split; [done |]. intros b. rewrite Hb, elem_of_cons.
      split; [intros [? ?]; split; [by right | done] |].
      intros [[-> | ?] ?]; [done | by split].
    + destruct (IH (key r :: seen)) as [Hnd Hb]. simpl. split.
      * constructor; [| done]. rewrite Hb. intros [_ Hn]. apply Hn, list_elem_of_here.
      * intros b. rewrite !elem_of_cons, Hb, not_elem_of_cons.
        split.
        -- intros [-> | (? & ? & ?)]; [split; [by left | done] | split; [by right | done]].
        -- intros [[-> | ?] ?]; [by left |].
           destruct (decide (b = key r)) as [-> | ?]; [by left | by right].
Qed.

Lemma drop_seen_length (key : list cell → cell) seen rs :
  (length (drop_seen key seen rs) ≤ length rs)%nat.
Proof.
  revert seen. induction rs as [| r rs IH]; intros seen; simpl; [done |].
  destruct (decide _); simpl; [etrans; [apply IH | lia] | apply le_n_S, IH].
Qed.

Lemma drop_seen_fresh (key : list cell → cell) seen rs :
  NoDup (map key rs) → (∀ r, r ∈ rs → key r ∉ seen) → drop_seen key seen rs = rs.
Proof.
  revert seen. induction rs as [| r rs IH]; intros seen Hnd Hseen; simpl; [done |].
  apply NoDup_cons in Hnd as [Hr Hnd].
  rewrite decide_False by (apply Hseen, list_elem_of_here). f_equal.
  apply IH; [done |]. intros r' Hr'. rewrite not_elem_of_cons. split.
  - intros E. apply Hr. rewrite <- E. apply list_elem_of_fmap. by exists r'.
  - by apply Hseen, list_elem_of_further.
Qed.

(** *** The sizes of the tables *)

Lemma length_reindex U df : length (reindex U df) = len df.
Proof. unfold reindex, len. apply length_map. Qed.

Lemma length_concat_rows U (dfs : list DataFrame) :
  length (dfs ≫= reindex U) = sum_list (map len dfs).
Proof.
  induction dfs as [| df dfs IH]; [done |].
  change ((df :: dfs) ≫= reindex U) with (reindex U df ++ (dfs ≫= reindex U)).
  rewrite length_app, length_reindex, IH. done.
Qed.

Lemma concat_len dfs cat : concat dfs = Ok cat → len cat = sum_list (map len dfs).
Proof. intros H. apply concat_ok in H as [_ ->]. apply length_concat_rows. Qed.

Lemma unique_NoDup (l : list cell) : NoDup l → unique l = l.
Proof.
  induction 1 as [| x l Hx _ IH]; [done |]. simpl. rewrite IH. f_equal.
  apply filter_all. apply Forall_forall. by intros y Hy ->.
Qed.

Lemma length_unique (l : list cell) : (length (unique l) ≤ length l)%nat.
Proof.
  induction l as [| x l IH]; simpl; [done |].
  apply le_n_S. etrans; [apply length_filter | done].
Qed.

Lemma length_group_keys df key : (length (group_keys df key) ≤ len df)%nat.
Proof.
  unfold group_keys. rewrite merge_sort_Permutation.
  etrans; [apply length_unique |]. etrans; [apply length_filter |].
  by rewrite length_map.
Qed.

Lemma groupby_agg_len agg df key out :
  groupby_agg agg df key = Ok out → len out = length (group_keys df key).
Proof.
  intros H. apply groupby_agg_ok in H as (rs & -> & Hrs). unfold len. simpl.
  symmetry. by eapply Forall2_length.
Qed.

(** The key column of the table [groupby] builds. *)
Lemma groupby_agg_keys agg df key out :
  groupby_agg agg df key = Ok out →
  map (fun r => cell_at (columns out) r key) (rows out) = group_keys df key.
Proof.
  intros H. apply groupby_agg_ok in H as (rs & -> & Hrs). simpl.
  induction Hrs as [| k row ks rs (vs & -> & _) _ IH]; [done |].
  simpl. rewrite IH. f_equal. unfold cell_at. simpl. by rewrite decide_True.
Qed.

Lemma resolve_overlaps_len merged pol out :
  resolve_overlaps merged pol = Ok out → (len out ≤ len merged)%nat.
Proof.
  unfold resolve_overlaps. destruct (has_column merged "barcode"); [| by intros [= <-]].
  destruct (String.eqb pol "first").
  { intros [= <-]. apply drop_seen_length. }
  destruct (String.eqb pol "average").
  { intros H. rewrite (groupby_agg_len _ _ _ _ H). apply length_group_keys. }
  destruct (String.eqb pol "max").
  { intros H. rewrite (groupby_agg_len _ _ _ _ H). apply length_group_keys. }
  by intros [= <-].
Qed.

Lemma merge_tables_len dfs pol out :
  merge_tables dfs pol = Ok out → (len out ≤ sum_list (map len dfs))%nat.
Proof.
  unfold merge_tables. destruct (concat dfs) as [cat |] eqn:Hcat; simpl; [| discriminate].
  intros H. rewrite <- (concat_len _ _ Hcat). by eapply resolve_overlaps_len.
Qed.

(** *** The barcodes of the merged table *)

Lemma head_map {A B} (f : A → B) (l : list A) : head (map f l) = f <$> head l.
Proof. by destruct l. Qed.

(** X17. Under the policy [first] the merged table holds, for every barcode
    and every column of the tiles, the value of the first occurrence of the
    barcode in tile order (the value of a tile listed earlier wins over a
    tile listed later, and a column the first tile lacks is missing even
    when a later tile has it). *)
Theorem merge_first_keeps_first_occurrence dfs b c :
  dfs ≠ [] → c ∈ union_columns dfs →
  resolved_in (merge_tables dfs "first") b c = head (occurrences dfs "barcode" b c).
Proof.
  intros Hne Hc. unfold merge_tables.
  set (cat := mkDF (union_columns dfs) (dfs ≫= reindex (union_columns dfs))).
  assert (Hcat : concat dfs = Ok cat) by (destruct dfs; [exfalso; by apply Hne | done]).
  rewrite Hcat. cbn [rbind]. rewrite <- group_values_concat. fold cat.
  unfold group_values. rewrite head_map.
  assert (Hcol : has_column cat c = true) by (by apply bool_decide_eq_true).
  unfold resolve_overlaps. destruct (has_column cat "barcode").
  - change (String.eqb "first" "first") with true. cbv iota.
    unfold resolved_in, resolved, lookup_row.
    change (has_column (drop_duplicates cat "barcode") c) with (has_column cat c).
    rewrite Hcol. unfold drop_duplicates. cbn [columns rows].
    by rewrite drop_seen_head.
  - unfold resolved_in, resolved, lookup_row. by rewrite Hcol.
Qed.

Lemma merge_first_keeps_first_occurrence_witness :
  [one_spot "X" 100; one_spot "X" 300] ≠ [] ∧
  "read_count" ∈ union_columns [one_spot "X" 100; one_spot "X" 300] ∧
  resolved_in (merge_tables [one_spot "X" 100; one_spot "X" 300] "first") (Str "X") "read_count"
  = Some (qz 100).
Proof.
  assert (Hc : "read_count" ∈ union_columns [one_spot "X" 100; one_spot "X" 300])
    by by_evaluation.
  split; [discriminate |]. split; [exact Hc |].
  exact (merge_first_keeps_first_occurrence [one_spot "X" 100; one_spot "X" 300] (Str "X")
           "read_count" ltac:(discriminate) Hc).
Defined.

(** X18. Whatever the policy, the merged table holds every barcode at most
    once, and a barcode is in it exactly when it is in one of the tiles.
    The policies differ on spots whose barcode is missing: [first] keeps one
    of them, [average] and [max] drop them. *)
Theorem merge_barcodes_unique dfs overlap_resolution out :
  overlap_resolution ∈ ["average"; "max"; "first"] →
  "barcode" ∈ union_columns dfs →
  merge_tables dfs overlap_resolution = Ok out →
  let barcodes := map (fun r => cell_at (columns out) r "barcode") (rows out) in
  NoDup barcodes ∧
  (∀ b, b ≠ NaN → b ∈ barcodes ↔ b ∈ key_values dfs "barcode") ∧
  (NaN ∈ barcodes ↔ overlap_resolution = "first" ∧ NaN ∈ key_values dfs "barcode").
Proof.
  intros Hpol Hkey. unfold merge_tables.
  destruct (concat dfs) as [cat |] eqn:Hcat; simpl; [| discriminate].
  apply concat_ok in Hcat as [_ ->]. unfold resolve_overlaps, has_column. simpl.
  rewrite bool_decide_eq_true_2 by done.
  assert (Hgroup : ∀ agg, groupby_agg agg
                     (mkDF (union_columns dfs) (dfs ≫= reindex (union_columns dfs))) "barcode"
                   = Ok out → overlap_resolution ≠ "first" →
            let barcodes := map (fun r => cell_at (columns out) r "barcode") (rows out) in
            NoDup barcodes ∧
            (∀ b, b ≠ NaN → b ∈ barcodes ↔ b ∈ key_values dfs "barcode") ∧
            (NaN ∈ barcodes ↔ overlap_resolution = "first" ∧ NaN ∈ key_values dfs "barcode")).
  { intros agg H Hnf. apply groupby_agg_keys in H. cbv zeta. rewrite H. split_and!.
    - apply NoDup_group_keys.
    - intros b Hb. rewrite merge_concat_keys. tauto.
    - rewrite merge_concat_keys. split; [by intros [? _] | by intros [? _]]. }
  rewrite !elem_of_cons in Hpol.
  destruct Hpol as [-> | [-> | [-> | Hnil]]]; [| | | by apply elem_of_nil in Hnil].
  - simpl. intros H. by eapply Hgroup.
  - simpl. intros H. by eapply Hgroup.
  - simpl. intros [= <-]. cbv zeta. unfold drop_duplicates. simpl.
    destruct (drop_seen_keys (fun r => cell_at (union_columns dfs) r "barcode") []
                (dfs ≫= reindex (union_columns dfs))) as [Hnd Hb].
    rewrite key_column_concat in Hb. split_and!; [done | |].
    + intros b _. rewrite Hb. split; [by intros [? _] | intros ?; split; [done |]].
      apply not_elem_of_nil.
    + rewrite Hb. split; [by intros [? _] | intros [_ ?]; split; [done |]].
      apply not_elem_of_nil.
Qed.

Lemma merge_barcodes_unique_witness :
  let out := mkDF ["barcode"; "read_count"] [[Str "X"; qz 100]] in
  let barcodes := map (fun r => cell_at (columns out) r "barcode") (rows out) in
  "first" ∈ ["average"; "max"; "first"] ∧
  "barcode" ∈ union_columns [one_spot "X" 100; one_spot "X" 300] ∧
  merge_tables [one_spot "X" 100; one_spot "X" 300] "first" = Ok out ∧
  NoDup barcodes ∧
  (∀ b, b ≠ NaN → b ∈ barcodes ↔ b ∈ key_values [one_spot "X" 100; one_spot "X" 300] "barcode") ∧
  (NaN ∈ barcodes ↔
   "first" = "first" ∧ NaN ∈ key_values [one_spot "X" 100; one_spot "X" 300] "barcode").
Proof.
  intros out barcodes.
  assert (Hpol : "first" ∈ ["average"; "max"; "first"]) by by_evaluation.
  assert (Hkey : "barcode" ∈ union_columns [one_spot "X" 100; one_spot "X" 300])
    by by_evaluation.
  assert (Hout : merge_tables [one_spot "X" 100; one_spot "X" 300] "first" = Ok out)
    by (vm_compute; reflexivity).
  split; [exact Hpol |]. split; [exact Hkey |]. split; [exact Hout |].
  exact (merge_barcodes_unique [one_spot "X" 100; one_spot "X" 300] "first" out Hpol Hkey Hout).
Defined.

(** *** The order of the rows *)

Lemma cell_le_total (a b : cell) : cell_le a b ∨ cell_le b a.
Proof.
  destruct a as [x | [] | x |], b as [y | [] | y |]; unfold cell_le; simpl; auto.
  - rewrite !bool_decide_eq_true.
    destruct (Qclt_le_dec x y) as [H | H]; [left; by apply Qclt_le_weak | by right].
  - destruct (String.leb_total x y) as [H | H]; [by left | by right].
Qed.

(** X19. Under the policies [average] and [max] the rows of the merged
    table come sorted by barcode, numbers before text, whatever the order of
    the tiles and of their rows. *)
Theorem merge_groups_sorted_by_barcode dfs overlap_resolution out :
  overlap_resolution ∈ ["average"; "max"] →
  "barcode" ∈ union_columns dfs →
  merge_tables dfs overlap_resolution = Ok out →
  Sorted cell_le (map (fun r => cell_at (columns out) r "barcode") (rows out)).
Proof.
  intros Hpol Hkey. unfold merge_tables.
  destruct (concat dfs) as [cat |] eqn:Hcat; simpl; [| discriminate].
  apply concat_ok in Hcat as [_ ->]. unfold resolve_overlaps, has_column. simpl.
  rewrite bool_decide_eq_true_2 by done.
  assert (Hgroup : ∀ agg, groupby_agg agg
                     (mkDF (union_columns dfs) (dfs ≫= reindex (union_columns dfs))) "barcode"
                   = Ok out →
            Sorted cell_le (map (fun r => cell_at (columns out) r "barcode") (rows out))).
  { intros agg H. apply groupby_agg_keys in H. rewrite H. unfold group_keys.
    assert (Htotal : Total cell_le) by exact cell_le_total.
    apply (Sorted_merge_sort cell_le). }
  rewrite !elem_of_cons in Hpol.
  destruct Hpol as [-> | [-> | Hnil]]; [| | by apply elem_of_nil in Hnil]; simpl;
    apply Hgroup.
Qed.

Lemma merge_groups_sorted_by_barcode_witness :
  let out := mkDF ["barcode"; "read_count"] [[Str "A"; qz 2]; [Str "B"; qz 1]] in
  "max" ∈ ["average"; "max"] ∧
  "barcode" ∈ union_columns [one_spot "B" 1; one_spot "A" 2] ∧
  merge_tables [one_spot "B" 1; one_spot "A" 2] "max" = Ok out ∧
  Sorted cell_le (map (fun r => cell_at (columns out) r "barcode") (rows out)).
Proof.
  intros out.
  assert (Hpol : "max" ∈ ["average"; "max"]) by by_evaluation.
  assert (Hkey : "barcode" ∈ union_columns [one_spot "B" 1; one_spot "A" 2]) by by_evaluation.
  assert (Hout : merge_tables [one_spot "B" 1; one_spot "A" 2] "max" = Ok out)
    by (vm_compute; reflexivity).
  split; [exact Hpol |]. split; [exact Hkey |]. split; [exact Hout |].
  exact (merge_groups_sorted_by_barcode [one_spot "B" 1; one_spot "A" 2] "max" out
           Hpol Hkey Hout).
Defined.

(** ** Merging: the checks, the file and the overlap statistics *)

Lemma merge_tiles_checked cfg tile_files output_file overlap_resolution w w1 :
  _ensure_directories cfg w = (Ok tt, w1) →
  merge_tiles cfg tile_files output_file overlap_resolution w =
    if bool_decide (tile_files = []) then (Err (ValueError "No tile files provided"), w1)
    else if negb (bool_decide (overlap_resolution ∈ ["average"; "max"; "first"]))
    then (Err (ValueError "Invalid overlap resolution method"), w1)
    else if negb (forallb (path_exists (w_fs w1)) tile_files)
    then (Err (IOError "Tile file not found"), w1)
    else match mkdir_parents (path_parent output_file) (w_fs w1) with
         | Err e => (Err e, w1)
         | Ok fs2 =>
             if DRY_RUN cfg
             then (Ok (merge_dry_run output_file tile_files), mkWorld fs2 (w_rng w1))
             else try_except (merge_tiles_try tile_files output_file overlap_resolution)
                    "Failed to merge tiles" (mkWorld fs2 (w_rng w1))
         end.
Proof.
  intros Hens. unfold merge_tiles. rewrite (bind_run _ _ _ _ _ Hens).
  destruct (bool_decide (tile_files = [])); [done |].
  destruct (negb (bool_decide _)); [done |].
  rewrite (bind_run _ _ _ _ _ (fs_read_run _ w1)).
  destruct (negb _); [done |].
  unfold bind, fs_update. destruct (mkdir_parents _ _); [| done].
  by destruct (DRY_RUN cfg).
Qed.

(** X20. [merge_tiles] checks its arguments in a fixed order, in a dry run
    as in a real one and before the output directory is created: an empty
    tile list raises [ValueError]; otherwise an unknown resolution policy
    raises [ValueError], even when tiles are missing; otherwise a tile that
    does not exist raises [IOError]. *)
Theorem merge_checks_in_order cfg tile_files output_file overlap_resolution w w1 :
  _ensure_directories cfg w = (Ok tt, w1) →
  let run := merge_tiles cfg tile_files output_file overlap_resolution w in
  (tile_files = [] → run = (Err (ValueError "No tile files provided"), w1)) ∧
  (tile_files ≠ [] → (overlap_resolution ∉ ["average"; "max"; "first"]) →
   run = (Err (ValueError "Invalid overlap resolution method"), w1)) ∧
  (tile_files ≠ [] → overlap_resolution ∈ ["average"; "max"; "first"] →
   (∃ p, p ∈ tile_files ∧ path_exists (w_fs w1) p = false) →
   run = (Err (IOError "Tile file not found"), w1)).
Proof.
  intros Hens run. subst run. rewrite (merge_tiles_checked _ _ _ _ _ _ Hens). split_and!.
  - intros ->. done.
  - intros Hne Hpol. rewrite bool_decide_eq_false_2 by done.
    by rewrite (bool_decide_eq_false_2 _ Hpol).
  - intros Hne Hpol (p & Hp & Hx). rewrite bool_decide_eq_false_2 by done.
    rewrite (bool_decide_eq_true_2 _ Hpol). simpl.
    destruct (forallb (path_exists (w_fs w1)) tile_files) eqn:Hall; [| done].
    rewrite forallb_forall in Hall. apply list_elem_of_In, Hall in Hp. congruence.
Qed.

Lemma merge_checks_in_order_witness :
  let w1 := snd (_ensure_directories (example_config true) mixed_world) in
  _ensure_directories (example_config true) mixed_world = (Ok tt, w1) ∧
  [["in"; "missing.csv"]] ≠ [] ∧
  ("median" ∉ ["average"; "max"; "first"]) ∧
  merge_tiles (example_config true) [["in"; "missing.csv"]] ["out"; "merged.csv"] "median"
    mixed_world
  = (Err (ValueError "Invalid overlap resolution method"), w1).
Proof.
  intros w1.
  assert (H : _ensure_directories (example_config true) mixed_world = (Ok tt, w1))
    by (vm_compute; reflexivity).
  assert (Hne : [["in"; "missing.csv"]] ≠ ([] : list Path)) by discriminate.
  assert (Hpol : "median" ∉ ["average"; "max"; "first"]) by by_evaluation.
  split; [exact H |]. split; [exact Hne |]. split; [exact Hpol |].
  exact (proj1 (proj2 (merge_checks_in_order (example_config true) [["in"; "missing.csv"]]
                         ["out"; "merged.csv"] "median" mixed_world w1 H)) Hne Hpol).
Defined.

Lemma load_tiles_none tile_files fs :
  Forall (fun p => ¬ is_csv p) tile_files → load_tiles tile_files fs = Ok [].
Proof.
  induction 1 as [| p l Hp _ IH]; [done |]. simpl.
  destruct (String.eqb_spec (suffix p) ".csv") as [E | _]; [by destruct Hp | exact IH].
Qed.

(** X21. A real run of [merge_tiles] on tiles none of which has the suffix
    [.csv] reads nothing and fails: the concatenation of no table raises
    [ValueError], re-raised as [IOError]; no file is written. *)
Theorem merge_without_csv_tiles_fails cfg tile_files output_file overlap_resolution w w1 :
  DRY_RUN cfg = false →
  _ensure_directories cfg w = (Ok tt, w1) →
  tile_files ≠ [] →
  overlap_resolution ∈ ["average"; "max"; "first"] →
  Forall (fun p => path_exists (w_fs w1) p = true) tile_files →
  is_ok (mkdir_parents (path_parent output_file) (w_fs w1)) = true →
  Forall (fun p => ¬ is_csv p) tile_files →
  let run := merge_tiles cfg tile_files output_file overlap_resolution w in
  fst run = Err (IOErrorFrom "Failed to merge tiles" (ValueError "No objects to concatenate")) ∧
  fs_files (w_fs (snd run)) = fs_files (w_fs w).
Proof.
  intros Hdry Hens Hne Hpol Hall Hmk Hcsv run. subst run.
  rewrite (merge_tiles_checked _ _ _ _ _ _ Hens).
  rewrite bool_decide_eq_false_2 by done. rewrite (bool_decide_eq_true_2 _ Hpol). simpl.
  replace (forallb (path_exists (w_fs w1)) tile_files) with true.
  2:{ symmetry. apply forallb_forall. intros p Hp%list_elem_of_In.
      by apply (proj1 (Forall_forall _ _) Hall). }
  simpl. rewrite Hdry.
  destruct (mkdir_parents (path_parent output_file) (w_fs w1)) as [fs2 | e] eqn:Hmk2;
    [| discriminate].
  pose proof (ensure_directories_grows _ _ _ _ Hens) as [Hf1 _].
  pose proof (mkdir_parents_grows _ _ _ Hmk2) as [Hf2 _].
  unfold try_except, merge_tiles_try, bind, fs_get, lift. simpl.
  rewrite (load_tiles_none _ _ Hcsv). simpl. split; [done | congruence].
Qed.

Lemma merge_without_csv_tiles_fails_witness :
  let w1 := snd (_ensure_directories (example_config false) mixed_world) in
  let run := merge_tiles (example_config false) [["in"; "notes.txt"]] ["out"; "merged.csv"]
               "first" mixed_world in
  DRY_RUN (example_config false) = false ∧
  _ensure_directories (example_config false) mixed_world = (Ok tt, w1) ∧
  [["in"; "notes.txt"]] ≠ [] ∧
  "first" ∈ ["average"; "max"; "first"] ∧
  Forall (fun p => path_exists (w_fs w1) p = true) [["in"; "notes.txt"]] ∧
  is_ok (mkdir_parents (path_parent ["out"; "merged.csv"]) (w_fs w1)) = true ∧
  Forall (fun p => ¬ is_csv p) [["in"; "notes.txt"]] ∧
  fst run = Err (IOErrorFrom "Failed to merge tiles" (ValueError "No objects to concatenate")) ∧
  fs_files (w_fs (snd run)) = fs_files (w_fs mixed_world).
Proof.
  intros w1 run.
  assert (H : _ensure_directories (example_config false) mixed_world = (Ok tt, w1))
    by (vm_compute; reflexivity).
  assert (Hne : [["in"; "notes.txt"]] ≠ ([] : list Path)) by discriminate.
  assert (Hpol : "first" ∈ ["average"; "max"; "first"]) by by_evaluation.
  assert (Hall : Forall (fun p => path_exists (w_fs w1) p = true) [["in"; "notes.txt"]])
    by (repeat constructor; vm_compute; reflexivity).
  assert (Hmk : is_ok (mkdir_parents (path_parent ["out"; "merged.csv"]) (w_fs w1)) = true)
    by (vm_compute; reflexivity).
  assert (Hcsv : Forall (fun p => ¬ is_csv p) [["in"; "notes.txt"]])
    by (repeat constructor; vm_compute; discriminate).
  split; [reflexivity |]. split; [exact H |]. split; [exact Hne |]. split; [exact Hpol |].
  split; [exact Hall |]. split; [exact Hmk |]. split; [exact Hcsv |].
  exact (merge_without_csv_tiles_fails (example_config false) [["in"; "notes.txt"]]
           ["out"; "merged.csv"] "first" mixed_world w1 eq_refl H Hne Hpol Hall Hmk Hcsv).
Defined.

(** *** A real run that returns *)

Lemma load_tiles_files tile_files fs fs' all_data :
  fs_files fs' = fs_files fs →
  load_tiles tile_files fs' = Ok all_data → load_tiles tile_files fs = Ok all_data.
Proof.
  intros Hf. revert all_data. induction tile_files as [| p l IH]; intros all_data; [done |].
  simpl. destruct (String.eqb (suffix p) ".csv"); [| apply IH].
  unfold read_csv. rewrite Hf.
  destruct (fs_files fs !! p) as [[df |] |]; simpl.
  - destruct (load_tiles l fs') as [ds |]; simpl; [| discriminate].
    intros [= <-]. by rewrite (IH ds).
  - discriminate.
  - by destruct (is_dir fs' p).
Qed.

Lemma merge_tiles_ok cfg tile_files output_file overlap_resolution w r w' :
  DRY_RUN cfg = false →
  merge_tiles cfg tile_files output_file overlap_resolution w = (Ok r, w') →
  ∃ all_data merged,
    load_tiles tile_files (w_fs w) = Ok all_data ∧
    merge_tables all_data overlap_resolution = Ok merged ∧
    fs_files (w_fs w') = <[output_file := CsvFile merged]> (fs_files (w_fs w)) ∧
    overlap_stats all_data merged = Ok (overlap_regions r) ∧
    mt_output_file r = output_file ∧
    total_barcodes r = Z.of_nat (len merged).
Proof.
  intros Hdry. rewrite merge_tiles_real by done.
  destruct (_ensure_directories cfg w) as [[[] | e] w1] eqn:Hens; [| discriminate].
  pose proof (ensure_directories_grows _ _ _ _ Hens) as [Hf1 _].
  destruct (bool_decide (tile_files = [])); [discriminate |].
  destruct (negb (bool_decide _)); [discriminate |].
  destruct (negb _); [discriminate |].
  destruct (mkdir_parents _ _) as [fs2 |] eqn:Hmk; [| discriminate].
  pose proof (mkdir_parents_grows _ _ _ Hmk) as [Hf2 _].
  rewrite try_except_ok. unfold merge_tiles_try. intros H.
  apply bind_ok in H as (all_data & u0 & Hload & H).
  unfold fs_get in Hload. injection Hload as Hload <-. simpl in Hload.
  apply bind_ok in H as (merged & u1 & Hmerge & H).
  unfold lift in Hmerge. injection Hmerge as Hmerge <-.
  apply bind_ok in H as ([] & u2 & Hcsv & H).
  apply fs_update_ok in Hcsv as (fs3 & Hcsv & ->). apply to_csv_ok in Hcsv as ->.
  apply bind_ok in H as (overlap & u3 & Hov & H).
  unfold lift in Hov. injection Hov as Hov <-.
  unfold ret in H. injection H as <- <-. simpl.
  exists all_data, merged. split_and!; try done.
  - apply (load_tiles_files _ _ fs2); [congruence | done].
  - congruence.
Qed.

(** X22. A real run of [merge_tiles] that returns has written the merged
    table to the output file it names and has changed no other file;
    [total_barcodes] is the size of that table, which is at most the sum of
    the sizes of the tiles that were read. *)
Theorem merge_writes_merged_table cfg tile_files output_file overlap_resolution w r :
  DRY_RUN cfg = false →
  let run := merge_tiles cfg tile_files output_file overlap_resolution w in
  fst run = Ok r →
  ∃ all_data merged,
    load_tiles tile_files (w_fs w) = Ok all_data ∧
    merge_tables all_data overlap_resolution = Ok merged ∧
    mt_output_file r = output_file ∧
    fs_files (w_fs (snd run)) !! output_file = Some (CsvFile merged) ∧
    (∀ p, p ≠ output_file → fs_files (w_fs (snd run)) !! p = fs_files (w_fs w) !! p) ∧
    total_barcodes r = Z.of_nat (len merged) ∧
    (total_barcodes r ≤ Z.of_nat (sum_list (map len all_data)))%Z.
Proof.
  intros Hdry run Hrun. subst run.
  destruct (merge_tiles _ _ _ _ w) as [res w'] eqn:Hq. simpl in *. subst res.
  apply merge_tiles_ok in Hq as (all_data & merged & Hload & Hmerge & Hfs & _ & Hout & Htot);
    [| done].
  exists all_data, merged. split_and!; try done.
  - rewrite Hfs. apply lookup_insert_eq.
  - intros p Hp. rewrite Hfs. by apply lookup_insert_ne.
  - rewrite Htot. apply inj_le. by eapply merge_tables_len.
Qed.

Lemma merge_writes_merged_table_witness :
  let run := merge_example two_tiles "average" in
  DRY_RUN (example_config false) = false ∧
  fst run = Ok two_tiles_result ∧
  ∃ all_data merged,
    load_tiles two_tiles (w_fs three_tiles_world) = Ok all_data ∧
    merge_tables all_data "average" = Ok merged ∧
    mt_output_file two_tiles_result = ["out"; "merged.csv"] ∧
    fs_files (w_fs (snd run)) !! ["out"; "merged.csv"] = Some (CsvFile merged) ∧
    (∀ p, p ≠ ["out"; "merged.csv"] →
          fs_files (w_fs (snd run)) !! p = fs_files (w_fs three_tiles_world) !! p) ∧
    total_barcodes two_tiles_result = Z.of_nat (len merged) ∧
    (total_barcodes two_tiles_result ≤ Z.of_nat (sum_list (map len all_data)))%Z.
Proof.
  intros run.
  assert (Hrun : fst run = Ok two_tiles_result) by (vm_compute; reflexivity).
  split; [reflexivity |]. split; [exact Hrun |].
  exact (merge_writes_merged_table (example_config false) two_tiles ["out"; "merged.csv"]
           "average" three_tiles_world two_tiles_result eq_refl Hrun).
Defined.

(** *** The overlap statistics of two tiles *)

Lemma merge_tables_disjoint dfs pol out :
  merge_tables dfs pol = Ok out →
  NoDup (key_values dfs "barcode") → (NaN ∉ key_values dfs "barcode") →
  len out = sum_list (map len dfs).
Proof.
  unfold merge_tables. destruct (concat dfs) as [cat |] eqn:Hcat; simpl; [| discriminate].
  rewrite <- (concat_len _ _ Hcat). apply concat_ok in Hcat as [_ ->].
  intros H Hnd Hnan. rewrite <- key_column_concat in Hnd, Hnan.
  set (cat := mkDF (union_columns dfs) (dfs ≫= reindex (union_columns dfs))) in *.
  assert (Hgroup : ∀ agg, groupby_agg agg cat "barcode" = Ok out → len out = len cat).
  { intros agg Hg. rewrite (groupby_agg_len _ _ _ _ Hg). unfold group_keys.
    rewrite merge_sort_Permutation. cbn [columns rows cat].
    rewrite filter_all by (apply Forall_forall; by intros v Hv ->).
    rewrite unique_NoDup by done. by rewrite length_map. }
  revert H. unfold resolve_overlaps. destruct (has_column cat "barcode"); [| by intros [= <-]].
  destruct (String.eqb pol "first").
  { intros [= <-]. unfold drop_duplicates, len. cbn [columns rows cat].
    rewrite drop_seen_fresh; [done | done |]. intros r _. apply not_elem_of_nil. }
  destruct (String.eqb pol "average"); [apply Hgroup |].
  destruct (String.eqb pol "max"); [apply Hgroup |].
  by intros [= <-].
Qed.

(** X23. For exactly two tiles that are read, the overlap [merge_tiles]
    reports is the sum of the sizes of the two tiles minus the size of the
    merged table; it is not negative, nor is the percentage; and both are 0
    when no barcode is missing and none occurs twice in the two tiles. *)
Theorem merge_overlap_of_two_tiles cfg tile_files output_file overlap_resolution w r d0 d1 :
  DRY_RUN cfg = false →
  load_tiles tile_files (w_fs w) = Ok [d0; d1] →
  fst (merge_tiles cfg tile_files output_file overlap_resolution w) = Ok r →
  overlapping_barcodes (overlap_regions r)
  = (Z.of_nat (len d0) + Z.of_nat (len d1) - total_barcodes r)%Z ∧
  (0 ≤ overlapping_barcodes (overlap_regions r))%Z ∧
  (0 ≤ overlap_percent (overlap_regions r))%Qc ∧
  (NoDup (key_values [d0; d1] "barcode") → (NaN ∉ key_values [d0; d1] "barcode") →
   overlapping_barcodes (overlap_regions r) = 0%Z ∧
   overlap_percent (overlap_regions r) = Qc_of_Z 0).
Proof.
  intros Hdry Hload Hrun.
  destruct (merge_tiles _ _ _ _ w) as [res w'] eqn:Hq. simpl in *. subst res.
  apply merge_tiles_ok in Hq as (all_data & merged & Hload' & Hmerge & _ & Hov & _ & Htot);
    [| done].
  rewrite Hload in Hload'. injection Hload' as <-.
  pose proof (merge_tables_len _ _ _ Hmerge) as Hlen. simpl in Hlen.
  revert Hov. unfold overlap_stats.
  set (ov := (Z.of_nat (len d0) + Z.of_nat (len d1) - Z.of_nat (len merged))%Z).
  assert (Hov0 : (0 ≤ ov)%Z) by (subst ov; lia).
  destruct (0 <? len merged)%nat eqn:Hpos.
  - apply Nat.ltb_lt in Hpos. pose proof (Qc_of_nat_pos _ Hpos) as Hq.
    unfold py_div. destruct (decide (Qc_of_nat (len merged) = 0%Qc)) as [E | _].
    { rewrite E in Hq. by apply Qclt_not_le in Hq. }
    simpl. intros [= <-]. simpl. rewrite Htot. split_and!; [done | done | |].
    + apply Qcmult_nonneg_nonneg; [| by_evaluation].
      unfold Qcdiv. apply Qcmult_nonneg_nonneg.
      * rewrite <- Z2Qc_inj_0. by apply (proj1 (Z2Qc_inj_le _ _)).
      * apply Qclt_le_weak. by apply Qcinv_pos.
    + intros Hnd Hnan. pose proof (merge_tables_disjoint _ _ _ Hmerge Hnd Hnan) as Hsum.
      simpl in Hsum. assert (ov = 0%Z) as -> by (subst ov; lia). split; [done |].
      rewrite Z2Qc_inj_0. unfold Qcdiv. by rewrite !Qcmult_0_l.
  - apply Nat.ltb_ge in Hpos. simpl. intros [= <-]. simpl. rewrite Htot.
    split_and!; [done | done | by_evaluation |].
    intros Hnd Hnan. pose proof (merge_tables_disjoint _ _ _ Hmerge Hnd Hnan) as Hsum.
    simpl in Hsum. split; [subst ov; lia | done].
Qed.

Lemma merge_overlap_of_two_tiles_witness :
  DRY_RUN (example_config false) = false ∧
  load_tiles two_tiles (w_fs three_tiles_world) = Ok [tile_1; tile_2] ∧
  fst (merge_example two_tiles "average") = Ok two_tiles_result ∧
  overlapping_barcodes (overlap_regions two_tiles_result)
  = (Z.of_nat (len tile_1) + Z.of_nat (len tile_2) - total_barcodes two_tiles_result)%Z ∧
  (0 ≤ overlapping_barcodes (overlap_regions two_tiles_result))%Z ∧
  (0 ≤ overlap_percent (overlap_regions two_tiles_result))%Qc.
Proof.
  assert (Hload : load_tiles two_tiles (w_fs three_tiles_world) = Ok [tile_1; tile_2])
    by (vm_compute; reflexivity).
  assert (Hrun : fst (merge_example two_tiles "average") = Ok two_tiles_result)
    by (vm_compute; reflexivity).
  split; [reflexivity |]. split; [exact Hload |]. split; [exact Hrun |].
  pose proof (merge_overlap_of_two_tiles (example_config false) two_tiles ["out"; "merged.csv"]
                "average" three_tiles_world two_tiles_result tile_1 tile_2 eq_refl Hload Hrun)
    as (H1 & H2 & H3 & _).
  exact (conj H1 (conj H2 H3)).
Defined.

(** *** No division by zero *)

Lemma nzd_mapM {A B} (f : A → result B) l :
  (∀ x, not_zero_division (f x)) → not_zero_division (mapM f l).
Proof.
  intros Hf e H. apply mapM_err in H as (x & _ & Hx). by apply (Hf x).
Qed.

Lemma nzd_load_tiles tile_files fs : not_zero_division (load_tiles tile_files fs).
Proof.
  induction tile_files as [| p l IH]; simpl; [apply nzd_ok |].
  destruct (String.eqb _ _); [| done].
  apply nzd_bind; [apply nzd_read_csv | intros d].
  apply nzd_bind; [done | intros ds; apply nzd_ok].
Qed.

Lemma nzd_groupby_agg agg df key :
  (∀ s, not_zero_division (agg s)) → not_zero_division (groupby_agg agg df key).
Proof.
  intros Hagg. unfold groupby_agg. apply nzd_bind; [| intros rs; apply nzd_ok].
  apply nzd_mapM. intros k. apply nzd_bind; [| intros vs; apply nzd_ok].
  apply nzd_mapM. intros c. apply Hagg.
Qed.

Lemma nzd_merge_tables dfs pol : not_zero_division (merge_tables dfs pol).
Proof.
  unfold merge_tables. apply nzd_bind.
  - unfold concat. destruct dfs; [by intros e [= <-] | apply nzd_ok].
  - intros cat. unfold resolve_overlaps.
    destruct (has_column cat "barcode"); [| apply nzd_ok].
    destruct (String.eqb pol "first"); [apply nzd_ok |].
    destruct (String.eqb pol "average"); [apply nzd_groupby_agg, nzd_group_mean |].
    destruct (String.eqb pol "max"); [apply nzd_groupby_agg, nzd_series_max | apply nzd_ok].
Qed.

(** The percentage is computed only for a merged table that has rows. *)
Lemma nzd_overlap_stats all_data merged : not_zero_division (overlap_stats all_data merged).
Proof.
  unfold overlap_stats. destruct all_data as [| d0 [| d1 rest]]; [apply nzd_ok.. |].
  apply nzd_bind; [| intros q; apply nzd_ok].
  destruct (0 <? len merged)%nat eqn:Hpos; [| apply nzd_ok].
  apply Nat.ltb_lt, Qc_of_nat_pos in Hpos.
  apply nzd_bind; [| intros q; apply nzd_ok].
  unfold py_div. destruct (decide _) as [E | _]; [| apply nzd_ok].
  rewrite E in Hpos. by apply Qclt_not_le in Hpos.
Qed.

(** X24. No call of [merge_tiles] fails with a division by zero: the overlap
    percentage divides by the size of the merged table only when that table
    has rows, and a real run whose merged table has no row returns, as its
    overlap percentage, 0 instead. *)
Theorem merge_never_divides_by_zero cfg tile_files output_file overlap_resolution :
  never_zero_division (merge_tiles cfg tile_files output_file overlap_resolution) ∧
  ∀ w r,
    DRY_RUN cfg = false →
    fst (merge_tiles cfg tile_files output_file overlap_resolution w) = Ok r →
    total_barcodes r = 0%Z →
    overlap_percent (overlap_regions r) = Qc_of_Z 0.
Proof.
  split.
  - unfold merge_tiles.
    apply nvzd_bind; [apply nvzd_ensure_directories | intros _].
    destruct (bool_decide (tile_files = [])); [by intros w e [= <-] |].
    destruct (negb (bool_decide _)); [by intros w e [= <-] |].
    apply nvzd_bind; [by intros w e | intros found].
    destruct (negb found); [by intros w e [= <-] |].
    apply nvzd_bind; [apply nvzd_fs_update, nzd_mkdir_parents | intros _].
    destruct (DRY_RUN cfg); [by intros w e |].
    apply nvzd_try_except. unfold merge_tiles_try.
    apply nvzd_bind; [apply nvzd_fs_get, nzd_load_tiles | intros all_data].
    apply nvzd_bind; [apply nvzd_lift, nzd_merge_tables | intros merged].
    apply nvzd_bind; [apply nvzd_fs_update; intros fs; apply nzd_to_csv | intros _].
    apply nvzd_bind; [apply nvzd_lift, nzd_overlap_stats | intros overlap].
    by intros w e.
  - intros w r Hdry Hrun Hzero.
    destruct (merge_tiles cfg tile_files output_file overlap_resolution w) as [res w'] eqn:Hq.
    simpl in Hrun. subst res.
    apply merge_tiles_ok in Hq as (all_data & merged & _ & _ & _ & Hov & _ & Htot); [| done].
    assert (len merged = 0%nat) as Hlen by lia.
    unfold overlap_stats in Hov. rewrite Hlen in Hov.
    destruct all_data as [| d0 [| d1 rest]]; simpl in Hov; by injection Hov as <-.
Qed.

(** Two tiles without rows, merged by averaging: no barcode, and an overlap
    of 0 percent. *)
Lemma merge_never_divides_by_zero_witness :
  DRY_RUN (example_config false) = false ∧
  fst (merge_tiles (example_config false) two_tiles ["out"; "merged.csv"] "average"
         empty_tiles_world) = Ok empty_tiles_result ∧
  total_barcodes empty_tiles_result = 0%Z ∧
  overlap_percent (overlap_regions empty_tiles_result) = Qc_of_Z 0.
Proof.
  assert (Hrun : fst (merge_tiles (example_config false) two_tiles ["out"; "merged.csv"]
                        "average" empty_tiles_world) = Ok empty_tiles_result)
    by (vm_compute; reflexivity).
  split; [reflexivity |]. split; [exact Hrun |]. split; [reflexivity |].
  exact (proj2 (merge_never_divides_by_zero (example_config false) two_tiles
                  ["out"; "merged.csv"] "average")
           empty_tiles_world empty_tiles_result eq_refl Hrun eq_refl).
Defined.

(** ** Alignment *)

Lemma align_checks_run cfg fastq_r1 fastq_r2 output_dir threads w w1 :
  _ensure_directories cfg w = (Ok tt, w1) →
  align_checks cfg fastq_r1 fastq_r2 output_dir threads w =
    if negb (path_exists (w_fs w1) fastq_r1) then (Err (IOError "FASTQ R1 not found"), w1)
    else if negb (path_exists (w_fs w1) fastq_r2) then (Err (IOError "FASTQ R2 not found"), w1)
    else if bool_decide (threads < 1)%Z || bool_decide (64 < threads)%Z
    then (Err (ValueError "Invalid thread count"), w1)
    else match mkdir_parents output_dir (w_fs w1) with
         | Err e => (Err e, w1)
         | Ok fs2 => (Ok output_dir, mkWorld fs2 (w_rng w1))
         end.
Proof.
  intros Hens. unfold align_checks. rewrite (bind_run _ _ _ _ _ Hens).
  rewrite (bind_run _ _ _ _ _ (fs_read_run _ w1)).
  destruct (negb _); [done |].
  rewrite (bind_run _ _ _ _ _ (fs_read_run _ w1)).
  destruct (negb _); [done |]. destruct (_ || _); [done |].
  unfold bind, fs_update. by destruct (mkdir_parents _ _).
Qed.

(** X25. [align_spatial_data] checks its arguments in a fixed order, before
    it creates the output directory and before STAR is run, in a dry run as
    in a real one: a missing R1 file raises [IOError], then a missing R2
    file raises [IOError], then a thread count outside 1..64 raises
    [ValueError]. The reference genome is not among the things checked. *)
Theorem align_checks_in_order star_path subprocess_run cfg fastq_r1 fastq_r2 reference_genome
    output_dir threads w w1 :
  _ensure_directories cfg w = (Ok tt, w1) →
  let run := align_spatial_data star_path subprocess_run cfg fastq_r1 fastq_r2
               reference_genome output_dir threads w in
  (path_exists (w_fs w1) fastq_r1 = false →
   run = (Raises (Unhandled (IOError "FASTQ R1 not found")), w1)) ∧
  (path_exists (w_fs w1) fastq_r1 = true → path_exists (w_fs w1) fastq_r2 = false →
   run = (Raises (Unhandled (IOError "FASTQ R2 not found")), w1)) ∧
  (path_exists (w_fs w1) fastq_r1 = true → path_exists (w_fs w1) fastq_r2 = true →
   (threads < 1 ∨ 64 < threads)%Z →
   run = (Raises (Unhandled (ValueError "Invalid thread count")), w1)).
Proof.
  intros Hens run. subst run. unfold align_spatial_data.
  rewrite (align_checks_run _ _ _ _ _ _ _ Hens). split_and!.
  - by intros ->.
  - by intros -> ->.
  - intros -> -> Hthreads. simpl.
    replace (bool_decide (threads < 1)%Z || bool_decide (64 < threads)%Z) with true; [done |].
    symmetry. apply orb_true_iff. rewrite !bool_decide_eq_true. done.
Qed.

Lemma align_checks_in_order_witness :
  let w1 := snd (_ensure_directories (example_config true) qc_world) in
  _ensure_directories (example_config true) qc_world = (Ok tt, w1) ∧
  path_exists (w_fs w1) ["in"; "spots.csv"] = true ∧
  path_exists (w_fs w1) ["in"; "R2.fastq.gz"] = false ∧
  align_spatial_data "STAR" (fun _ w => (Completed 0, w)) (example_config true)
    ["in"; "spots.csv"] ["in"; "R2.fastq.gz"] ["ref"; "hg38"] ["out"] 0 qc_world
  = (Raises (Unhandled (IOError "FASTQ R2 not found")), w1).
Proof.
  intros w1.
  assert (H : _ensure_directories (example_config true) qc_world = (Ok tt, w1))
    by (vm_compute; reflexivity).
  assert (H1 : path_exists (w_fs w1) ["in"; "spots.csv"] = true) by (vm_compute; reflexivity).
  assert (H2 : path_exists (w_fs w1) ["in"; "R2.fastq.gz"] = false)
    by (vm_compute; reflexivity).
  split; [exact H |]. split; [exact H1 |]. split; [exact H2 |].
  exact (proj1 (proj2 (align_checks_in_order "STAR" (fun _ w => (Completed 0%Z, w))
                         (example_config true) ["in"; "spots.csv"] ["in"; "R2.fastq.gz"]
                         ["ref"; "hg38"] ["out"] 0 qc_world w1 H)) H1 H2).
Defined.

(** X26. The thread counts [align_spatial_data] accepts are those
    [validate_thread_count] accepts with its default maximum of 64: with
    both read files in place, the call raises the [ValueError] for the
    thread count exactly when the shared validator raises; the validator
    returns the count it is given, which then lies between 1 and the
    maximum. *)
Theorem align_thread_range_is_validated star_path subprocess_run cfg fastq_r1 fastq_r2
    reference_genome output_dir threads w w1 :
  _ensure_directories cfg w = (Ok tt, w1) →
  path_exists (w_fs w1) fastq_r1 = true →
  path_exists (w_fs w1) fastq_r2 = true →
  (fst (align_spatial_data star_path subprocess_run cfg fastq_r1 fastq_r2 reference_genome
          output_dir threads w)
   = Raises (Unhandled (ValueError "Invalid thread count"))
   ↔ ∃ msg, validate_thread_count threads 64 = MCPValidationError msg) ∧
  (∀ max_threads t, validate_thread_count threads max_threads = Valid t →
                    t = threads ∧ (1 ≤ t ≤ max_threads)%Z).
Proof.
  intros Hens H1 H2. split.
  - unfold align_spatial_data. rewrite (align_checks_run _ _ _ _ _ _ _ Hens), H1, H2. simpl.
    unfold validate_thread_count.
    destruct (bool_decide (threads < 1)%Z); simpl; [split; [by eexists | done] |].
    destruct (bool_decide (64 < threads)%Z); simpl; [split; [by eexists | done] |].
    split; [| by intros [msg ?]].
    destruct (mkdir_parents output_dir (w_fs w1)) as [fs2 | e] eqn:Hmk.
    + destruct (DRY_RUN cfg); [discriminate |].
      destruct (align_try _ _ _ _ _ _ _ _ _) as [[[| |] | r] w2]; discriminate.
    + intros [= ->]. exfalso. revert Hmk. unfold mkdir_parents.
      destruct (under_a_file _ _); [discriminate |]. by destruct (is_file _ _).
  - intros max_threads t. unfold validate_thread_count.
    destruct (bool_decide_reflect (threads < 1)%Z); [discriminate |].
    destruct (bool_decide_reflect (max_threads < threads)%Z); [discriminate |].
    intros [= <-]. lia.
Qed.

Lemma align_thread_range_is_validated_witness :
  let w := example_world [(["in"; "R1.fastq.gz"], OtherFile); (["in"; "R2.fastq.gz"], OtherFile)]
             (fun _ => 0%N) in
  let w1 := snd (_ensure_directories (example_config true) w) in
  _ensure_directories (example_config true) w = (Ok tt, w1) ∧
  path_exists (w_fs w1) ["in"; "R1.fastq.gz"] = true ∧
  path_exists (w_fs w1) ["in"; "R2.fastq.gz"] = true ∧
  (fst (align_spatial_data "STAR" (fun _ w => (Completed 0, w)) (example_config true)
          ["in"; "R1.fastq.gz"] ["in"; "R2.fastq.gz"] ["ref"; "hg38"] ["out"] 65 w)
   = Raises (Unhandled (ValueError "Invalid thread count"))
   ↔ ∃ msg, validate_thread_count 65 64 = MCPValidationError msg).
Proof.
  intros w w1.
  assert (H : _ensure_directories (example_config true) w = (Ok tt, w1))
    by (vm_compute; reflexivity).
  assert (H1 : path_exists (w_fs w1) ["in"; "R1.fastq.gz"] = true)
    by (vm_compute; reflexivity).
  assert (H2 : path_exists (w_fs w1) ["in"; "R2.fastq.gz"] = true)
    by (vm_compute; reflexivity).
  split; [exact H |]. split; [exact H1 |]. split; [exact H2 |].
  exact (proj1 (align_thread_range_is_validated "STAR" (fun _ w => (Completed 0%Z, w))
                  (example_config true) ["in"; "R1.fastq.gz"] ["in"; "R2.fastq.gz"]
                  ["ref"; "hg38"] ["out"] 65 w w1 H H1 H2)).
Defined.

(** X27. In a dry run [align_spatial_data] returns the placeholder result
    once its checks have passed: the paths of the BAM file and of the log
    below the output directory, the fixed statistics and the mode
    [dry_run]. STAR is not run and the genome path is not looked at (the
    result is the same for every genome path and every behaviour of the
    program); the output directory is created, no file is written. *)
Theorem align_dry_run_placeholder star_path subprocess_run cfg fastq_r1 fastq_r2
    reference_genome output_dir threads w w1 :
  DRY_RUN cfg = true →
  _ensure_directories cfg w = (Ok tt, w1) →
  path_exists (w_fs w1) fastq_r1 = true →
  path_exists (w_fs w1) fastq_r2 = true →
  (1 ≤ threads ≤ 64)%Z →
  is_ok (mkdir_parents output_dir (w_fs w1)) = true →
  let run := align_spatial_data star_path subprocess_run cfg fastq_r1 fastq_r2
               reference_genome output_dir threads w in
  fst run = Returned (mkAlignResult (output_dir ++ ["Aligned.sortedByCoord.out.bam"])
                        mock_alignment_stats (output_dir ++ ["Log.final.out"])
                        (Some "dry_run")) ∧
  fs_files (w_fs (snd run)) = fs_files (w_fs w) ∧
  is_dir (w_fs (snd run)) output_dir = true ∧
  w_rng (snd run) = w_rng w.
Proof.
  intros Hdry Hens H1 H2 Hthreads Hmk run. subst run. unfold align_spatial_data.
  rewrite (align_checks_run _ _ _ _ _ _ _ Hens), H1, H2. simpl.
  rewrite (bool_decide_eq_false_2 (threads < 1)%Z) by lia.
  rewrite (bool_decide_eq_false_2 (64 < threads)%Z) by lia. simpl.
  destruct (mkdir_parents output_dir (w_fs w1)) as [fs2 | e] eqn:Hmk2; [| discriminate].
  rewrite Hdry. simpl.
  pose proof (ensure_directories_steps _ _ _ Hens) as ([Hf1 _] & Hrng & _).
  apply mkdir_parents_in_place in Hmk2 as [Hplace [Hf2 _]].
  split_and!; [done | congruence | by apply in_place_is_dir | done].
Qed.

Lemma align_dry_run_placeholder_witness :
  let w := example_world [(["in"; "R1.fastq.gz"], OtherFile); (["in"; "R2.fastq.gz"], OtherFile)]
             (fun _ => 0%N) in
  let w1 := snd (_ensure_directories (example_config true) w) in
  let run := align_spatial_data "STAR" (fun _ w => (TimedOut, w)) (example_config true)
               ["in"; "R1.fastq.gz"] ["in"; "R2.fastq.gz"] ["ref"; "missing"] ["out"] 8 w in
  DRY_RUN (example_config true) = true ∧
  _ensure_directories (example_config true) w = (Ok tt, w1) ∧
  path_exists (w_fs w1) ["in"; "R1.fastq.gz"] = true ∧
  path_exists (w_fs w1) ["in"; "R2.fastq.gz"] = true ∧
  (1 ≤ 8 ≤ 64)%Z ∧
  is_ok (mkdir_parents ["out"] (w_fs w1)) = true ∧
  fst run = Returned (mkAlignResult ["out"; "Aligned.sortedByCoord.out.bam"]
                        mock_alignment_stats ["out"; "Log.final.out"] (Some "dry_run")) ∧
  fs_files (w_fs (snd run)) = fs_files (w_fs w) ∧
  is_dir (w_fs (snd run)) ["out"] = true ∧
  w_rng (snd run) = w_rng w.
Proof.
  intros w w1 run.
  assert (H : _ensure_directories (example_config true) w = (Ok tt, w1))
    by (vm_compute; reflexivity).
  assert (H1 : path_exists (w_fs w1) ["in"; "R1.fastq.gz"] = true)
    by (vm_compute; reflexivity).
  assert (H2 : path_exists (w_fs w1) ["in"; "R2.fastq.gz"] = true)
    by (vm_compute; reflexivity).
  assert (Ht : (1 ≤ 8 ≤ 64)%Z) by lia.
  assert (Hmk : is_ok (mkdir_parents ["out"] (w_fs w1)) = true) by (vm_compute; reflexivity).
  split; [reflexivity |]. split; [exact H |]. split; [exact H1 |]. split; [exact H2 |].
  split; [exact Ht |]. split; [exact Hmk |].
  exact (align_dry_run_placeholder "STAR" (fun _ w => (TimedOut, w)) (example_config true)
           ["in"; "R1.fastq.gz"] ["in"; "R2.fastq.gz"] ["ref"; "missing"] ["out"] 8 w w1
           eq_refl H H1 H2 Ht Hmk).
Defined.

(** X28. Once its checks have passed, a real run of [align_spatial_data]
    runs STAR once, on the world the checks left, and its outcome is
    decided by what the program did: return code 0 gives the result with
    the fixed statistics, whatever STAR wrote; any other return code, a
    timeout or an exception of the call gives [IOError] raised from it. No
    exception of the subprocess module reaches the caller. The read files
    are passed R2 first. *)
Theorem align_real_run_outcome star_path subprocess_run cfg fastq_r1 fastq_r2
    reference_genome output_dir threads w w1 fs2 :
  DRY_RUN cfg = false →
  _ensure_directories cfg w = (Ok tt, w1) →
  path_exists (w_fs w1) fastq_r1 = true →
  path_exists (w_fs w1) fastq_r2 = true →
  (1 ≤ threads ≤ 64)%Z →
  mkdir_parents output_dir (w_fs w1) = Ok fs2 →
  let cmd := star_cmd star_path fastq_r1 fastq_r2 reference_genome output_dir threads in
  let ran := subprocess_run cmd (mkWorld fs2 (w_rng w1)) in
  let run := align_spatial_data star_path subprocess_run cfg fastq_r1 fastq_r2
               reference_genome output_dir threads w in
  snd run = snd ran ∧
  fst run = match fst ran with
            | Completed returncode =>
                if (returncode =? 0)%Z
                then Returned (mkAlignResult (output_dir ++ ["Aligned.sortedByCoord.out.bam"])
                                 mock_alignment_stats (output_dir ++ ["Log.final.out"]) None)
                else Raises (AlignIOError "STAR alignment failed"
                               (CalledProcessError returncode cmd))
            | TimedOut => Raises (AlignIOError "STAR alignment timeout" TimeoutExpired)
            | Failed e => Raises (AlignIOError "STAR alignment failed" (Raised e))
            end ∧
  (∀ e, fst run ≠ Raises (Unhandled e)) ∧
  (∃ before after, cmd = before ++ [Lit "--readFilesIn"; PathArg fastq_r2; PathArg fastq_r1]
                           ++ after).
Proof.
  intros Hdry Hens H1 H2 Hthreads Hmk cmd ran run. subst run ran.
  unfold align_spatial_data.
  rewrite (align_checks_run _ _ _ _ _ _ _ Hens), H1, H2. simpl.
  rewrite (bool_decide_eq_false_2 (threads < 1)%Z) by lia.
  rewrite (bool_decide_eq_false_2 (64 < threads)%Z) by lia. simpl.
  rewrite Hmk, Hdry. unfold align_try. rewrite Hdry. fold cmd.
  split_and!.
  - destruct (subprocess_run cmd _) as [[rc | | e] w2]; simpl; [| done | done].
    by destruct (rc =? 0)%Z.
  - destruct (subprocess_run cmd _) as [[rc | | e] w2]; simpl; [| done | done].
    by destruct (rc =? 0)%Z.
  - intros e0. destruct (subprocess_run cmd _) as [[rc | | e] w2]; simpl; [| done | done].
    by destruct (rc =? 0)%Z.
  - by exists [Lit star_path; Lit "--runThreadN"; Lit (pretty threads); Lit "--genomeDir";
              PathArg reference_genome], (drop 8 cmd).
Qed.

Lemma align_real_run_outcome_witness :
  let w := example_world [(["in"; "R1.fastq.gz"], OtherFile); (["in"; "R2.fastq.gz"], OtherFile)]
             (fun _ => 0%N) in
  let w1 := snd (_ensure_directories (example_config false) w) in
  let fs2 := mkFS (fs_dirs (w_fs w1) ∪ list_to_set (prefixes ["out"])) (fs_files (w_fs w1)) in
  let run := align_spatial_data "STAR" (fun _ w => (Completed 1, w)) (example_config false)
               ["in"; "R1.fastq.gz"] ["in"; "R2.fastq.gz"] ["ref"; "hg38"] ["out"] 8 w in
  DRY_RUN (example_config false) = false ∧
  _ensure_directories (example_config false) w = (Ok tt, w1) ∧
  path_exists (w_fs w1) ["in"; "R1.fastq.gz"] = true ∧
  path_exists (w_fs w1) ["in"; "R2.fastq.gz"] = true ∧
  (1 ≤ 8 ≤ 64)%Z ∧
  mkdir_parents ["out"] (w_fs w1) = Ok fs2 ∧
  fst run = Raises (AlignIOError "STAR alignment failed"
                      (CalledProcessError 1
                         (star_cmd "STAR" ["in"; "R1.fastq.gz"] ["in"; "R2.fastq.gz"]
                            ["ref"; "hg38"] ["out"] 8))).
Proof.
  intros w w1 fs2 run.
  assert (H : _ensure_directories (example_config false) w = (Ok tt, w1))
    by (vm_compute; reflexivity).
  assert (H1 : path_exists (w_fs w1) ["in"; "R1.fastq.gz"] = true)
    by (vm_compute; reflexivity).
  assert (H2 : path_exists (w_fs w1) ["in"; "R2.fastq.gz"] = true)
    by (vm_compute; reflexivity).
  assert (Ht : (1 ≤ 8 ≤ 64)%Z) by lia.
  assert (Hmk : mkdir_parents ["out"] (w_fs w1) = Ok fs2) by (vm_compute; reflexivity).
  split; [reflexivity |]. split; [exact H |]. split; [exact H1 |]. split; [exact H2 |].
  split; [exact Ht |]. split; [exact Hmk |].
  exact (proj1 (proj2 (align_real_run_outcome "STAR" (fun _ w => (Completed 1%Z, w))
                         (example_config false) ["in"; "R1.fastq.gz"] ["in"; "R2.fastq.gz"]
                         ["ref"; "hg38"] ["out"] 8 w w1 fs2 eq_refl H H1 H2 Ht Hmk))).
Defined.

(** ** The shared configuration and validators *)

(** X29. [BaseConfig.ensure_directories] is idempotent and touches no file:
    once it has succeeded the data and cache directories exist, every file
    is as it was, and calling it again succeeds and changes nothing. *)
Theorem config_ensure_directories_idempotent data_dir cache_dir w w1 :
  ensure_directories data_dir cache_dir w = (Ok tt, w1) →
  ensure_directories data_dir cache_dir w1 = (Ok tt, w1) ∧
  is_dir (w_fs w1) data_dir = true ∧ is_dir (w_fs w1) cache_dir = true ∧
  fs_files (w_fs w1) = fs_files (w_fs w).
Proof.
  unfold ensure_directories. intros H.
  apply bind_ok in H as ([] & wa & Ha & H). apply fs_update_ok in Ha as (fa & Ha & ->).
  apply fs_update_ok in H as (fb & Hb & ->). simpl in *.
  apply mkdir_parents_in_place in Ha as [Pa [Fa Da]], Hb as [Pb Gb].
  pose proof (in_place_grows _ _ _ Gb Pa) as Pa'. destruct Gb as [Fb Db].
  split_and!.
  - rewrite (bind_run _ _ _ tt (mkWorld fb (w_rng w)))
      by (apply fs_update_again; by apply mkdir_parents_again).
    apply fs_update_again. by apply mkdir_parents_again.
  - by apply in_place_is_dir.
  - by apply in_place_is_dir.
  - congruence.
Qed.

Lemma config_ensure_directories_idempotent_witness :
  let w1 := snd (ensure_directories ["workspace"; "data"] ["workspace"; "cache"] qc_world) in
  ensure_directories ["workspace"; "data"] ["workspace"; "cache"] qc_world = (Ok tt, w1) ∧
  ensure_directories ["workspace"; "data"] ["workspace"; "cache"] w1 = (Ok tt, w1) ∧
  is_dir (w_fs w1) ["workspace"; "data"] = true ∧
  is_dir (w_fs w1) ["workspace"; "cache"] = true ∧
  fs_files (w_fs w1) = fs_files (w_fs qc_world).
Proof.
  intros w1.
  assert (H : ensure_directories ["workspace"; "data"] ["workspace"; "cache"] qc_world
              = (Ok tt, w1)) by (vm_compute; reflexivity).
  split; [exact H |].
  exact (config_ensure_directories_idempotent ["workspace"; "data"] ["workspace"; "cache"]
           qc_world w1 H).
Defined.

(** *** [sanitize_tool_input] *)

Lemma skip_allowed_split s :
  ∃ pre, s = String.append pre (skip_allowed s) ∧ all_allowed pre = true.
Proof.
  induction s as [| c s (pre & IH & Hpre)]; [by exists "" |]. simpl.
  destruct (allowed_char c) eqn:Hc.
  - exists (String c pre). split; [| by simpl; rewrite Hc].
    change (String.append (String c pre) (skip_allowed s))
      with (String c (String.append pre (skip_allowed s))). by rewrite <- IH.
  - by exists "".
Qed.

Lemma skip_allowed_append pre t :
  all_allowed pre = true → skip_allowed (String.append pre t) = skip_allowed t.
Proof.
  induction pre as [| c pre IH]; [done |]. simpl. intros [Hc Hpre]%andb_true_iff.
  change (String.append (String c pre) t) with (String c (String.append pre t)).
  simpl. rewrite Hc. by apply IH.
Qed.

Lemma re_match_allowed_spec value :
  re_match_allowed value = true ↔
  ∃ body, body ≠ "" ∧ all_allowed body = true ∧
          (value = body ∨ value = String.append body newline).
Proof.
  split.
  - destruct value as [| c s]; [discriminate |]. simpl.
    intros [Hc Hrest]%andb_true_iff. destruct (skip_allowed_split s) as (pre & Hs & Hpre).
    exists (String c pre). split; [done |]. split; [by simpl; rewrite Hc |].
    apply orb_true_iff in Hrest as [E | E].
    + apply String.eqb_eq in E. rewrite E, append_empty_r in Hs. left. by rewrite Hs.
    + apply String.eqb_eq in E. rewrite E in Hs. right. rewrite Hs at 1. done.
  - intros (body & Hne & Hbody & Hval). destruct body as [| c body]; [done |].
    simpl in Hbody. apply andb_true_iff in Hbody as [Hc Hbody].
    destruct Hval as [-> | ->].
    + simpl. rewrite Hc. rewrite <- (append_empty_r body).
      by rewrite (skip_allowed_append _ _ Hbody).
    + change (String.append (String c body) newline)
        with (String c (String.append body newline)).
      simpl. rewrite Hc, (skip_allowed_append _ _ Hbody). done.
Qed.

(** X30. [sanitize_tool_input] changes nothing in the value it is given: it
    returns it as it is or raises. The values it returns are those within
    the length limit that consist of one or more characters of
    [[a-zA-Z0-9_\-./]], possibly followed by a single newline: [$] in the
    pattern also matches before a newline at the end, so a value ending in
    a newline is let through with the newline in it. *)
Theorem sanitize_accepts_allowed_or_trailing_newline value param_name max_length v :
  sanitize_tool_input value param_name max_length = Valid v ↔
  v = value ∧ (Z.of_nat (String.length value) ≤ max_length)%Z ∧
  ∃ body, body ≠ "" ∧ all_allowed body = true ∧
          (value = body ∨ value = String.append body newline).
Proof.
  unfold sanitize_tool_input. rewrite <- re_match_allowed_spec.
  destruct (bool_decide_reflect (max_length < Z.of_nat (String.length value))%Z) as [Hlen | Hlen].
  { split; [discriminate | intros (_ & ? & _); lia]. }
  destruct (re_match_allowed value); simpl.
  - split; [intros [= <-]; split_and!; [done | lia | done] | by intros (-> & _)].
  - split; [discriminate | by intros (_ & _ & ?)].
Qed.

Lemma sanitize_accepts_allowed_or_trailing_newline_witness :
  sanitize_tool_input (String.append "sample_001" newline) "sample_id" 1000
  = Valid (String.append "sample_001" newline) ∧
  sanitize_tool_input "sample 001" "sample_id" 1000
  = MCPValidationError "Parameter contains invalid characters".
Proof.
  split; [| reflexivity].
  apply (proj2 (sanitize_accepts_allowed_or_trailing_newline
                  (String.append "sample_001" newline) "sample_id" 1000
                  (String.append "sample_001" newline))).
  split; [reflexivity |]. split; [vm_compute; discriminate |].
  exists "sample_001". split; [discriminate |]. split; [reflexivity |]. by right.
Defined.
